(** * c-log: record formatting, emission gate and interval timers

    A shallow embedding of [src/c-log.h] (the [CLOG_IMPLEMENTATION] part) in
    its default build configuration, and the properties of the record
    pipeline and of the per-thread timer table.

    Conventions of the embedding:
    - a [char] is an [ascii]; the line buffer [g_buf] is a [list ascii] of
      length [CLOG_LINE_MAX]; a [const char *] argument is a [string] that is
      read up to its first NUL;
    - [size_t] cursors are [nat]: every subtraction of the source is guarded
      ([pos < cap], [avail != 0], [off != 0]) and [CLOG_LINE_MAX >= 2], so no
      cursor wraps; [int] values are [Z]; [uint64_t] values are [Z] reduced
      modulo [2^64] where the source can wrap;
    - a store outside the buffer is undefined behaviour in C: here it makes
      the operation return [None];
    - the clock, the thread id and the colour capability are read from an
      environment record, one per API call;
    - what reaches the descriptor is recorded in a trace of events;
    - the answers of [write], the broken-down time, the readings of the
      monotonic clock and the mutex are inputs of the definitions that
      depend on them; every thread has a state of its own. *)

From Stdlib Require Import ZArith Ascii String List Lia Bool.
From Stdlib Require Import DecimalString HexadecimalString.
From Stdlib Require DecimalFacts DecimalPos.
From Stdlib Require Import SpecFloat.
From stdpp Require Import base option list.

Local Open Scope Z_scope.

(** ** Build configuration (the defaults of the header) *)

Definition CLOG_LINE_MAX : nat := 1024.
Definition CLOG_TIMERS_MAX : nat := 16.
Definition CLOG_WITH_LINE : bool := true.
Definition CLOG_WITH_TID : bool := true.
Definition CLOG_TID_SHORT : bool := false.
(** [CLOG_WITH_BUILD_IN_PREFIX] is 0 and [CLOG_BUILD] is not defined. *)
Definition CLOG_BUILD : option string := None.
Definition CLOG_TIMER_NS_MAX : Z := 1000.
Definition CLOG_TIMER_US_MAX : Z := 1000000.
Definition CLOG_TIMER_MS_MAX : Z := 1000000000.
(** The UTF-8 micro sign (0xC2 0xB5) followed by [s]. *)
Definition CLOG_TIMER_UNIT_US : string :=
  String (ascii_of_nat 194) (String (ascii_of_nat 181) "s").
Definition CLOG_FD_STDERR : Z := 2.

Arguments CLOG_LINE_MAX : simpl never.
Arguments CLOG_TIMERS_MAX : simpl never.

(** ** Characters and C strings *)

Definition NUL : ascii := ascii_of_nat 0.
Definition NL : ascii := ascii_of_nat 10.

Definition str (s : string) : list ascii := list_ascii_of_string s.

(** The bytes a [const char *] denotes: everything before the first NUL. *)
Fixpoint c_str (s : string) : list ascii :=
  match s with
  | EmptyString => []
  | String c s' => if Ascii.eqb c NUL then [] else c :: c_str s'
  end.

(** ** Levels *)

Inductive clog_level : Set :=
  | CLOG_TRACE | CLOG_DEBUG | CLOG_INFO | CLOG_WARN | CLOG_ERROR | CLOG_FATAL.

(** The value of the enumerator, as the cast [(int)lvl] gives it. *)
Definition level_int (l : clog_level) : Z :=
  match l with
  | CLOG_TRACE => 0 | CLOG_DEBUG => 1 | CLOG_INFO => 2
  | CLOG_WARN => 3 | CLOG_ERROR => 4 | CLOG_FATAL => 5
  end.

Definition CLOG_DEFAULT_LEVEL : clog_level := CLOG_INFO.

Definition clog_level_eqb (a b : clog_level) : bool := level_int a =? level_int b.

Definition ESC : ascii := ascii_of_nat 27.
Definition CLOG_ANSI_RESET : string := String ESC "[0m".

Definition clog_level_color_ (l : clog_level) : string :=
  match l with
  | CLOG_TRACE => String ESC "[90m"
  | CLOG_DEBUG => String ESC "[36m"
  | CLOG_INFO => String ESC "[32m"
  | CLOG_WARN => String ESC "[33m"
  | CLOG_ERROR => String ESC "[31m"
  | CLOG_FATAL => String ESC "[35m"
  end.

Definition clog_level_name_ (l : clog_level) : string :=
  match l with
  | CLOG_TRACE => "TRACE"
  | CLOG_DEBUG => "DEBUG"
  | CLOG_INFO => "INFO"
  | CLOG_WARN => "WARN"
  | CLOG_ERROR => "ERROR"
  | CLOG_FATAL => "FATAL"
  end.

(** [b] is the candidate result, moved past every separator met. *)
Fixpoint clog_basename_loop (s b : string) : string :=
  match s with
  | EmptyString => b
  | String c s' =>
      if Ascii.eqb c NUL then b
      else if Ascii.eqb c "/" || Ascii.eqb c "\" then clog_basename_loop s' s'
      else clog_basename_loop s' b
  end.

Definition clog_basename_ (p : string) : string := clog_basename_loop p p.

(** ** The 64-bit FNV-1a hash of a label *)

Definition U64 : Z := 2 ^ 64.

Fixpoint clog_hash64_loop (s : string) (h : Z) : Z :=
  match s with
  | EmptyString => h
  | String c s' =>
      if Ascii.eqb c NUL then h
      else clog_hash64_loop s' ((Z.lxor h (Z.of_N (N_of_ascii c)) * 1099511628211) mod U64)
  end.

Definition clog_hash64_ (s : string) : Z := clog_hash64_loop s 1469598103934665603.

(** ** printf conversions used by the header *)

Definition zeros (n : nat) : list ascii := repeat "0"%char n.

(** [%lu], [%llu]: an unsigned value in decimal. *)
Definition fmt_u (n : Z) : list ascii :=
  str (DecimalString.NilZero.string_of_uint (N.to_uint (Z.to_N n))).

(** [%d]. *)
Definition fmt_d (n : Z) : list ascii :=
  (if n <? 0 then ["-"%char] else []) ++ fmt_u (Z.abs n).

(** [%0wd]: sign first, then zeros up to the field width [w], then digits. *)
Definition fmt_0d (w : nat) (n : Z) : list ascii :=
  let sign := if n <? 0 then ["-"%char] else [] in
  let digits := fmt_u (Z.abs n) in
  sign ++ zeros (w - length sign - length digits) ++ digits.

(** [%0wlx]: lower-case hexadecimal, zero-padded to [w]. *)
Definition fmt_0x (w : nat) (n : Z) : list ascii :=
  let digits := str (HexadecimalString.NilZero.string_of_uint (N.to_hex_uint (Z.to_N n))) in
  zeros (w - length digits) ++ digits.

(** *** [double] values and [%.pf]

    A [double] is a binary64 [spec_float]; conversion from [uint64_t] and
    division round to nearest, ties to even. *)

Definition double_of_u64 (n : Z) : spec_float := binary_normalize 53 1024 n 0 false.
Definition double_div (x y : spec_float) : spec_float := SFdiv 53 1024 x y.

(** Nearest integer to [num / den] ([den > 0]), ties to even. *)
Definition round_half_even (num den : Z) : Z :=
  let q := num / den in
  let r := num mod den in
  if 2 * r <? den then q
  else if den <? 2 * r then q + 1
  else if Z.even q then q else q + 1.

(** The decimal digit of [n mod 10]. *)
Definition digit_char (n : Z) : ascii := ascii_of_nat (48 + Z.to_nat (n mod 10)).

(** The last [p] decimal digits of [n], most significant first. *)
Fixpoint fixed_digits (p : nat) (n : Z) : list ascii :=
  match p with
  | O => []
  | S p' => fixed_digits p' (n / 10) ++ [digit_char n]
  end.

(** [q] thousandths (for [p = 3]) printed as a fixed-point number; no point
    is printed for [p = 0]. *)
Definition fmt_fixed (p : nat) (q : Z) : list ascii :=
  let scale := 10 ^ Z.of_nat p in
  fmt_u (q / scale) ++ (if (p =? 0)%nat then [] else "."%char :: fixed_digits p (q mod scale)).

(** [%.pf]: the exact value of the double rounded to [p] decimals, ties to
    even. *)
Definition fmt_f (p : nat) (x : spec_float) : list ascii :=
  match x with
  | S754_zero s => (if s then ["-"%char] else []) ++ fmt_fixed p 0
  | S754_infinity s => (if s then ["-"%char] else []) ++ str "inf"
  | S754_nan => str "nan"
  | S754_finite s m e =>
      let scale := 10 ^ Z.of_nat p in
      let q := if 0 <=? e then Z.pos m * 2 ^ e * scale
               else round_half_even (Z.pos m * scale) (2 ^ (- e)) in
      (if s then ["-"%char] else []) ++ fmt_fixed p q
  end.

(** ** The line buffer and [snprintf] *)

(** Store [bs] at [buf + pos]; [None] when the store leaves the buffer. *)
Definition store_bytes (buf : list ascii) (pos : nat) (bs : list ascii) : option (list ascii) :=
  if decide (pos + length bs ≤ length buf)%nat
  then Some (take pos buf ++ bs ++ drop (pos + length bs) buf)
  else None.

(** The expansion of a format against its arguments: the text (of at most
    [INT_MAX] characters), or an error, for which [snprintf] returns a
    negative value. *)
Inductive formatted : Type :=
  | Text (s : list ascii)
  | FmtError.

(** [snprintf(buf + pos, avail, ...)]: with [avail > 0] it stores the first
    [avail - 1] characters of the text and a NUL; it returns the length of the
    whole text. On an error nothing is stored here (C leaves the contents
    unspecified) and the result is negative. *)
Definition snprintf (buf : list ascii) (pos avail : nat) (t : formatted)
  : option (list ascii * Z) :=
  match t with
  | FmtError => Some (buf, -1)
  | Text s =>
      if (avail =? 0)%nat then Some (buf, Z.of_nat (length s))
      else
        buf' ← store_bytes buf pos (take (avail - 1) s ++ [NUL]);
        Some (buf', Z.of_nat (length s))
  end.

(** The macro [CLOG_APPEND] of [clog_write_prefix_], on the pair of the
    destination and the cursor [pos]. *)
Definition CLOG_APPEND (cap : nat) (t : formatted) (dp : list ascii * nat)
  : option (list ascii * nat) :=
  let '(dst, pos) := dp in
  if (pos <? cap)%nat then
    let avail := (cap - pos)%nat in
    '(dst, r) ← snprintf dst pos avail t;
    if 0 <? r then
      let rr := Z.to_nat r in
      Some (dst, (pos + (if (rr <? avail)%nat then rr
                         else if (avail =? 0)%nat then 0 else avail - 1))%nat)
    else Some (dst, pos)
  else Some (dst, pos).

(** ** The environment of one call *)

Record clog_env : Type := {
  (* clog_localtime_parts_ *)
  tm_Y : Z; tm_m : Z; tm_d : Z; tm_H : Z; tm_M : Z; tm_S : Z; tm_ms : Z;
  (* clog_color_enabled_() *)
  color_enabled : bool;
  (* clog_tid_() *)
  tid : Z;
  (* clog_now_ns_mono_() *)
  now_ns : Z
}.

(** ** The prefix composer *)

Definition timestamp_text (env : clog_env) : list ascii :=
  fmt_0d 4 (tm_Y env) ++ str "-" ++ fmt_0d 2 (tm_m env) ++ str "-" ++ fmt_0d 2 (tm_d env)
    ++ str " " ++ fmt_0d 2 (tm_H env) ++ str ":" ++ fmt_0d 2 (tm_M env) ++ str ":"
    ++ fmt_0d 2 (tm_S env) ++ str "." ++ fmt_0d 3 (tm_ms env) ++ str " ".

Definition TAB : ascii := ascii_of_nat 9.

Definition level_text (env : clog_env) (lvl : clog_level) : list ascii :=
  if color_enabled env
  then str "[" ++ c_str (clog_level_color_ lvl) ++ c_str (clog_level_name_ lvl)
         ++ c_str CLOG_ANSI_RESET ++ str "]" ++ [TAB]
  else str "[" ++ c_str (clog_level_name_ lvl) ++ str "]" ++ [TAB].

Definition tid_text (env : clog_env) : list ascii :=
  if CLOG_TID_SHORT
  then str "(t#" ++ fmt_0x 6 (Z.land (tid env) 16777215) ++ str ") "
  else str "(tid:" ++ fmt_u (tid env) ++ str ") ".

Definition site_text (fname : string) (line : Z) : list ascii :=
  if CLOG_WITH_LINE
  then str "<" ++ c_str fname ++ str ":" ++ fmt_d line ++ str "> "
  else str "<" ++ c_str fname ++ str "> ".

(** The test [*s] on a C string: its first character is not NUL. *)
Definition deref_nonzero (s : string) : bool :=
  match s with
  | EmptyString => false
  | String c _ => negb (Ascii.eqb c NUL)
  end.

(** The bracketed group; [group] is [None] for a NULL pointer. *)
Definition group_text (g : string) : list ascii := str "[" ++ c_str g ++ str "] ".

Definition clog_write_prefix_ (dst : list ascii) (cap : nat) (lvl : clog_level)
    (file : string) (line : Z) (group : option string) (env : clog_env)
  : option (list ascii * nat) :=
  let fname := clog_basename_ file in
  let pos := 0%nat in
  dp ← CLOG_APPEND cap (Text (timestamp_text env)) (dst, pos);
  dp ← CLOG_APPEND cap (Text (level_text env lvl)) dp;
  dp ← match CLOG_BUILD with
       | Some b => CLOG_APPEND cap (Text (str "[build:" ++ c_str b ++ str "] ")) dp
       | None => Some dp
       end;
  dp ← (if CLOG_WITH_TID then CLOG_APPEND cap (Text (tid_text env)) dp else Some dp);
  dp ← CLOG_APPEND cap (Text (site_text fname line)) dp;
  dp ← match group with
       | Some g => if deref_nonzero g then CLOG_APPEND cap (Text (group_text g)) dp else Some dp
       | None => Some dp
       end;
  let '(dst, pos) := dp in
  if (cap <=? pos)%nat then Some (dst, cap) else Some (dst, pos).

(** ** Program state and observable events *)

Record clog_timer_slot_ : Type := {
  key : Z;     (* uint64_t *)
  t0 : Z;      (* uint64_t *)
  used : bool
}.

Inductive event : Type :=
  | EvLock                                   (* clog_lock_() *)
  | EvWriteAll (fd : Z) (bytes : list ascii) (* clog_write_all_(fd, buf, n) *)
  | EvUnlock                                 (* clog_unlock_() *)
  | EvFsync (fd : Z).                        (* fsync(fd) *)

Record state : Type := {
  g_lvl : Z;                          (* int, process-wide *)
  g_fd : Z;                           (* int, process-wide *)
  g_buf : list ascii;                 (* thread-local char[CLOG_LINE_MAX] *)
  g_timers : list clog_timer_slot_;   (* thread-local slots[CLOG_TIMERS_MAX] *)
  trace : list event                  (* what the thread did, oldest first *)
}.

Definition set_buf (st : state) (b : list ascii) : state :=
  {| g_lvl := g_lvl st; g_fd := g_fd st; g_buf := b;
     g_timers := g_timers st; trace := trace st |}.

Definition set_timers (st : state) (t : list clog_timer_slot_) : state :=
  {| g_lvl := g_lvl st; g_fd := g_fd st; g_buf := g_buf st;
     g_timers := t; trace := trace st |}.

Definition add_events (st : state) (es : list event) : state :=
  {| g_lvl := g_lvl st; g_fd := g_fd st; g_buf := g_buf st;
     g_timers := g_timers st; trace := trace st ++ es |}.

Definition zero_slot : clog_timer_slot_ := {| key := 0; t0 := 0; used := false |}.

(** Static storage is zero-initialised. *)
Definition initial_state : state :=
  {| g_lvl := level_int CLOG_DEFAULT_LEVEL;
     g_fd := CLOG_FD_STDERR;
     g_buf := repeat NUL CLOG_LINE_MAX;
     g_timers := repeat zero_slot CLOG_TIMERS_MAX;
     trace := [] |}.

Definition clog_set_level (lvl : clog_level) (st : state) : state :=
  {| g_lvl := level_int lvl; g_fd := g_fd st; g_buf := g_buf st;
     g_timers := g_timers st; trace := trace st |}.

Definition clog_get_level (st : state) : Z := g_lvl st.

Definition clog_set_fd (fd : Z) (st : state) : state :=
  {| g_lvl := g_lvl st; g_fd := fd; g_buf := g_buf st;
     g_timers := g_timers st; trace := trace st |}.

Definition clog_get_fd (st : state) : Z := g_fd st.

(** ** The record formatter and the emission gate *)

(** Lines 544-561: the message is formatted after the prefix. The result is
    the buffer, the cursor [off] and the flag [truncated]. *)
Definition format_message (buf : list ascii) (cap off : nat) (msg : formatted)
  : option (list ascii * nat * bool) :=
  if (off <? cap)%nat then
    let avail := (cap - off)%nat in
    '(buf, n) ← snprintf buf off avail msg;
    if 0 <? n then
      let nn := Z.to_nat n in
      if (avail <=? nn)%nat then Some (buf, (cap - 1)%nat, true)
      else Some (buf, (off + nn)%nat, false)
    else Some (buf, off, false)
  else Some (buf, off, false).

(** Lines 563-568: the truncation marker. *)
Definition truncation_mark : list ascii := str "...".

Definition append_marker (buf : list ascii) (cap off : nat) (truncated : bool)
  : option (list ascii * nat) :=
  let mlen := 3%nat in
  if truncated && (off + mlen <? cap)%nat then
    buf ← store_bytes buf off truncation_mark;
    Some (buf, (off + mlen)%nat)
  else Some (buf, off).

(** [buf[i]]; [None] for a read outside the buffer. *)
Definition load_byte (buf : list ascii) (i : nat) : option ascii := buf !! i.

(** Lines 570-579: the record ends in a newline. *)
Definition terminate_line (buf : list ascii) (cap off : nat) : option (list ascii * nat) :=
  needs ← (if (off =? 0)%nat then Some true
           else c ← load_byte buf (off - 1); Some (negb (Ascii.eqb c NL)));
  if needs : bool then
    if (off + 1 <? cap)%nat then
      buf ← store_bytes buf off [NL];
      buf ← store_bytes buf (off + 1) [NUL];
      Some (buf, (off + 1)%nat)
    else
      (* cap - 2 and cap - 1 in size_t: a wrap is a store far outside *)
      if (cap <? 2)%nat then None
      else
        buf ← store_bytes buf (cap - 2) [NL];
        buf ← store_bytes buf (cap - 1) [NUL];
        Some (buf, (cap - 1)%nat)
  else Some (buf, off).

(** [clog_write_all_] hands [n] bytes of the buffer to the descriptor; the
    retry loop over partial writes is the operating system's side. *)
Definition clog_write_all_ (fd : Z) (buf : list ascii) (n : nat) : option event :=
  if decide (n ≤ length buf)%nat then Some (EvWriteAll fd (take n buf)) else None.

Definition clog_emit_ (lvl : clog_level) (file : string) (line : Z)
    (group : option string) (msg : formatted) (env : clog_env) (st : state)
  : option state :=
  if level_int lvl <? g_lvl st then Some st
  else
    let fd := g_fd st in
    let buf := g_buf st in
    let cap := CLOG_LINE_MAX in
    '(buf, off) ← clog_write_prefix_ buf cap lvl file line group env;
    '(buf, off, truncated) ← format_message buf cap off msg;
    '(buf, off) ← append_marker buf cap off truncated;
    '(buf, off) ← terminate_line buf cap off;
    w ← clog_write_all_ fd buf off;
    let st := add_events (set_buf st buf) [EvLock; w; EvUnlock] in
    if clog_level_eqb lvl CLOG_FATAL then Some (add_events st [EvFsync fd])
    else Some st.

Definition clog_vlog_file_line_ := clog_emit_.
Definition clog_log_file_line_ := clog_vlog_file_line_.

(** ** Timers (per-thread fixed slots) *)

Definition slot_matches (tbl : list clog_timer_slot_) (k : Z) (i : nat) : bool :=
  match tbl !! i with
  | Some s => used s && (key s =? k)
  | None => false
  end.

Definition slot_unused (tbl : list clog_timer_slot_) (i : nat) : bool :=
  match tbl !! i with
  | Some s => negb (used s)
  | None => false
  end.

(** The scans run [i] over [0 .. CLOG_TIMERS_MAX - 1] and return the first
    hit, or [-1]. *)
Definition clog_timer_find_slot_ (tbl : list clog_timer_slot_) (k : Z) : Z :=
  match find (slot_matches tbl k) (seq 0 CLOG_TIMERS_MAX) with
  | Some i => Z.of_nat i
  | None => -1
  end.

Definition clog_timer_free_slot_ (tbl : list clog_timer_slot_) : Z :=
  match find (slot_unused tbl) (seq 0 CLOG_TIMERS_MAX) with
  | Some i => Z.of_nat i
  | None => -1
  end.

Definition no_free_slots_text : list ascii :=
  str "no free timer slots (CLOG_TIMERS_MAX=" ++ fmt_d (Z.of_nat CLOG_TIMERS_MAX) ++ str ")".

Definition clogp_timer_start_ (file : string) (line : Z) (label : string)
    (env : clog_env) (st : state) : option state :=
  let k := clog_hash64_ label in
  let idx := clog_timer_find_slot_ (g_timers st) k in
  let idx := if idx <? 0 then clog_timer_free_slot_ (g_timers st) else idx in
  if 0 <=? idx then
    Some (set_timers st
            (<[Z.to_nat idx := {| key := k; t0 := now_ns env; used := true |}]> (g_timers st)))
  else
    clog_log_file_line_ CLOG_WARN file line (Some "timer"%string)
      (Text no_free_slots_text) env st.

Definition unknown_label_text (label : string) : list ascii :=
  str "end_time for unknown label: " ++ c_str label.

(** The literals [1e3], [1e6] and [1e9] are exact doubles. *)
Definition d1e3 : spec_float := double_of_u64 1000.
Definition d1e6 : spec_float := double_of_u64 1000000.
Definition d1e9 : spec_float := double_of_u64 1000000000.

Definition clogp_timer_end_ (file : string) (line : Z) (label : string)
    (env : clog_env) (st : state) : option state :=
  let k := clog_hash64_ label in
  let idx := clog_timer_find_slot_ (g_timers st) k in
  if idx <? 0 then
    clog_log_file_line_ CLOG_WARN file line (Some "timer"%string)
      (Text (unknown_label_text label)) env st
  else
    s ← g_timers st !! Z.to_nat idx;
    let dt_ns := (now_ns env - t0 s) mod U64 in
    let st := set_timers st
                (<[Z.to_nat idx := {| key := key s; t0 := t0 s; used := false |}]> (g_timers st)) in
    let timer := Some "timer"%string in
    if dt_ns <? CLOG_TIMER_NS_MAX then
      clog_log_file_line_ CLOG_DEBUG file line timer
        (Text (str "[" ++ fmt_u dt_ns ++ str " ns]: " ++ c_str label)) env st
    else if dt_ns <? CLOG_TIMER_US_MAX then
      let us := double_div (double_of_u64 dt_ns) d1e3 in
      clog_log_file_line_ CLOG_DEBUG file line timer
        (Text (str "[" ++ fmt_f 3 us ++ str " " ++ c_str CLOG_TIMER_UNIT_US ++ str "]: "
                 ++ c_str label)) env st
    else if dt_ns <? CLOG_TIMER_MS_MAX then
      let ms := double_div (double_of_u64 dt_ns) d1e6 in
      clog_log_file_line_ CLOG_DEBUG file line timer
        (Text (str "[" ++ fmt_f 3 ms ++ str " ms]: " ++ c_str label)) env st
    else
      let s := double_div (double_of_u64 dt_ns) d1e9 in
      clog_log_file_line_ CLOG_DEBUG file line timer
        (Text (str "[" ++ fmt_f 6 s ++ str " s]: " ++ c_str label)) env st.

(** [clog_banner] ([CLOG_BUILD] is not defined). *)
Definition clog_banner (env : clog_env) (st : state) : option state :=
  clog_log_file_line_ CLOG_INFO "c-log.h" 665 (Some "clog"%string)
    (Text (str "logger ready")) env st.

(** ** Reading the model: the bytes a call hands to the descriptor *)

Definition written_bytes (e : event) : option (list ascii) :=
  match e with
  | EvWriteAll _ b => Some b
  | _ => None
  end.

(** The records written during a run, oldest first. *)
Definition records (tr : list event) : list (list ascii) := omap written_bytes tr.

(** ** The retry loop of [clog_write_all_] (POSIX branch) *)

(** One answer of [write(2)]: the value returned and whether [errno] is
    [EINTR]. *)
Record write_ret : Type := { wr_r : Z; wr_eintr : bool }.

(** [clog_write_all_(fd, p, n)] against the answers [os] the system gives to
    its successive [write] calls; [p] is the bytes from the pointer on and
    [left] the count still to write. The result is the value returned ([0]
    or [-1]) and the chunks the system accepted, in order. [None]: the
    answers ran out while the loop was still running, or the system claimed
    more bytes than it was offered. *)
Fixpoint clog_write_all_loop (os : list write_ret) (p : list ascii) (left : nat)
  : option (Z * list (list ascii)) :=
  if (left =? 0)%nat then Some (0, [])
  else
    match os with
    | [] => None
    | a :: os' =>
        if 0 <? wr_r a then
          let r := Z.to_nat (wr_r a) in
          if (r <=? left)%nat then
            '(rc, chunks) ← clog_write_all_loop os' (drop r p) (left - r);
            Some (rc, take r p :: chunks)
          else None
        else if (wr_r a <? 0) && wr_eintr a then clog_write_all_loop os' p left
        else Some (-1, [])
    end.

(** ** The clock adapter (POSIX branch) *)

(** The fields of [struct tm] the header reads. *)
Record tm : Type := {
  tm_year : Z; tm_mon : Z; tm_mday : Z; tm_hour : Z; tm_min : Z; tm_sec : Z
}.

(** The conversion [(int)] of a [long] value: values of [int] are kept, the
    others wrap (GCC and Clang). *)
Definition int_of_long (x : Z) : Z := (x + 2 ^ 31) mod 2 ^ 32 - 2 ^ 31.

(** [clog_localtime_parts_]: the seven values stored through the pointers,
    from the broken-down time [tmv] and [ts.tv_nsec]. The division is C's,
    which truncates toward zero. The additions are [int] additions; they do
    not overflow for the values [localtime_r] produces. *)
Definition clog_localtime_parts_ (tmv : tm) (tv_nsec : Z) : Z * Z * Z * Z * Z * Z * Z :=
  (tm_year tmv + 1900, tm_mon tmv + 1, tm_mday tmv, tm_hour tmv, tm_min tmv, tm_sec tmv,
   int_of_long (Z.quot tv_nsec 1000000)).

(** [clog_now_ns_mono_]: [(uint64_t)ts.tv_sec * 1000000000ull +
    (uint64_t)ts.tv_nsec], in 64-bit unsigned arithmetic. *)
Definition clog_now_ns_mono_ (tv_sec tv_nsec : Z) : Z :=
  ((tv_sec mod U64) * 1000000000 + tv_nsec mod U64) mod U64.

(** ** The scoped timer *)

(** [CLOG_SCOPE_TIME(label) body]: a [for] loop that starts the timer, runs
    the body once and ends the timer, when the body runs to its end. The
    macro is expanded at one source line; [env1] and [env2] are the
    environments of the start and of the end. *)
Definition CLOG_SCOPE_TIME (file : string) (line : Z) (label : string)
    (env1 env2 : clog_env) (body : state → option state) (st : state) : option state :=
  st ← clogp_timer_start_ file line label env1 st;
  st ← body st;
  clogp_timer_end_ file line label env2 st.

(** ** Compile-time elision (lines 220-266)

    Each pair of level macros is defined under a condition
    [#if CLOG_COMPILETIME_MIN_LEVEL <= CLOG_X], which the preprocessor
    evaluates. The operands are what the macro [CLOG_COMPILETIME_MIN_LEVEL]
    expands to, an integer or an identifier, and the name of an enumeration
    constant of [clog_level]. In a [#if] expression an identifier that is
    not a macro has the value 0. *)

Inductive pp_operand : Type :=
  | PPInt (n : Z)
  | PPIdent (name : string).

Definition pp_value (e : pp_operand) : Z :=
  match e with
  | PPInt n => n
  | PPIdent _ => 0
  end.

Definition level_ident (l : clog_level) : string :=
  match l with
  | CLOG_TRACE => "CLOG_TRACE"
  | CLOG_DEBUG => "CLOG_DEBUG"
  | CLOG_INFO => "CLOG_INFO"
  | CLOG_WARN => "CLOG_WARN"
  | CLOG_ERROR => "CLOG_ERROR"
  | CLOG_FATAL => "CLOG_FATAL"
  end.

(** The default: [#define CLOG_COMPILETIME_MIN_LEVEL CLOG_TRACE]. *)
Definition CLOG_COMPILETIME_MIN_LEVEL : pp_operand := PPIdent "CLOG_TRACE".

(** [log_trace(...)] ... [log_fatal_group(g, ...)]: the call of the front
    end, or [((void)0)]. *)
Definition log_macro (min_level : pp_operand) (lvl : clog_level) (file : string) (line : Z)
    (group : option string) (msg : formatted) (env : clog_env) (st : state) : option state :=
  if pp_value min_level <=? pp_value (PPIdent (level_ident lvl))
  then clog_log_file_line_ lvl file line group msg env st
  else Some st.

(** * Vocabulary of the properties *)

(** ** States *)

(** The state a thread may be in: its arrays have their declared sizes. *)
Definition wf_state (st : state) : Prop :=
  length (g_buf st) = CLOG_LINE_MAX ∧ length (g_timers st) = CLOG_TIMERS_MAX.

(** The events of [st'] that [st] did not have yet. *)
Definition new_events (st st' : state) : list event :=
  drop (length (trace st)) (trace st').

(** The call that led from [st] to [st'] wrote exactly one record. *)
Definition emits_record (st st' : state) : Prop :=
  ∃ rec, records (new_events st st') = [rec].

(** The events a call at level [lvl] adds when it writes the record [rec]. *)
Definition emission (lvl : clog_level) (fd : Z) (rec : list ascii) : list event :=
  [EvLock; EvWriteAll fd rec; EvUnlock]
    ++ (if clog_level_eqb lvl CLOG_FATAL then [EvFsync fd] else []).

(** ** Records *)

(** The text of a message; an expansion that failed contributes nothing. *)
Definition msg_text (m : formatted) : list ascii :=
  match m with
  | Text s => s
  | FmtError => []
  end.

Definition build_text : list ascii :=
  match CLOG_BUILD with
  | Some b => str "[build:" ++ c_str b ++ str "] "
  | None => []
  end.

(** The prefix fields one after the other, as if the buffer were unbounded. *)
Definition prefix_text (lvl : clog_level) (file : string) (line : Z)
    (group : option string) (env : clog_env) : list ascii :=
  timestamp_text env ++ level_text env lvl ++ build_text
    ++ (if CLOG_WITH_TID then tid_text env else [])
    ++ site_text (clog_basename_ file) line
    ++ match group with
       | Some g => if deref_nonzero g then group_text g else []
       | None => []
       end.

(** The text composed so far, cut to what a buffer of [cap] bytes keeps
    before its terminator. *)
Definition kept (cap : nat) (txt : list ascii) : list ascii := take (cap - 1) txt.

(** [dp] holds the kept part of [txt], NUL-terminated, in a buffer of [cap]
    bytes. *)
Definition holds (cap : nat) (txt : list ascii) (dp : list ascii * nat) : Prop :=
  length dp.1 = cap ∧ dp.2 = length (kept cap txt) ∧
  take dp.2 dp.1 = kept cap txt ∧ dp.1 !! dp.2 = Some NUL.

Definition ends_with_newline (l : list ascii) : bool :=
  match last l with
  | Some c => Ascii.eqb c NL
  | None => false
  end.

(** Number of newline bytes in a byte sequence. *)
Definition newlines (l : list ascii) : nat := count_occ ascii_dec l NL.

(** Number of newline bytes at the end of a byte sequence. *)
Fixpoint leading_newlines (l : list ascii) : nat :=
  match l with
  | c :: l' => if Ascii.eqb c NL then S (leading_newlines l') else 0
  | [] => 0
  end.

Definition trailing_newlines (l : list ascii) : nat := leading_newlines (rev l).

(** Newline normalisation of the composed content of a record. *)
Definition line_of (cap : nat) (content : list ascii) : list ascii :=
  if ends_with_newline content then content
  else if (length content + 1 <? cap)%nat then content ++ [NL]
  else take (cap - 2) content ++ [NL].

(** The composed content of a record: prefix and message, cut to the buffer. *)
Definition content_of (lvl : clog_level) (file : string) (line : Z)
    (group : option string) (msg : formatted) (env : clog_env) : list ascii :=
  kept CLOG_LINE_MAX (prefix_text lvl file line group env ++ msg_text msg).

(** The record a call at [lvl] writes when the threshold lets it through. *)
Definition record_of (lvl : clog_level) (file : string) (line : Z)
    (group : option string) (msg : formatted) (env : clog_env) : list ascii :=
  line_of CLOG_LINE_MAX (content_of lvl file line group msg env).

(** [sub] occurs in [l] as a contiguous run of bytes. *)
Fixpoint is_prefix_of (sub l : list ascii) : bool :=
  match sub, l with
  | [], _ => true
  | a :: sub', b :: l' => Ascii.eqb a b && is_prefix_of sub' l'
  | _ :: _, [] => false
  end.

Fixpoint contains (sub l : list ascii) : bool :=
  is_prefix_of sub l ||
  match l with
  | [] => false
  | _ :: l' => contains sub l'
  end.

(** ** Printed numbers *)

Definition is_digit (c : ascii) : bool :=
  (48 <=? nat_of_ascii c)%nat && (nat_of_ascii c <=? 57)%nat.

(** A non-empty run of digits. *)
Definition whole_number (l : list ascii) : Prop :=
  l ≠ [] ∧ forallb is_digit l = true.

(** Digits, a point, and exactly [p] digits. *)
Definition decimal_with (p : nat) (l : list ascii) : Prop :=
  ∃ ip fp, l = ip ++ ["."%char] ++ fp ∧ ip ≠ [] ∧
           forallb is_digit ip = true ∧ forallb is_digit fp = true ∧ length fp = p.

(** A double that is zero or finite, and not negative. *)
Definition finite_nonneg (x : spec_float) : bool :=
  match x with
  | S754_zero s => negb s
  | S754_finite s _ _ => negb s
  | _ => false
  end.

(** A double that is zero or finite, not negative, with a mantissa below
    [2^K] and an exponent of at most [E]. *)
Definition fin_le (K E : Z) (x : spec_float) : Prop :=
  match x with
  | S754_zero s => s = false
  | S754_finite s m e => s = false ∧ Z.pos m < 2 ^ K ∧ e ≤ E
  | _ => False
  end.

(** The two bytes of the UTF-8 micro sign. *)
Definition micro : list ascii := [ascii_of_nat 194; ascii_of_nat 181].

(** ** Timers *)

(** Number of occupied timer slots. *)
Definition occupied (tbl : list clog_timer_slot_) : nat :=
  length (filter (λ s, used s = true) tbl).

(** The slot a start writes and the slot an end leaves behind. *)
Definition started (k now : Z) : clog_timer_slot_ := {| key := k; t0 := now; used := true |}.
Definition released (s : clog_timer_slot_) : clog_timer_slot_ :=
  {| key := key s; t0 := t0 s; used := false |}.

(** One step of FNV-1a on 64 bits: xor the byte in, multiply by the FNV
    prime. *)
Definition fnv1a_step (h : Z) (c : ascii) : Z :=
  (Z.lxor h (Z.of_N (N_of_ascii c)) * 1099511628211) mod 2 ^ 64.

(** The elapsed time of a timer report, by tier. *)
Definition elapsed_text (dt : Z) : list ascii :=
  if dt <? 1000 then fmt_u dt ++ str " ns"
  else if dt <? 1000000 then
    fmt_f 3 (double_div (double_of_u64 dt) (double_of_u64 1000))
      ++ str " " ++ c_str CLOG_TIMER_UNIT_US
  else if dt <? 1000000000 then
    fmt_f 3 (double_div (double_of_u64 dt) (double_of_u64 1000000)) ++ str " ms"
  else fmt_f 6 (double_div (double_of_u64 dt) (double_of_u64 1000000000)) ++ str " s".

Definition timer_report_text (dt : Z) (label : string) : list ascii :=
  str "[" ++ elapsed_text dt ++ str "]: " ++ c_str label.

(** ** Concrete inputs *)

(** A clock reading, a thread id and no colour. *)
Definition env0 : clog_env :=
  {| tm_Y := 2025; tm_m := 1; tm_d := 2; tm_H := 3; tm_M := 4; tm_S := 5; tm_ms := 6;
     color_enabled := false; tid := 42; now_ns := 1000 |}.

(** The same thread 5 ms later: the monotonic clock is 5.124456 ms past
    [now_ns env0]. *)
Definition env_later : clog_env :=
  {| tm_Y := 2025; tm_m := 1; tm_d := 2; tm_H := 3; tm_M := 4; tm_S := 5; tm_ms := 11;
     color_enabled := false; tid := 42; now_ns := 5125456 |}.

(** A table in which label "io" is being timed since [t0 = 1000]. *)
Definition timing_io : state :=
  set_timers initial_state
    (<[0%nat := started (clog_hash64_ "io") 1000]> (g_timers initial_state)).

(** A table whose sixteen slots are all in use, with keys 0 to 15. *)
Definition full_table : state :=
  set_timers initial_state (map (λ i, started (Z.of_nat i) 0) (seq 0 CLOG_TIMERS_MAX)).

(** ** Sequences of calls *)

(** One call of the logging front end with the environment it runs in. *)
Record log_call : Type := {
  c_lvl : clog_level;
  c_file : string;
  c_line : Z;
  c_group : option string;
  c_msg : formatted;
  c_env : clog_env
}.

(** The calls of a thread, one after the other. *)
Fixpoint run_calls (cs : list log_call) (st : state) : option state :=
  match cs with
  | [] => Some st
  | c :: cs' =>
      st' ← clog_log_file_line_ (c_lvl c) (c_file c) (c_line c) (c_group c) (c_msg c)
              (c_env c) st;
      run_calls cs' st'
  end.

(** The call passes a threshold [t]. *)
Definition passes (t : Z) (c : log_call) : bool := t <=? level_int (c_lvl c).

Definition record_of_call (c : log_call) : list ascii :=
  record_of (c_lvl c) (c_file c) (c_line c) (c_group c) (c_msg c) (c_env c).

(** The group field of the prefix: present for a non-NULL, non-empty group. *)
Definition group_field (group : option string) : list ascii :=
  match group with
  | Some g => if deref_nonzero g then str "[" ++ c_str g ++ str "] " else []
  | None => []
  end.

(** ** Paths *)

Definition is_sep (c : ascii) : bool := Ascii.eqb c "/" || Ascii.eqb c "\".

(** ** Writes *)

(** The answer makes the loop call [write] again without progress. *)
Definition is_eintr (a : write_ret) : bool := (wr_r a <? 0) && wr_eintr a.

(** ** Timer tables *)

(** No two used slots have the same key. *)
Definition keys_distinct (tbl : list clog_timer_slot_) : Prop :=
  ∀ i j s s', tbl !! i = Some s → tbl !! j = Some s' →
    used s = true → used s' = true → key s = key s' → i = j.

(** No used slot has the key [k]. *)
Definition key_absent (tbl : list clog_timer_slot_) (k : Z) : Prop :=
  ∀ s, s ∈ tbl → used s = true → key s ≠ k.

(** Starts of several labels, one after the other. *)
Fixpoint start_all (file : string) (line : Z) (labels : list string) (env : clog_env)
    (st : state) : option state :=
  match labels with
  | [] => Some st
  | l :: ls => st' ← clogp_timer_start_ file line l env st; start_all file line ls env st'
  end.

(** The environment [env] with the wall-clock fields replaced. *)
Definition with_time (parts : Z * Z * Z * Z * Z * Z * Z) (env : clog_env) : clog_env :=
  let '(year, mon, day, hour, mins, sec, ms) := parts in
  {| tm_Y := year; tm_m := mon; tm_d := day; tm_H := hour; tm_M := mins; tm_S := sec;
     tm_ms := ms;
     color_enabled := color_enabled env; tid := tid env; now_ns := now_ns env |}.

(** ** The calls of a thread *)

(** One call of the public interface, with the environment it runs in. *)
Inductive api_call : Type :=
  | CallLog (c : log_call)
  | CallStart (file : string) (line : Z) (label : string) (env : clog_env)
  | CallEnd (file : string) (line : Z) (label : string) (env : clog_env)
  | CallSetLevel (lvl : clog_level)
  | CallSetFd (fd : Z)
  | CallBanner (env : clog_env).

Definition run_api_call (c : api_call) (st : state) : option state :=
  match c with
  | CallLog c =>
      clog_log_file_line_ (c_lvl c) (c_file c) (c_line c) (c_group c) (c_msg c) (c_env c) st
  | CallStart file line label env => clogp_timer_start_ file line label env st
  | CallEnd file line label env => clogp_timer_end_ file line label env st
  | CallSetLevel lvl => Some (clog_set_level lvl st)
  | CallSetFd fd => Some (clog_set_fd fd st)
  | CallBanner env => clog_banner env st
  end.

Fixpoint run_api (cs : list api_call) (st : state) : option state :=
  match cs with
  | [] => Some st
  | c :: cs' => st' ← run_api_call c st; run_api cs' st'
  end.

(** A thread with one running timer, started at clock reading 1000. *)
Definition render_running : state :=
  set_timers initial_state
    (<[0%nat := started (clog_hash64_ "render") 1000]> (g_timers initial_state)).

(** ** Locking *)

(** What a thread does from its first call on. *)
Definition thread_trace (cs : list api_call) : list event :=
  match run_api cs initial_state with
  | Some st => trace st
  | None => []
  end.

(** The events of one thread respect the lock; [held] says whether the
    thread holds it before the first event. Every write happens under the
    lock, [fsync] outside of it, the lock is not taken twice and it is free
    at the end. *)
Fixpoint well_locked (held : bool) (es : list event) : bool :=
  match es with
  | [] => negb held
  | EvLock :: es' => negb held && well_locked true es'
  | EvWriteAll _ _ :: es' => held && well_locked held es'
  | EvUnlock :: es' => held && well_locked false es'
  | EvFsync _ :: es' => negb held && well_locked held es'
  end.

(** The mutex [g_lock] as the threads see it ([CLOG_LOCK_KIND] 2):
    [pthread_mutex_lock] returns in thread [i] when no thread holds the
    mutex, and then [i] holds it; [pthread_mutex_unlock] is called by the
    holder and frees it. The result is [None] when the event cannot happen
    now. *)
Definition lock_step (holder : option nat) (i : nat) (e : event) : option (option nat) :=
  match e with
  | EvLock => match holder with None => Some (Some i) | Some _ => None end
  | EvUnlock =>
      match holder with
      | Some j => if (i =? j)%nat then Some None else None
      | None => None
      end
  | _ => Some holder
  end.

(** [interleaving holder ts out]: the threads, which still have the events
    [ts] to do, can do the events [out], each with the number of its thread,
    in this order. *)
Inductive interleaving : option nat → list (list event) → list (nat * event) → Prop :=
  | interleaving_nil holder ts : interleaving holder ts []
  | interleaving_cons holder holder' ts i e rest out :
      ts !! i = Some (e :: rest) →
      lock_step holder i e = Some holder' →
      interleaving holder' (<[i := rest]> ts) out →
      interleaving holder ts ((i, e) :: out).

(** Every write of [out] is made by the thread that holds the lock. *)
Fixpoint writes_exclusive (holder : option nat) (out : list (nat * event)) : bool :=
  match out with
  | [] => true
  | (i, e) :: out' =>
      match lock_step holder i e with
      | Some holder' =>
          match e with
          | EvWriteAll _ _ => bool_decide (holder = Some i)
          | _ => true
          end && writes_exclusive holder' out'
      | None => false
      end
  end.

(** Two calls for two threads. *)
Definition fatal_call : log_call :=
  {| c_lvl := CLOG_FATAL; c_file := "a.c"; c_line := 1; c_group := None;
     c_msg := Text (str "down"); c_env := env0 |}.

Definition info_call : log_call :=
  {| c_lvl := CLOG_INFO; c_file := "b.c"; c_line := 2; c_group := None;
     c_msg := Text (str "up"); c_env := env_later |}.

(** * Lemmas *)

(** ** The buffer after a bounded append *)

Section Buffer.
Local Open Scope nat_scope.

Lemma length_kept cap txt : length (kept cap txt) = min (cap - 1) (length txt).
Proof. unfold kept. rewrite length_take. lia. Qed.

Lemma kept_app cap txt s :
  kept cap (txt ++ s) = kept cap txt ++ take (cap - 1 - length (kept cap txt)) s.
Proof.
  unfold kept. rewrite take_app, length_take. f_equal.
  destruct (decide (cap - 1 ≤ length txt)).
  - replace (cap - 1 - length txt) with 0 by lia.
    replace (cap - 1 - (cap - 1) `min` length txt) with 0 by lia. done.
  - f_equal. lia.
Qed.

Lemma store_bytes_Some buf pos bs :
  pos + length bs ≤ length buf →
  store_bytes buf pos bs = Some (take pos buf ++ bs ++ drop (pos + length bs) buf).
Proof. intros H. unfold store_bytes. by rewrite decide_True. Qed.

Lemma store_bytes_length buf pos bs buf' :
  store_bytes buf pos bs = Some buf' → length buf' = length buf.
Proof.
  unfold store_bytes. case_decide; [|done]. intros [= <-].
  rewrite !length_app, length_take, length_drop. lia.
Qed.

Lemma store_bytes_take buf pos bs buf' :
  store_bytes buf pos bs = Some buf' → take (pos + length bs) buf' = take pos buf ++ bs.
Proof.
  unfold store_bytes. case_decide; [|done]. intros [= <-].
  rewrite app_assoc.
  rewrite take_app_length'; [done|].
  rewrite length_app, length_take. lia.
Qed.

Lemma store_bytes_take_le buf pos bs buf' n :
  store_bytes buf pos bs = Some buf' → n ≤ pos → take n buf' = take n buf.
Proof.
  unfold store_bytes. case_decide; [|done]. intros [= <-] Hn.
  rewrite take_app_le by (rewrite length_take; lia).
  rewrite take_take. f_equal. lia.
Qed.

Lemma store_bytes_lookup buf pos bs buf' i :
  store_bytes buf pos bs = Some buf' → i < length bs → buf' !! (pos + i) = bs !! i.
Proof.
  unfold store_bytes. case_decide; [|done]. intros [= <-] Hi.
  rewrite lookup_app_r by (rewrite length_take; lia).
  rewrite length_take.
  replace (pos + i - pos `min` length buf) with i by lia.
  by rewrite lookup_app_l.
Qed.

Lemma list_inserts_middle (a b c bs : list ascii) :
  length b = length bs → list_inserts (length a) bs (a ++ b ++ c) = a ++ bs ++ c.
Proof.
  intros Hb. replace (length a) with (length a + 0) by lia.
  rewrite list_inserts_app_r. f_equal. by apply list_inserts_0_r.
Qed.

(** A store inside the buffer is [list_inserts]. *)
Lemma store_bytes_inserts buf pos bs buf' :
  store_bytes buf pos bs = Some buf' → buf' = list_inserts pos bs buf.
Proof.
  unfold store_bytes. case_decide as Hle; [|done]. intros [= <-].
  rewrite <-(list_inserts_middle _ (take (length bs) (drop pos buf)) _ bs)
    by (rewrite length_take, length_drop; lia).
  f_equal; [rewrite length_take; lia|].
  rewrite <-(take_drop pos buf) at 4. f_equal.
  rewrite <-(take_drop (length bs) (drop pos buf)) at 2. f_equal.
  by rewrite drop_drop.
Qed.

(** One text appended with the cursor discipline of [CLOG_APPEND]. *)
Lemma snprintf_Text buf pos avail s :
  0 < avail → pos + avail ≤ length buf →
  ∃ buf', snprintf buf pos avail (Text s) = Some (buf', Z.of_nat (length s)) ∧
          length buf' = length buf ∧
          take (pos + min (length s) (avail - 1)) buf' = take pos buf ++ take (avail - 1) s ∧
          buf' !! (pos + min (length s) (avail - 1)) = Some NUL.
Proof.
  intros Ha Hb. unfold snprintf.
  destruct (Nat.eqb_spec avail 0) as [|_]; [lia|].
  set (bs := take (avail - 1) s ++ [NUL]).
  assert (Hlen : length bs = min (length s) (avail - 1) + 1).
  { unfold bs. rewrite length_app, length_take. simpl. lia. }
  destruct (store_bytes buf pos bs) as [buf'|] eqn:E.
  2:{ rewrite store_bytes_Some in E by lia. done. }
  simpl. eexists. split; [done|]. split; [by eapply store_bytes_length|]. split.
  - pose proof (store_bytes_take _ _ _ _ E) as Ht.
    apply (f_equal (take (pos + min (length s) (avail - 1)))) in Ht.
    rewrite take_take in Ht.
    replace ((pos + length s `min` (avail - 1)) `min` (pos + length bs))
      with (pos + min (length s) (avail - 1)) in Ht by lia.
    rewrite Ht. unfold bs. rewrite app_assoc.
    rewrite take_app_length'; [done|].
    rewrite length_app, !length_take. lia.
  - rewrite (store_bytes_lookup _ _ _ _ _ E) by lia.
    unfold bs. rewrite lookup_app_r by (rewrite length_take; lia).
    rewrite length_take. replace (_ - _) with 0 by lia. done.
Qed.

Lemma snprintf_holds cap txt s dst pos :
  1 ≤ cap → length dst = cap → pos = length (kept cap txt) →
  take pos dst = kept cap txt →
  pos < cap ∧
  ∃ buf', snprintf dst pos (cap - pos) (Text s) = Some (buf', Z.of_nat (length s)) ∧
          holds cap (txt ++ s) (buf', pos + min (length s) (cap - pos - 1)).
Proof.
  intros Hcap Hlen Hpos Htake.
  pose proof (length_kept cap txt) as Hk.
  split; [lia|].
  destruct (snprintf_Text dst pos (cap - pos) s) as (buf' & -> & Hl' & Ht' & Hn'); [lia..|].
  eexists. split; [done|].
  unfold holds; simpl. split; [lia|].
  split; [rewrite length_kept, length_app; lia|]. split; [|done].
  rewrite Ht', Htake, kept_app. do 2 f_equal. lia.
Qed.

Lemma CLOG_APPEND_holds cap txt s dst pos :
  1 ≤ cap → length dst = cap → pos = length (kept cap txt) →
  take pos dst = kept cap txt →
  ∃ dp', CLOG_APPEND cap (Text s) (dst, pos) = Some dp' ∧ holds cap (txt ++ s) dp'.
Proof.
  intros Hcap Hlen Hpos Htake.
  destruct (snprintf_holds cap txt s dst pos) as (Hlt & buf' & Hs & Hres); [done..|].
  unfold CLOG_APPEND.
  destruct (Nat.ltb_spec pos cap) as [_|]; [|lia].
  cbv zeta. rewrite Hs. cbn [mbind option_bind]. rewrite Nat2Z.id.
  destruct (Z.ltb_spec 0 (Z.of_nat (length s))) as [Hpos'|Hz].
  - eexists. split; [done|].
    destruct (Nat.ltb_spec (length s) (cap - pos)).
    + by replace (pos + min (length s) (cap - pos - 1)) with (pos + length s) in Hres by lia.
    + destruct (Nat.eqb_spec (cap - pos) 0); [lia|].
      by replace (pos + min (length s) (cap - pos - 1)) with (pos + (cap - pos - 1)) in Hres by lia.
  - eexists. split; [done|].
    by replace (pos + min (length s) (cap - pos - 1)) with pos in Hres by lia.
Qed.

Lemma store_bytes_lookup_outside buf pos bs buf' j :
  store_bytes buf pos bs = Some buf' → j < pos ∨ pos + length bs ≤ j →
  buf' !! j = buf !! j.
Proof.
  intros E Hj. rewrite (store_bytes_inserts _ _ _ _ E).
  destruct Hj; [by apply list_lookup_inserts_lt|by apply list_lookup_inserts_ge].
Qed.

(** Any append step, whatever the cursor and the text: it stays inside the
    buffer, never moves the cursor back or to [cap], and touches only the
    bytes from the old cursor to the new one. *)
Lemma CLOG_APPEND_safe cap t dst pos :
  length dst = cap →
  ∃ dst' pos', CLOG_APPEND cap t (dst, pos) = Some (dst', pos') ∧
    length dst' = cap ∧ pos ≤ pos' ∧ (pos < cap → pos' < cap) ∧
    ∀ j, j < pos ∨ pos' < j → dst' !! j = dst !! j.
Proof.
  intros Hlen. unfold CLOG_APPEND.
  destruct (Nat.ltb_spec pos cap) as [Hlt|Hge].
  2:{ eexists _, _. split; [done|]. repeat split; try done; lia. }
  destruct t as [s|]; cbn [snprintf].
  2:{ cbn. eexists _, _. split; [done|]. repeat split; try done. }
  destruct (Nat.eqb_spec (cap - pos) 0) as [|_]; [lia|].
  set (bs := take (cap - pos - 1) s ++ [NUL]).
  assert (Hbs : length bs = min (length s) (cap - pos - 1) + 1).
  { unfold bs. rewrite length_app, length_take. cbn [length]. lia. }
  destruct (store_bytes dst pos bs) as [buf'|] eqn:E.
  2:{ rewrite store_bytes_Some in E by lia. done. }
  cbn [mbind option_bind]. rewrite Nat2Z.id.
  pose proof (store_bytes_length _ _ _ _ E) as Hl'.
  destruct (Z.ltb_spec 0 (Z.of_nat (length s))) as [Hp|Hz].
  - eexists _, _. split; [done|]. split; [lia|].
    destruct (Nat.ltb_spec (length s) (cap - pos));
      [|destruct (Nat.eqb_spec (cap - pos) 0); [lia|]].
    all: split; [lia|]; split; [lia|].
    all: intros j Hj; apply (store_bytes_lookup_outside _ _ _ _ _ E); lia.
  - eexists _, _. split; [done|]. split; [lia|]. split; [lia|]. split; [done|].
    intros j Hj. apply (store_bytes_lookup_outside _ _ _ _ _ E). lia.
Qed.

Lemma CLOG_APPEND_holds_next cap txt s dp :
  1 ≤ cap → holds cap txt dp →
  ∃ dp', CLOG_APPEND cap (Text s) dp = Some dp' ∧ holds cap (txt ++ s) dp'.
Proof.
  destruct dp as [dst pos]. intros Hcap (Hl & Hp & Ht & _). simpl in *.
  by apply CLOG_APPEND_holds.
Qed.

End Buffer.

(** ** The pipeline of one record *)

Section Pipeline.
Local Open Scope nat_scope.

Lemma holds_app_nil cap txt dp : holds cap txt dp → holds cap (txt ++ []) dp.
Proof. by rewrite app_nil_r. Qed.

Lemma holds_lt cap txt dp : 1 ≤ cap → holds cap txt dp → dp.2 < cap.
Proof. intros Hc (_ & -> & _). rewrite length_kept. lia. Qed.

Lemma bind_Some_with {A B : Type} (P : A → Prop) (Q : B → Prop)
    (m : option A) (f : A → option B) :
  (∃ a, m = Some a ∧ P a) → (∀ a, P a → ∃ b, f a = Some b ∧ Q b) →
  ∃ b, m ≫= f = Some b ∧ Q b.
Proof. intros (a & -> & Ha) Hf. simpl. by apply Hf. Qed.

Lemma clog_write_prefix_holds dst cap lvl file line group env :
  1 ≤ cap → length dst = cap →
  ∃ dp, clog_write_prefix_ dst cap lvl file line group env = Some dp ∧
        holds cap (prefix_text lvl file line group env) dp.
Proof.
  intros Hcap Hlen. unfold clog_write_prefix_, prefix_text, build_text.
  rewrite !app_assoc.
  destruct CLOG_BUILD, CLOG_WITH_TID, group as [g|]; try destruct (deref_nonzero g).
  all: eapply bind_Some_with;
    [ apply (CLOG_APPEND_holds cap [] (timestamp_text env) dst 0);
      [done | done | by unfold kept; rewrite take_nil | by unfold kept; rewrite take_nil]
    | intros dp1 H1; rewrite app_nil_l in H1 ].
  all: repeat (eapply bind_Some_with;
    [ first [ by apply CLOG_APPEND_holds_next
            | eexists; split; [reflexivity | by apply holds_app_nil] ]
    | clear dependent dp1; intros dp1 H1 ]).
  all: pose proof (holds_lt _ _ _ Hcap H1) as Hlt; destruct dp1 as [d p]; simpl in Hlt.
  all: destruct (Nat.leb_spec cap p); [lia|]; eexists; split; [done|]; done.
Qed.

(** The message step behaves as one more bounded append; [truncated] is set
    exactly when the text does not fit, and the cursor is then [cap - 1]. *)
Lemma format_message_holds cap txt msg buf off :
  1 ≤ cap → holds cap txt (buf, off) →
  ∃ buf' off' tr, format_message buf cap off msg = Some (buf', off', tr) ∧
    holds cap (txt ++ msg_text msg) (buf', off') ∧
    tr = (match msg with Text s => cap - off <=? length s | FmtError => false end) ∧
    (tr = true → off' = cap - 1).
Proof.
  intros Hcap Hh. pose proof Hh as (Hlen & Hoff & Htake & _). simpl in Hlen, Hoff, Htake.
  unfold format_message. destruct msg as [s|]; cbn [msg_text].
  - destruct (snprintf_holds cap txt s buf off) as (Hlt & buf' & Hs & Hres); [done..|].
    destruct (Nat.ltb_spec off cap) as [_|]; [|lia].
    cbv zeta. rewrite Hs. cbn [mbind option_bind]. rewrite Nat2Z.id.
    destruct (Z.ltb_spec 0 (Z.of_nat (length s))) as [Hp|Hz].
    + destruct (Nat.leb_spec (cap - off) (length s)) as [Hge|Hl].
      * eexists _, _, _. split; [done|]. split; [|done].
        by replace (off + min (length s) (cap - off - 1)) with (cap - 1) in Hres by lia.
      * eexists _, _, _. split; [done|]. split; [|done].
        by replace (off + min (length s) (cap - off - 1)) with (off + length s) in Hres by lia.
    + destruct (Nat.leb_spec (cap - off) (length s)); [lia|].
      eexists _, _, _. split; [done|]. split; [|done].
      by replace (off + min (length s) (cap - off - 1)) with off in Hres by lia.
  - pose proof (holds_lt _ _ _ Hcap Hh) as Hlt. simpl in Hlt.
    destruct (Nat.ltb_spec off cap) as [_|]; [|lia].
    eexists _, _, _. split; [done|]. split; [by apply holds_app_nil|]. done.
Qed.

(** The marker is stored only when [off + 3 < cap], and a truncated record
    has [off = cap - 1]: the branch is never taken. *)
Lemma append_marker_skips buf cap off tr :
  (tr = true → off = cap - 1) → 1 ≤ cap →
  append_marker buf cap off tr = Some (buf, off).
Proof.
  intros Htr Hcap. unfold append_marker. destruct tr; simpl; [|done].
  rewrite Htr by done. destruct (Nat.ltb_spec (cap - 1 + 3) cap); [lia|done].
Qed.

Lemma ends_with_newline_lookup (l : list ascii) :
  l ≠ [] →
  ∃ c, l !! (length l - 1) = Some c ∧ ends_with_newline l = Ascii.eqb c NL.
Proof.
  intros Hne. unfold ends_with_newline. rewrite last_lookup.
  replace (Init.Nat.pred (length l)) with (length l - 1) by lia.
  destruct (l !! (length l - 1)) as [c|] eqn:E; [by exists c|].
  apply lookup_ge_None in E. destruct l; [done|]. simpl in E. lia.
Qed.

Lemma terminate_line_holds cap txt buf off :
  2 ≤ cap → holds cap txt (buf, off) →
  ∃ buf' off', terminate_line buf cap off = Some (buf', off') ∧
    length buf' = cap ∧ off' = length (line_of cap (kept cap txt)) ∧
    take off' buf' = line_of cap (kept cap txt) ∧ buf' !! off' = Some NUL.
Proof.
  intros Hcap Hh. pose proof (holds_lt cap _ _ ltac:(lia) Hh) as Hlt.
  destruct Hh as (Hlen & Hoff & Htake & Hnul). simpl in *.
  remember (kept cap txt) as content eqn:Hcontent. clear Hcontent.
  assert (∃ needs, (if off =? 0 then Some true
                    else load_byte buf (off - 1) ≫= λ c, Some (negb (Ascii.eqb c NL)))
                   = Some needs ∧ needs = negb (ends_with_newline content))
    as (needs & Hneeds & ->).
  { destruct (Nat.eqb_spec off 0) as [H0|Hn0].
    - exists true. split; [done|].
      destruct content; [done|]. simpl in Hoff. lia.
    - destruct (ends_with_newline_lookup content) as (c & Hc & ->).
      { intros E. rewrite E in Hoff. simpl in Hoff. lia. }
      rewrite <-Hoff in Hc. rewrite <-Htake, lookup_take_lt in Hc by lia.
      unfold load_byte. rewrite Hc. simpl. by eexists. }
  unfold terminate_line. rewrite Hneeds. simpl. unfold line_of.
  destruct (ends_with_newline content); simpl.
  { eexists _, _. split; [done|]. done. }
  rewrite <-Hoff.
  destruct (Nat.ltb_spec (off + 1) cap) as [Hroom|Hfull].
  - destruct (store_bytes buf off [NL]) as [b1|] eqn:E1.
    2:{ rewrite store_bytes_Some in E1 by (simpl; lia). done. }
    pose proof (store_bytes_length _ _ _ _ E1) as L1. simpl.
    destruct (store_bytes b1 (off + 1) [NUL]) as [b2|] eqn:E2.
    2:{ rewrite store_bytes_Some in E2 by (simpl; lia). done. }
    simpl. eexists _, _. split; [done|].
    split; [erewrite store_bytes_length by done; lia|].
    split; [rewrite length_app; simpl; lia|]. split.
    + rewrite (store_bytes_take_le _ _ _ _ _ E2) by lia.
      pose proof (store_bytes_take _ _ _ _ E1) as T. simpl in T. by rewrite T, Htake.
    + pose proof (store_bytes_lookup _ _ _ _ 0 E2) as T. simpl in T.
      rewrite Nat.add_0_r in T. apply T. lia.
  - destruct (Nat.ltb_spec cap 2) as [|_]; [lia|].
    assert (off = cap - 1) as Hoff1 by lia.
    destruct (store_bytes buf (cap - 2) [NL]) as [b1|] eqn:E1.
    2:{ rewrite store_bytes_Some in E1 by (simpl; lia). done. }
    pose proof (store_bytes_length _ _ _ _ E1) as L1. simpl.
    destruct (store_bytes b1 (cap - 1) [NUL]) as [b2|] eqn:E2.
    2:{ rewrite store_bytes_Some in E2 by (simpl; lia). done. }
    simpl. eexists _, _. split; [done|].
    split; [erewrite store_bytes_length by done; lia|].
    split; [rewrite length_app, length_take; simpl; lia|]. split.
    + rewrite (store_bytes_take_le _ _ _ _ _ E2) by lia.
      pose proof (store_bytes_take _ _ _ _ E1) as T. simpl in T.
      replace (cap - 2 + 1) with (cap - 1) in T by lia. rewrite T. f_equal.
      rewrite <-Htake, take_take. f_equal. lia.
    + pose proof (store_bytes_lookup _ _ _ _ 0 E2) as T. simpl in T.
      rewrite Nat.add_0_r in T. apply T. lia.
Qed.

End Pipeline.

(** ** The shape of printed numbers *)

Section Format.
Local Open Scope nat_scope.

Lemma is_digit_digit_char n : is_digit (digit_char n) = true.
Proof.
  unfold is_digit, digit_char.
  assert (0 ≤ n mod 10 < 10)%Z as Hr by (apply Z.mod_pos_bound; lia).
  rewrite nat_ascii_embedding by lia.
  apply andb_true_iff. split; [apply Nat.leb_le|apply Nat.leb_le]; lia.
Qed.

Lemma fixed_digits_length p n : length (fixed_digits p n) = p.
Proof.
  revert n. induction p as [|p IH]; intros n; [done|].
  cbn [fixed_digits]. rewrite length_app, IH. cbn [length]. lia.
Qed.

Lemma fixed_digits_digits p n : forallb is_digit (fixed_digits p n) = true.
Proof.
  revert n. induction p as [|p IH]; intros n; [done|].
  cbn [fixed_digits]. rewrite forallb_app, IH. cbn [forallb].
  by rewrite is_digit_digit_char.
Qed.

Lemma string_of_uint_digits (d : Decimal.uint) :
  forallb is_digit (str (DecimalString.NilEmpty.string_of_uint d)) = true.
Proof. induction d; cbn; try done. Qed.

Lemma string_of_uint_nonempty (d : Decimal.uint) :
  d ≠ Decimal.Nil → str (DecimalString.NilEmpty.string_of_uint d) ≠ [].
Proof. destruct d; cbn; done. Qed.

Lemma fmt_u_whole n : whole_number (fmt_u n).
Proof.
  unfold whole_number, fmt_u, DecimalString.NilZero.string_of_uint.
  destruct (N.to_uint (Z.to_N n)) eqn:E; try done.
  all: split; [by apply string_of_uint_nonempty|by apply string_of_uint_digits].
Qed.

Lemma fmt_fixed_decimal p q : 0 < p → decimal_with p (fmt_fixed p q).
Proof.
  intros Hp. unfold fmt_fixed. destruct (Nat.eqb_spec p 0); [lia|].
  destruct (fmt_u_whole (q / 10 ^ Z.of_nat p)) as [Hne Hd].
  eexists _, _. split; [done|]. split; [done|]. split; [done|].
  split; [apply fixed_digits_digits|apply fixed_digits_length].
Qed.

(** A double that is finite and not negative prints as digits, a point and
    [p] digits. *)
Lemma fmt_f_decimal p x : 0 < p → finite_nonneg x = true → decimal_with p (fmt_f p x).
Proof.
  intros Hp Hx. destruct x as [[]|[]| |[] m e]; try done; cbn [fmt_f app];
    by apply fmt_fixed_decimal.
Qed.

End Format.

(** ** Doubles made from 64-bit counters stay finite

    Coarse bounds on mantissas and exponents are enough: no conversion or
    division of the timer code comes near the infinities of binary64. *)

Section Double.
Local Open Scope Z_scope.

Lemma digits2_pos_le (p : positive) (k : Z) :
  Z.pos p < 2 ^ k → 0 ≤ k → Z.pos (digits2_pos p) ≤ k.
Proof.
  revert k. induction p as [p IH|p IH|]; intros k Hp Hk; cbn [digits2_pos].
  - assert (k ≠ 0) by (intros ->; cbn in Hp; lia).
    replace k with (Z.succ (k - 1)) in Hp by lia. rewrite Z.pow_succ_r in Hp by lia.
    rewrite Pos2Z.inj_succ. specialize (IH (k - 1)). lia.
  - assert (k ≠ 0) by (intros ->; cbn in Hp; lia).
    replace k with (Z.succ (k - 1)) in Hp by lia. rewrite Z.pow_succ_r in Hp by lia.
    rewrite Pos2Z.inj_succ. specialize (IH (k - 1)). lia.
  - assert (k ≠ 0) by (intros ->; cbn in Hp; lia). lia.
Qed.

Lemma Zdigits2_le (m k : Z) : 0 ≤ m < 2 ^ k → 0 ≤ k → Zdigits2 m ≤ k.
Proof.
  intros Hm Hk. destruct m as [|p|p]; cbn [Zdigits2]; [lia| |lia].
  apply digits2_pos_le; lia.
Qed.

Lemma fexp_le (z b : Z) : z ≤ b → fexp 53 1024 z ≤ Z.max (b - 53) (-1074).
Proof. unfold fexp, emin. lia. Qed.

Lemma shr_1_bounds mrs : 0 ≤ shr_m mrs → 0 ≤ shr_m (shr_1 mrs) ≤ shr_m mrs.
Proof. destruct mrs as [m r s]. destruct m as [|[p|p|]|p]; cbn; lia. Qed.

Lemma iter_pos_shr_1_bounds (n : positive) mrs :
  0 ≤ shr_m mrs → 0 ≤ shr_m (SpecFloat.iter_pos shr_1 n mrs) ≤ shr_m mrs.
Proof.
  revert mrs. induction n as [n IH|n IH|]; intros mrs H; cbn [SpecFloat.iter_pos].
  - pose proof (shr_1_bounds mrs H). pose proof (IH (shr_1 mrs) ltac:(lia)).
    pose proof (IH (SpecFloat.iter_pos shr_1 n (shr_1 mrs)) ltac:(lia)). lia.
  - pose proof (IH mrs H). pose proof (IH (SpecFloat.iter_pos shr_1 n mrs) ltac:(lia)). lia.
  - by apply shr_1_bounds.
Qed.

Lemma shr_m_record_of_loc m l : shr_m (shr_record_of_loc m l) = m.
Proof. by destruct l as [|[]]. Qed.

(** One alignment step never raises the mantissa; the exponent becomes the
    larger of the old one and the format's exponent for that magnitude. *)
Lemma shr_fexp_bounds m e l k b :
  0 ≤ m < 2 ^ k → 0 ≤ k → e ≤ b →
  0 ≤ shr_m (shr_fexp 53 1024 m e l).1 ≤ m ∧
  (shr_fexp 53 1024 m e l).2 ≤ Z.max b (Z.max (k + b - 53) (-1074)).
Proof.
  intros Hm Hk He. unfold shr_fexp, shr.
  pose proof (Zdigits2_le m k Hm Hk) as Hd.
  pose proof (fexp_le (Zdigits2 m + e) (k + b) ltac:(lia)) as Hf.
  destruct (fexp 53 1024 (Zdigits2 m + e) - e) as [|n|n] eqn:En; cbn [fst snd].
  - rewrite shr_m_record_of_loc. lia.
  - pose proof (iter_pos_shr_1_bounds n (shr_record_of_loc m l)) as Hi.
    rewrite shr_m_record_of_loc in Hi. lia.
  - rewrite shr_m_record_of_loc. lia.
Qed.

Lemma round_nearest_even_bounds m l :
  0 ≤ m → 0 ≤ round_nearest_even m l ≤ m + 1.
Proof. intros H. destruct l as [|[]]; cbn; try destruct (Z.even m); lia. Qed.

(** Rounding a non-negative mantissa below [2^k] with exponent at most [b]. *)
Lemma binary_round_aux_fin mx ex lx k b :
  0 ≤ mx < 2 ^ k → 0 ≤ k → ex ≤ b → 2 * k + b ≤ 971 → -1074 ≤ b →
  fin_le (k + 1) (2 * k + b) (binary_round_aux 53 1024 false mx ex lx).
Proof.
  intros Hm Hk He Hb Hlow. unfold binary_round_aux.
  destruct (shr_fexp_bounds mx ex lx k b Hm Hk He) as [Hm1 He1].
  destruct (shr_fexp 53 1024 mx ex lx) as [mrs' e']. cbn [fst snd] in Hm1, He1.
  set (m2 := round_nearest_even (shr_m mrs') (loc_of_shr_record mrs')).
  pose proof (round_nearest_even_bounds (shr_m mrs') (loc_of_shr_record mrs')
                ltac:(lia)) as Hr. fold m2 in Hr.
  assert (0 ≤ m2 < 2 ^ (k + 1)) as Hm2.
  { rewrite Z.pow_add_r by lia. lia. }
  destruct (shr_fexp_bounds m2 e' loc_Exact (k + 1) (Z.max b (Z.max (k + b - 53) (-1074)))
              Hm2 ltac:(lia) He1) as [Hm3 He3].
  destruct (shr_fexp 53 1024 m2 e' loc_Exact) as [mrs'' e'']. cbn [fst snd] in Hm3, He3.
  destruct (shr_m mrs'') as [|m|m] eqn:Em; [done| |lia].
  destruct (Z.leb_spec e'' (1024 - 53)); [|lia].
  cbn [fin_le]. split; [done|]. split; lia.
Qed.

Lemma double_of_u64_fin n : 0 ≤ n < 2 ^ 64 → fin_le 117 232 (double_of_u64 n).
Proof.
  intros Hn. unfold double_of_u64, binary_normalize.
  destruct n as [|m|m]; [done| |lia].
  unfold binary_round, shl_align.
  pose proof (digits2_pos_le m 64 ltac:(lia) ltac:(lia)) as Hd.
  assert (-52 ≤ fexp 53 1024 (Z.pos (digits2_pos m) + 0) ≤ 11) as Hf
    by (unfold fexp, emin; lia).
  destruct (fexp 53 1024 (Z.pos (digits2_pos m) + 0) - 0) as [|d|d] eqn:Ed.
  - apply (binary_round_aux_fin (Z.pos m) 0 loc_Exact 116 0); lia.
  - apply (binary_round_aux_fin (Z.pos m) 0 loc_Exact 116 0); lia.
  - change (Pos.iter xO m d) with (shift_pos d m).
    apply (binary_round_aux_fin (Z.pos (shift_pos d m)) _ loc_Exact 116 0); try lia.
    rewrite shift_pos_correct. change (Z.pow_pos 2 d) with (2 ^ Z.pos d).
    assert (Z.pos d ≤ 52) by lia.
    assert (2 ^ Z.pos d ≤ 2 ^ 52) by (apply Z.pow_le_mono_r; lia).
    change (2 ^ 116) with (2 ^ 52 * 2 ^ 64). nia.
Qed.

(** The quotient of such a double by a positive double of at most 53 digits
    and exponent at least [-43] is finite and not negative. *)
Lemma double_div_fin x m2 e2 :
  fin_le 117 232 x → Z.pos m2 < 2 ^ 53 → -43 ≤ e2 →
  finite_nonneg (double_div x (S754_finite false m2 e2)) = true.
Proof.
  intros Hx Hm2 He2. unfold double_div, SFdiv.
  destruct x as [s|s| |s m1 e1]; cbn [fin_le] in Hx; try done; [by subst|].
  destruct Hx as (-> & Hm1 & He1).
  unfold SFdiv_core_binary. cbn [xorb].
  set (d1 := Zdigits2 (Z.pos m1)). set (d2 := Zdigits2 (Z.pos m2)).
  assert (1 ≤ d1 ≤ 117) as Hd1.
  { unfold d1. pose proof (Zdigits2_le (Z.pos m1) 117 ltac:(lia) ltac:(lia)).
    cbn [Zdigits2] in *. lia. }
  assert (1 ≤ d2 ≤ 53) as Hd2.
  { unfold d2. pose proof (Zdigits2_le (Z.pos m2) 53 ltac:(lia) ltac:(lia)).
    cbn [Zdigits2] in *. lia. }
  set (e' := Z.min (fexp 53 1024 (d1 + e1 - (d2 + e2))) (e1 - e2)).
  assert (e1 - e2 - 105 ≤ e' ≤ e1 - e2) as He'.
  { unfold e', fexp, emin. lia. }
  set (s := e1 - e2 - e').
  set (m' := match s with
             | 0 => Z.pos m1
             | Z.pos _ => Z.shiftl (Z.pos m1) s
             | Z.neg _ => 0
             end).
  assert (0 ≤ m' < 2 ^ 222) as Hm'.
  { assert (0 ≤ s ≤ 105) as Hs by (unfold s; lia).
    assert (m' = Z.pos m1 * 2 ^ s) as ->.
    { unfold m'. destruct s as [|p|p] eqn:Es; [lia| |lia].
      apply Z.shiftl_mul_pow2. lia. }
    assert (0 < 2 ^ s ≤ 2 ^ 105) by (split; [lia|apply Z.pow_le_mono_r; lia]).
    change (2 ^ 222) with (2 ^ 117 * 2 ^ 105). nia. }
  pose proof (Z.div_eucl_eq m' (Z.pos m2) ltac:(lia)) as Heq.
  pose proof (Z.mod_pos_bound m' (Z.pos m2) ltac:(lia)) as Hmod.
  unfold Z.modulo in Hmod.
  destruct (Z.div_eucl m' (Z.pos m2)) as [q r].
  assert (0 ≤ q < 2 ^ 222) as Hq by nia.
  pose proof (binary_round_aux_fin q e' (new_location (Z.pos m2) r) 222 275 Hq
                ltac:(lia) ltac:(lia) ltac:(lia) ltac:(lia)) as Hfin.
  destruct (binary_round_aux 53 1024 false q e' (new_location (Z.pos m2) r))
    as [sz|sz| |sz mz ez]; cbn [fin_le] in Hfin; try done.
  - by subst.
  - by destruct Hfin as [-> _].
Qed.

(** The elapsed time divided by [1e3], [1e6] or [1e9]. *)
Lemma timer_double_fin dt c :
  0 ≤ dt < 2 ^ 64 → c = 1000 ∨ c = 1000000 ∨ c = 1000000000 →
  finite_nonneg (double_div (double_of_u64 dt) (double_of_u64 c)) = true.
Proof.
  intros Hdt Hc. pose proof (double_of_u64_fin dt Hdt) as Hx.
  destruct Hc as [->|[->| ->]].
  - change (double_of_u64 1000) with (S754_finite false 8796093022208000 (-43)).
    apply double_div_fin; [done| |]; lia.
  - change (double_of_u64 1000000) with (S754_finite false 8589934592000000 (-33)).
    apply double_div_fin; [done| |]; lia.
  - change (double_of_u64 1000000000) with (S754_finite false 8388608000000000 (-23)).
    apply double_div_fin; [done| |]; lia.
Qed.

End Double.

(** ** Decimal text of [%u] and [%0wd] *)

Section DecimalText.
Local Open Scope N_scope.

Lemma str_append (a b : string) : str (a ++ b) = (str a ++ str b)%list.
Proof.
  induction a as [|c a IH]; [done|].
  change (c :: str (a ++ b) = c :: (str a ++ str b)%list). by rewrite IH.
Qed.

Lemma string_of_revapp (d acc : Decimal.uint) :
  str (DecimalString.NilEmpty.string_of_uint (Decimal.revapp d acc))
  = (str (DecimalString.NilEmpty.string_of_uint (Decimal.rev d))
       ++ str (DecimalString.NilEmpty.string_of_uint acc))%list.
Proof.
  revert acc. unfold Decimal.rev.
  induction d as [|d IH|d IH|d IH|d IH|d IH|d IH|d IH|d IH|d IH|d IH]; intros acc;
    [done|cbn [Decimal.revapp]; rewrite IH, (IH (_ Decimal.Nil));
          by rewrite <-app_assoc..].
Qed.

Lemma to_uint_rev (n : N) : N.to_uint n = Decimal.rev (DecimalPos.Unsigned.to_lu n).
Proof. by destruct n. Qed.

Lemma of_to_lu (n : N) : DecimalPos.Unsigned.of_lu (DecimalPos.Unsigned.to_lu n) = n.
Proof.
  destruct n as [|p]; [done|]. cbn [DecimalPos.Unsigned.to_lu].
  rewrite <-DecimalPos.Unsigned.of_lu_rev. apply DecimalPos.Unsigned.of_to.
Qed.

(** A positive number has a little-endian form without trailing zeros. *)
Lemma nztail_to_lu (q : N) :
  0 < q → DecimalFacts.nztail (DecimalPos.Unsigned.to_lu q) = DecimalPos.Unsigned.to_lu q ∧
          DecimalPos.Unsigned.to_lu q ≠ Decimal.Nil.
Proof.
  intros Hq. set (lq := DecimalPos.Unsigned.to_lu q).
  assert (DecimalFacts.nztail lq ≠ Decimal.Nil) as Hnz.
  { intros E. apply DecimalPos.Unsigned.of_lu_0 in E. unfold lq in E.
    rewrite of_to_lu in E. lia. }
  assert (DecimalFacts.lnorm lq = lq) as Hl.
  { rewrite <-DecimalPos.Unsigned.to_of_lu. unfold lq. by rewrite of_to_lu. }
  unfold DecimalFacts.lnorm in Hl. split.
  - by destruct (DecimalFacts.nztail lq).
  - intros E. by rewrite E in Hnz.
Qed.

Lemma to_lu_cons (q : N) (lr : Decimal.uint → Decimal.uint) (r : N) :
  0 < q →
  (∀ d, DecimalPos.Unsigned.of_lu (lr d) = r + 10 * DecimalPos.Unsigned.of_lu d) →
  (∀ d, DecimalFacts.nztail d = d → d ≠ Decimal.Nil → DecimalFacts.nztail (lr d) = lr d) →
  (∀ d, lr d ≠ Decimal.Nil) →
  DecimalPos.Unsigned.to_lu (r + 10 * q) = lr (DecimalPos.Unsigned.to_lu q).
Proof.
  intros Hq Hof Hnz Hnil. destruct (nztail_to_lu q Hq) as [Ht Hn].
  rewrite <-(of_to_lu q) at 1. rewrite <-Hof, DecimalPos.Unsigned.to_of_lu.
  unfold DecimalFacts.lnorm. rewrite Hnz by done.
  specialize (Hnil (DecimalPos.Unsigned.to_lu q)).
  by destruct (lr (DecimalPos.Unsigned.to_lu q)).
Qed.

End DecimalText.

Section ZeroPadding.
Local Open Scope Z_scope.

Lemma string_of_uint_nonnil (d : Decimal.uint) :
  d ≠ Decimal.Nil →
  DecimalString.NilZero.string_of_uint d = DecimalString.NilEmpty.string_of_uint d.
Proof. by destruct d. Qed.

Lemma fmt_u_digit v : 0 ≤ v < 10 → fmt_u v = [digit_char v].
Proof.
  intros Hv.
  assert (v = 0 ∨ v = 1 ∨ v = 2 ∨ v = 3 ∨ v = 4 ∨ v = 5 ∨ v = 6 ∨ v = 7 ∨ v = 8 ∨ v = 9)
    as Hc by lia.
  repeat (destruct Hc as [->|Hc]; [reflexivity|]). by subst v.
Qed.

Lemma fmt_u_cons (q : Z) (lr : Decimal.uint → Decimal.uint) (r : Z) :
  0 < q → 0 ≤ r →
  (∀ d, DecimalPos.Unsigned.of_lu (lr d)
        = (Z.to_N r + 10 * DecimalPos.Unsigned.of_lu d)%N) →
  (∀ d, DecimalFacts.nztail d = d → d ≠ Decimal.Nil → DecimalFacts.nztail (lr d) = lr d) →
  (∀ d, lr d ≠ Decimal.Nil) →
  (∀ d, Decimal.rev (lr d) = Decimal.revapp d (lr Decimal.Nil)) →
  fmt_u (10 * q + r)
  = fmt_u q ++ str (DecimalString.NilEmpty.string_of_uint (lr Decimal.Nil)).
Proof.
  intros Hq Hr Hof Hnz Hnil Hrev. unfold fmt_u.
  replace (Z.to_N (10 * q + r)) with (Z.to_N r + 10 * Z.to_N q)%N by lia.
  destruct (nztail_to_lu (Z.to_N q)) as [_ Hn]; [lia|].
  rewrite !to_uint_rev, (to_lu_cons (Z.to_N q) lr (Z.to_N r)) by (done || lia).
  rewrite Hrev, !string_of_uint_nonnil.
  - apply string_of_revapp.
  - intros E. by apply DecimalFacts.rev_nil_inv in E.
  - intros E. apply DecimalFacts.revapp_nil_inv in E as [_ E]. by apply Hnil in E.
Qed.

Lemma fmt_u_step q r : 0 < q → 0 ≤ r < 10 → fmt_u (10 * q + r) = fmt_u q ++ [digit_char r].
Proof.
  intros Hq Hr.
  assert (r = 0 ∨ r = 1 ∨ r = 2 ∨ r = 3 ∨ r = 4 ∨ r = 5 ∨ r = 6 ∨ r = 7 ∨ r = 8 ∨ r = 9)
    as Hc by lia.
  assert (∀ d, DecimalFacts.nztail d = d → d ≠ Decimal.Nil →
               DecimalFacts.nztail (Decimal.D0 d) = Decimal.D0 d) as H0.
  { intros d Hd Hn. cbn [DecimalFacts.nztail]. rewrite Hd. by destruct d. }
  destruct Hc as [->|[->|[->|[->|[->|[->|[->|[->|[->| ->]]]]]]]]].
  - by apply (fmt_u_cons q Decimal.D0 0).
  - apply (fmt_u_cons q Decimal.D1 1); try done. intros d Hd _. cbn. by rewrite Hd.
  - apply (fmt_u_cons q Decimal.D2 2); try done. intros d Hd _. cbn. by rewrite Hd.
  - apply (fmt_u_cons q Decimal.D3 3); try done. intros d Hd _. cbn. by rewrite Hd.
  - apply (fmt_u_cons q Decimal.D4 4); try done. intros d Hd _. cbn. by rewrite Hd.
  - apply (fmt_u_cons q Decimal.D5 5); try done. intros d Hd _. cbn. by rewrite Hd.
  - apply (fmt_u_cons q Decimal.D6 6); try done. intros d Hd _. cbn. by rewrite Hd.
  - apply (fmt_u_cons q Decimal.D7 7); try done. intros d Hd _. cbn. by rewrite Hd.
  - apply (fmt_u_cons q Decimal.D8 8); try done. intros d Hd _. cbn. by rewrite Hd.
  - apply (fmt_u_cons q Decimal.D9 9); try done. intros d Hd _. cbn. by rewrite Hd.
Qed.

Lemma fixed_digits_0 w : fixed_digits w 0 = zeros w.
Proof.
  induction w as [|w IH]; [done|].
  cbn [fixed_digits]. change (0 / 10) with 0. rewrite IH.
  unfold zeros. by rewrite <-repeat_cons.
Qed.

Lemma digit_char_mod v : digit_char (v mod 10) = digit_char v.
Proof. unfold digit_char. by rewrite Z.mod_mod. Qed.

Lemma fmt_u_padded w : ∀ v,
  0 ≤ v < 10 ^ Z.of_nat (S w) →
  zeros (S w - length (fmt_u v)) ++ fmt_u v = fixed_digits (S w) v.
Proof.
  induction w as [|w IH]; intros v Hv.
  - rewrite fmt_u_digit by (change (10 ^ Z.of_nat 1) with 10 in Hv; lia). done.
  - destruct (Z.lt_ge_cases v 10) as [Hlt|Hge].
    + rewrite fmt_u_digit by lia. cbn [length].
      change (fixed_digits (S (S w)) v) with (fixed_digits (S w) (v / 10) ++ [digit_char v]).
      rewrite (Z.div_small v 10) by lia.
      rewrite fixed_digits_0. by replace (S (S w) - 1)%nat with (S w) by lia.
    + pose proof (Z.div_mod v 10 ltac:(lia)) as Hdm.
      pose proof (Z.mod_pos_bound v 10 ltac:(lia)) as Hm.
      assert (0 < v / 10) as Hq by (apply Z.div_str_pos; lia).
      assert (v / 10 < 10 ^ Z.of_nat (S w)) as Hqw.
      { apply Z.div_lt_upper_bound; [lia|].
        replace (Z.of_nat (S (S w))) with (Z.succ (Z.of_nat (S w))) in Hv by lia.
        rewrite Z.pow_succ_r in Hv by lia. lia. }
      change (fixed_digits (S (S w)) v) with (fixed_digits (S w) (v / 10) ++ [digit_char v]).
      rewrite Hdm at 1 2. rewrite fmt_u_step by done.
      rewrite length_app. cbn [length].
      replace (S (S w) - (length (fmt_u (v / 10)) + 1))%nat
        with (S w - length (fmt_u (v / 10)))%nat by lia.
      rewrite app_assoc, IH by lia.
      rewrite digit_char_mod. done.
Qed.

(** [%0wd] of a value that fits the field: exactly [w] digits. *)
Lemma fmt_0d_fixed (w : nat) (v : Z) :
  (1 ≤ w)%nat → 0 ≤ v < 10 ^ Z.of_nat w → fmt_0d w v = fixed_digits w v.
Proof.
  intros Hw Hv. destruct w as [|w]; [lia|].
  unfold fmt_0d. destruct (Z.ltb_spec v 0); [lia|].
  rewrite Z.abs_eq by lia. cbn [length app]. rewrite Nat.sub_0_r.
  by apply fmt_u_padded.
Qed.

End ZeroPadding.

(** ** What one call of [clog_emit_] does *)

Section Emit.
Local Open Scope nat_scope.

Lemma CLOG_LINE_MAX_ge : 2 ≤ CLOG_LINE_MAX.
Proof. unfold CLOG_LINE_MAX. lia. Qed.

Lemma add_events_app st es1 es2 :
  add_events (add_events st es1) es2 = add_events st (es1 ++ es2).
Proof. unfold add_events. simpl. by rewrite app_assoc. Qed.

Lemma clog_emit_below lvl file line group msg env st :
  (level_int lvl < g_lvl st)%Z → clog_emit_ lvl file line group msg env st = Some st.
Proof.
  intros H. unfold clog_emit_. destruct (Z.ltb_spec (level_int lvl) (g_lvl st)); [done|lia].
Qed.

Lemma last_line_of cap content : last (line_of cap content) = Some NL.
Proof.
  unfold line_of. destruct (ends_with_newline content) eqn:E.
  - unfold ends_with_newline in E. destruct (last content) as [c|]; [|done].
    apply Ascii.eqb_eq in E. by subst.
  - destruct (_ <? _); apply last_snoc.
Qed.

Lemma length_line_of cap content :
  2 ≤ cap → length content ≤ cap - 1 → 1 ≤ length (line_of cap content) ≤ cap - 1.
Proof.
  intros Hcap Hc. unfold line_of. destruct (ends_with_newline content) eqn:E.
  - destruct content; [done|]. simpl in *. lia.
  - destruct (Nat.ltb_spec (length content + 1) cap);
      rewrite length_app, ?length_take; simpl; lia.
Qed.

Lemma length_content_of lvl file line group msg env :
  length (content_of lvl file line group msg env) ≤ CLOG_LINE_MAX - 1.
Proof. unfold content_of. rewrite length_kept. lia. Qed.

(** The three composing stages on a buffer of the declared size: what the
    buffer holds below the cursor when newline normalisation starts is
    [content_of], the flag [truncated] is set exactly when the message does
    not fit after the prefix, and the marker stage changes nothing. *)
Lemma clog_emit_stages lvl file line group msg env buf :
  length buf = CLOG_LINE_MAX →
  ∃ b1 o1 b2 o2 tr,
    clog_write_prefix_ buf CLOG_LINE_MAX lvl file line group env = Some (b1, o1) ∧
    format_message b1 CLOG_LINE_MAX o1 msg = Some (b2, o2, tr) ∧
    append_marker b2 CLOG_LINE_MAX o2 tr = Some (b2, o2) ∧
    o1 = length (kept CLOG_LINE_MAX (prefix_text lvl file line group env)) ∧
    tr = (match msg with
          | Text s => CLOG_LINE_MAX - o1 <=? length s
          | FmtError => false
          end) ∧
    (tr = true → o2 = CLOG_LINE_MAX - 1) ∧
    o2 < CLOG_LINE_MAX ∧
    take o2 b2 = content_of lvl file line group msg env.
Proof.
  intros Hlen. pose proof CLOG_LINE_MAX_ge as Hcap.
  destruct (clog_write_prefix_holds buf CLOG_LINE_MAX lvl file line group env)
    as ([b1 o1] & Hp & H1); [lia|done|].
  destruct (format_message_holds CLOG_LINE_MAX _ msg b1 o1 ltac:(lia) H1)
    as (b2 & o2 & tr & Hf & H2 & Htr & Hfull).
  exists b1, o1, b2, o2, tr. split; [done|]. split; [done|].
  split; [apply append_marker_skips; [done|lia]|].
  split; [by destruct H1 as (_ & ? & _)|]. split; [done|]. split; [done|].
  split; [apply (holds_lt CLOG_LINE_MAX _ _ ltac:(lia) H2)|].
  by destruct H2 as (_ & _ & ? & _).
Qed.

(** At or above the threshold the call composes the record in the buffer,
    hands exactly [line_of (content_of ...)] to the descriptor under the lock,
    and leaves the buffer NUL-terminated after the record. *)
Lemma clog_emit_writes lvl file line group msg env st :
  length (g_buf st) = CLOG_LINE_MAX → (g_lvl st ≤ level_int lvl)%Z →
  let rec := line_of CLOG_LINE_MAX (content_of lvl file line group msg env) in
  ∃ buf', clog_emit_ lvl file line group msg env st
            = Some (add_events (set_buf st buf') (emission lvl (g_fd st) rec)) ∧
          length buf' = CLOG_LINE_MAX ∧ take (length rec) buf' = rec ∧
          buf' !! length rec = Some NUL.
Proof.
  intros Hlen Hlvl rec. pose proof CLOG_LINE_MAX_ge as Hcap.
  unfold clog_emit_. destruct (Z.ltb_spec (level_int lvl) (g_lvl st)); [lia|].
  cbv zeta.
  destruct (clog_write_prefix_holds (g_buf st) CLOG_LINE_MAX lvl file line group env)
    as ([b1 o1] & -> & H1); [lia|done|].
  cbn [mbind option_bind].
  destruct (format_message_holds CLOG_LINE_MAX _ msg b1 o1 ltac:(lia) H1)
    as (b2 & o2 & tr & -> & H2 & _ & Htr).
  cbn [mbind option_bind].
  rewrite append_marker_skips by (done || lia).
  cbn [mbind option_bind].
  destruct (terminate_line_holds CLOG_LINE_MAX _ b2 o2 Hcap H2)
    as (b3 & o3 & -> & Hl3 & Ho3 & Ht3 & Hn3).
  cbn [mbind option_bind].
  fold (content_of lvl file line group msg env) in Ho3, Ht3. fold rec in Ho3, Ht3.
  pose proof (length_line_of CLOG_LINE_MAX _ Hcap
                (length_content_of lvl file line group msg env)) as Hrec.
  fold rec in Hrec.
  unfold clog_write_all_. rewrite decide_True by lia.
  cbn [mbind option_bind]. rewrite Ht3.
  exists b3. subst o3. split; [|done].
  unfold emission. destruct (clog_level_eqb lvl CLOG_FATAL).
  - by rewrite add_events_app.
  - by rewrite app_nil_r.
Qed.

(** The buffer keeps its size across a call: the state stays well formed. *)
Lemma clog_emit_wf lvl file line group msg env st :
  wf_state st →
  ∃ st', clog_emit_ lvl file line group msg env st = Some st' ∧ wf_state st' ∧
         g_timers st' = g_timers st ∧ g_lvl st' = g_lvl st ∧ g_fd st' = g_fd st.
Proof.
  intros [Hb Ht].
  destruct (Z.lt_ge_cases (level_int lvl) (g_lvl st)) as [Hlt|Hge].
  - rewrite clog_emit_below by done. by eexists.
  - destruct (clog_emit_writes lvl file line group msg env st Hb ltac:(lia))
      as (buf' & -> & Hl & _). eexists. split; [done|]. done.
Qed.

End Emit.

(** ** The scans of the timer table *)

Section Scan.
Local Open Scope nat_scope.

Lemma find_seq_Some (p : nat → bool) a n i :
  find p (seq a n) = Some i →
  a ≤ i < a + n ∧ p i = true ∧ ∀ j, a ≤ j < i → p j = false.
Proof.
  revert a. induction n as [|n IH]; intros a; simpl; [done|].
  destruct (p a) eqn:E.
  - intros [= <-]. split; [lia|]. split; [done|]. intros j Hj. lia.
  - intros H. destruct (IH _ H) as (Hr & Hp & Hfirst).
    split; [lia|]. split; [done|]. intros j Hj.
    destruct (decide (j = a)) as [->|]; [done|]. apply Hfirst. lia.
Qed.

Lemma find_seq_None (p : nat → bool) a n :
  find p (seq a n) = None → ∀ j, a ≤ j < a + n → p j = false.
Proof.
  revert a. induction n as [|n IH]; intros a; simpl; [intros _ j Hj; lia|].
  destruct (p a) eqn:E; [done|]. intros H j Hj.
  destruct (decide (j = a)) as [->|]; [done|]. apply (IH _ H). lia.
Qed.

Lemma find_seq_first (p : nat → bool) a n i :
  a ≤ i < a + n → p i = true → (∀ j, a ≤ j < i → p j = false) →
  find p (seq a n) = Some i.
Proof.
  intros Hr Hp Hfirst.
  destruct (find p (seq a n)) as [i'|] eqn:E.
  - destruct (find_seq_Some _ _ _ _ E) as (Hr' & Hp' & Hfirst').
    destruct (Nat.lt_trichotomy i i') as [Hlt|[->|Hgt]]; [|done|].
    + rewrite Hfirst' in Hp by lia. done.
    + rewrite Hfirst in Hp' by lia. done.
  - rewrite (find_seq_None _ _ _ E) in Hp by lia. done.
Qed.

(** The result of either scan is [-1] or an index of the table. *)
Lemma clog_timer_find_slot_hit tbl k i :
  clog_timer_find_slot_ tbl k = Z.of_nat i →
  i < CLOG_TIMERS_MAX ∧
  (∃ s, tbl !! i = Some s ∧ used s = true ∧ key s = k) ∧
  ∀ j, j < i → slot_matches tbl k j = false.
Proof.
  unfold clog_timer_find_slot_.
  destruct (find _ _) as [i'|] eqn:E; [|lia].
  intros Hi. apply Nat2Z.inj in Hi. subst i'.
  destruct (find_seq_Some _ _ _ _ E) as (Hr & Hp & Hfirst).
  split; [lia|]. split; [|intros j Hj; apply Hfirst; lia].
  unfold slot_matches in Hp. destruct (tbl !! i) as [s|]; [|done].
  apply andb_true_iff in Hp as [Hu Hk]. apply Z.eqb_eq in Hk. by exists s.
Qed.

Lemma clog_timer_find_slot_miss tbl k :
  clog_timer_find_slot_ tbl k = (-1)%Z →
  ∀ j, j < CLOG_TIMERS_MAX → slot_matches tbl k j = false.
Proof.
  unfold clog_timer_find_slot_.
  destruct (find _ _) as [i'|] eqn:E; [lia|].
  intros _ j Hj. apply (find_seq_None _ _ _ E). lia.
Qed.

Lemma clog_timer_find_slot_cases tbl k :
  clog_timer_find_slot_ tbl k = (-1)%Z ∨
  ∃ i, clog_timer_find_slot_ tbl k = Z.of_nat i.
Proof.
  unfold clog_timer_find_slot_. destruct (find _ _) as [i|]; [right; by exists i|by left].
Qed.

Lemma clog_timer_free_slot_hit tbl i :
  clog_timer_free_slot_ tbl = Z.of_nat i →
  i < CLOG_TIMERS_MAX ∧ (∃ s, tbl !! i = Some s ∧ used s = false) ∧
  ∀ j, j < i → slot_unused tbl j = false.
Proof.
  unfold clog_timer_free_slot_.
  destruct (find _ _) as [i'|] eqn:E; [|lia].
  intros Hi. apply Nat2Z.inj in Hi. subst i'.
  destruct (find_seq_Some _ _ _ _ E) as (Hr & Hp & Hfirst).
  split; [lia|]. split; [|intros j Hj; apply Hfirst; lia].
  unfold slot_unused in Hp. destruct (tbl !! i) as [s|]; [|done].
  apply negb_true_iff in Hp. by exists s.
Qed.

Lemma clog_timer_free_slot_miss tbl :
  clog_timer_free_slot_ tbl = (-1)%Z →
  ∀ j, j < CLOG_TIMERS_MAX → slot_unused tbl j = false.
Proof.
  unfold clog_timer_free_slot_.
  destruct (find _ _) as [i'|] eqn:E; [lia|].
  intros _ j Hj. apply (find_seq_None _ _ _ E). lia.
Qed.

Lemma clog_timer_free_slot_cases tbl :
  clog_timer_free_slot_ tbl = (-1)%Z ∨ ∃ i, clog_timer_free_slot_ tbl = Z.of_nat i.
Proof.
  unfold clog_timer_free_slot_. destruct (find _ _) as [i|]; [right; by exists i|by left].
Qed.

(** A used slot with the key makes the scan succeed, at the first such slot. *)
Lemma clog_timer_find_slot_present tbl k :
  length tbl = CLOG_TIMERS_MAX →
  (∃ s, s ∈ tbl ∧ used s = true ∧ key s = k) →
  ∃ i s, clog_timer_find_slot_ tbl k = Z.of_nat i ∧ tbl !! i = Some s ∧
         used s = true ∧ key s = k.
Proof.
  intros Hlen (s & Hin & Hu & Hk).
  destruct (clog_timer_find_slot_cases tbl k) as [Hmiss|[i Hi]].
  - apply list_elem_of_lookup in Hin as [j Hj].
    pose proof (lookup_lt_Some _ _ _ Hj) as Hlt.
    pose proof (clog_timer_find_slot_miss _ _ Hmiss j ltac:(lia)) as Hm.
    unfold slot_matches in Hm. rewrite Hj, Hu in Hm. simpl in Hm.
    apply Z.eqb_neq in Hm. done.
  - destruct (clog_timer_find_slot_hit _ _ _ Hi) as (_ & (s' & Hs' & Hu' & Hk') & _).
    by exists i, s'.
Qed.

(** No used slot with the key makes it fail. *)
Lemma clog_timer_find_slot_absent tbl k :
  (∀ s, s ∈ tbl → used s = true → key s ≠ k) →
  clog_timer_find_slot_ tbl k = (-1)%Z.
Proof.
  intros Habs.
  destruct (clog_timer_find_slot_cases tbl k) as [Hmiss|[i Hi]]; [done|].
  destruct (clog_timer_find_slot_hit _ _ _ Hi) as (_ & (s & Hs & Hu & Hk) & _).
  exfalso. eapply Habs; [|done..]. apply list_elem_of_lookup. by exists i.
Qed.

Lemma occupied_le tbl : occupied tbl ≤ length tbl.
Proof. unfold occupied. apply length_filter. Qed.

Lemma occupied_full tbl i s :
  occupied tbl = length tbl → tbl !! i = Some s → used s = true.
Proof.
  unfold occupied. revert i. induction tbl as [|x tbl IH]; intros i; [done|].
  rewrite filter_cons. pose proof (length_filter (λ s, used s = true) tbl) as Hle.
  case_decide as Hx; simpl; intros Hlen.
  - destruct i; simpl; [by intros [= <-]|]. apply IH. lia.
  - lia.
Qed.

Lemma clog_timer_free_slot_full tbl :
  occupied tbl = length tbl → clog_timer_free_slot_ tbl = (-1)%Z.
Proof.
  intros Hfull.
  destruct (clog_timer_free_slot_cases tbl) as [|[i Hi]]; [done|].
  destruct (clog_timer_free_slot_hit _ _ Hi) as (_ & (s & Hs & Hu) & _).
  rewrite (occupied_full _ _ _ Hfull Hs) in Hu. done.
Qed.

Lemma occupied_insert tbl i s s' :
  tbl !! i = Some s →
  occupied (<[i := s']> tbl) + (if used s then 1 else 0)
    = occupied tbl + (if used s' then 1 else 0).
Proof.
  unfold occupied. revert i. induction tbl as [|x tbl IH]; intros i; [done|].
  destruct i; simpl.
  - intros [= ->]. rewrite !filter_cons.
    destruct (used s) eqn:Es, (used s') eqn:Es'; repeat case_decide; simpl; try done; lia.
  - intros H. specialize (IH _ H). rewrite !filter_cons.
    case_decide; simpl; lia.
Qed.

(** An unused slot makes the free-slot scan succeed. *)
Lemma clog_timer_free_slot_present tbl :
  length tbl = CLOG_TIMERS_MAX → (∃ s, s ∈ tbl ∧ used s = false) →
  ∃ i s, clog_timer_free_slot_ tbl = Z.of_nat i ∧ tbl !! i = Some s ∧ used s = false.
Proof.
  intros Hlen (s & Hin & Hu).
  destruct (clog_timer_free_slot_cases tbl) as [Hmiss|[i Hi]].
  - apply list_elem_of_lookup in Hin as [j Hj].
    pose proof (lookup_lt_Some _ _ _ Hj) as Hlt.
    pose proof (clog_timer_free_slot_miss _ Hmiss j ltac:(lia)) as Hm.
    unfold slot_unused in Hm. rewrite Hj, Hu in Hm. done.
  - destruct (clog_timer_free_slot_hit _ _ Hi) as (_ & (s' & Hs' & Hu') & _).
    by exists i, s'.
Qed.

Lemma clog_hash64_loop_fold s h :
  clog_hash64_loop s h = fold_left fnv1a_step (c_str s) h.
Proof.
  revert h. induction s as [|c s IH]; intros h; [done|].
  cbn [clog_hash64_loop c_str]. destruct (Ascii.eqb c NUL); [done|].
  cbn [fold_left]. by rewrite IH.
Qed.

End Scan.

(** ** Starting and ending a timer *)

Section TimerOps.
Local Open Scope nat_scope.

Lemma clogp_timer_start_hit file line label env st i :
  clog_timer_find_slot_ (g_timers st) (clog_hash64_ label) = Z.of_nat i →
  clogp_timer_start_ file line label env st
    = Some (set_timers st (<[i := started (clog_hash64_ label) (now_ns env)]> (g_timers st))).
Proof.
  intros H. unfold clogp_timer_start_. cbv zeta. rewrite H.
  destruct (Z.ltb_spec (Z.of_nat i) 0); [lia|].
  destruct (Z.leb_spec 0 (Z.of_nat i)); [|lia].
  by rewrite Nat2Z.id.
Qed.

Lemma clogp_timer_start_alloc file line label env st i :
  clog_timer_find_slot_ (g_timers st) (clog_hash64_ label) = (-1)%Z →
  clog_timer_free_slot_ (g_timers st) = Z.of_nat i →
  clogp_timer_start_ file line label env st
    = Some (set_timers st (<[i := started (clog_hash64_ label) (now_ns env)]> (g_timers st))).
Proof.
  intros H1 H2. unfold clogp_timer_start_. cbv zeta. rewrite H1. cbn [Z.ltb Z.compare].
  rewrite H2. destruct (Z.leb_spec 0 (Z.of_nat i)); [|lia].
  by rewrite Nat2Z.id.
Qed.

Lemma clogp_timer_start_full file line label env st :
  clog_timer_find_slot_ (g_timers st) (clog_hash64_ label) = (-1)%Z →
  clog_timer_free_slot_ (g_timers st) = (-1)%Z →
  clogp_timer_start_ file line label env st
    = clog_log_file_line_ CLOG_WARN file line (Some "timer"%string)
        (Text no_free_slots_text) env st.
Proof.
  intros H1 H2. unfold clogp_timer_start_. cbv zeta. rewrite H1. cbn [Z.ltb Z.compare].
  by rewrite H2.
Qed.

Lemma clogp_timer_end_miss file line label env st :
  clog_timer_find_slot_ (g_timers st) (clog_hash64_ label) = (-1)%Z →
  clogp_timer_end_ file line label env st
    = clog_log_file_line_ CLOG_WARN file line (Some "timer"%string)
        (Text (unknown_label_text label)) env st.
Proof. intros H. unfold clogp_timer_end_. cbv zeta. by rewrite H. Qed.

(** A hit: the slot is released first, then the report goes through the
    logging pipeline at Debug level, whatever the tier. *)
Lemma clogp_timer_end_hit file line label env st i s :
  clog_timer_find_slot_ (g_timers st) (clog_hash64_ label) = Z.of_nat i →
  g_timers st !! i = Some s →
  clogp_timer_end_ file line label env st
    = clog_log_file_line_ CLOG_DEBUG file line (Some "timer"%string)
        (Text (timer_report_text ((now_ns env - t0 s) mod U64) label)) env
        (set_timers st (<[i := released s]> (g_timers st))).
Proof.
  intros H Hs. unfold clogp_timer_end_. cbv zeta. rewrite H.
  destruct (Z.ltb_spec (Z.of_nat i) 0); [lia|].
  rewrite Nat2Z.id, Hs. cbn [mbind option_bind].
  unfold timer_report_text, elapsed_text, released,
    CLOG_TIMER_NS_MAX, CLOG_TIMER_US_MAX, CLOG_TIMER_MS_MAX, d1e3, d1e6, d1e9.
  set (dt := ((now_ns env - t0 s) mod U64)%Z).
  destruct (dt <? 1000)%Z; [rewrite <-!app_assoc; reflexivity|].
  destruct (dt <? 1000000)%Z; [rewrite <-!app_assoc; reflexivity|].
  destruct (dt <? 1000000000)%Z; rewrite <-!app_assoc; reflexivity.
Qed.

(** The scan after a store at the slot the scan had found. *)
Lemma clog_timer_find_slot_insert tbl k i s' :
  clog_timer_find_slot_ tbl k = Z.of_nat i → used s' = true → key s' = k →
  clog_timer_find_slot_ (<[i := s']> tbl) k = Z.of_nat i.
Proof.
  intros H Hu Hk.
  destruct (clog_timer_find_slot_hit _ _ _ H) as (Hlt & (s & Hs & _) & Hfirst).
  unfold clog_timer_find_slot_.
  rewrite (find_seq_first _ 0 CLOG_TIMERS_MAX i); [done|lia| |].
  - unfold slot_matches. rewrite list_lookup_insert_eq by (by eapply lookup_lt_Some).
    rewrite Hu, Hk, Z.eqb_refl. done.
  - intros j Hj. unfold slot_matches. rewrite list_lookup_insert_ne by lia.
    apply Hfirst. lia.
Qed.

(** The scan after a store at the first free slot, for a key no used slot had. *)
Lemma clog_timer_find_slot_alloc tbl k i s' :
  clog_timer_find_slot_ tbl k = (-1)%Z → clog_timer_free_slot_ tbl = Z.of_nat i →
  used s' = true → key s' = k →
  clog_timer_find_slot_ (<[i := s']> tbl) k = Z.of_nat i.
Proof.
  intros Hmiss Hfree Hu Hk.
  destruct (clog_timer_free_slot_hit _ _ Hfree) as (Hlt & (s & Hs & _) & _).
  unfold clog_timer_find_slot_.
  rewrite (find_seq_first _ 0 CLOG_TIMERS_MAX i); [done|lia| |].
  - unfold slot_matches. rewrite list_lookup_insert_eq by (by eapply lookup_lt_Some).
    rewrite Hu, Hk, Z.eqb_refl. done.
  - intros j Hj. unfold slot_matches. rewrite list_lookup_insert_ne by lia.
    apply (clog_timer_find_slot_miss _ _ Hmiss). lia.
Qed.

(** Every start is defined and keeps the state well formed. *)
Lemma clogp_timer_start_wf file line label env st :
  wf_state st →
  ∃ st', clogp_timer_start_ file line label env st = Some st' ∧ wf_state st'.
Proof.
  intros Hwf. pose proof Hwf as [Hb Ht].
  destruct (clog_timer_find_slot_cases (g_timers st) (clog_hash64_ label)) as [Hm|[i Hi]].
  - destruct (clog_timer_free_slot_cases (g_timers st)) as [Hf|[i Hi]].
    + rewrite clogp_timer_start_full by done.
      destruct (clog_emit_wf CLOG_WARN file line (Some "timer"%string)
                  (Text no_free_slots_text) env st Hwf) as (st' & H & Hwf' & _).
      by exists st'.
    + rewrite (clogp_timer_start_alloc _ _ _ _ _ i) by done.
      eexists. split; [done|]. split; [done|]. cbn [g_timers set_timers].
      by rewrite length_insert.
  - rewrite (clogp_timer_start_hit _ _ _ _ _ i) by done.
    eexists. split; [done|]. split; [done|]. cbn [g_timers set_timers].
    by rewrite length_insert.
Qed.

Lemma clogp_timer_end_wf file line label env st :
  wf_state st →
  ∃ st', clogp_timer_end_ file line label env st = Some st' ∧ wf_state st'.
Proof.
  intros Hwf. pose proof Hwf as [Hb Ht].
  destruct (clog_timer_find_slot_cases (g_timers st) (clog_hash64_ label)) as [Hm|[i Hi]].
  - rewrite clogp_timer_end_miss by done.
    destruct (clog_emit_wf CLOG_WARN file line (Some "timer"%string)
                (Text (unknown_label_text label)) env st Hwf) as (st' & H & Hwf' & _).
    by exists st'.
  - destruct (clog_timer_find_slot_hit _ _ _ Hi) as (_ & (s & Hs & _) & _).
    rewrite (clogp_timer_end_hit _ _ _ _ _ i s) by done.
    set (st1 := set_timers st (<[i := released s]> (g_timers st))).
    assert (wf_state st1) as Hwf1.
    { split; [done|]. cbn [g_timers set_timers st1]. by rewrite length_insert. }
    destruct (clog_emit_wf CLOG_DEBUG file line (Some "timer"%string)
                (Text (timer_report_text ((now_ns env - t0 s) mod U64) label)) env st1 Hwf1)
      as (st' & H & Hwf' & _).
    by exists st'.
Qed.

(** A start records the label whenever a slot is free or already has its
    key; the slot written is the one the next scan for that key finds. *)
Lemma clogp_timer_start_records file line label env st :
  wf_state st →
  (∃ s, s ∈ g_timers st ∧ (used s = false ∨ key s = clog_hash64_ label)) →
  ∃ i old,
    g_timers st !! i = Some old ∧
    clogp_timer_start_ file line label env st
      = Some (set_timers st (<[i := started (clog_hash64_ label) (now_ns env)]> (g_timers st))) ∧
    clog_timer_find_slot_
      (<[i := started (clog_hash64_ label) (now_ns env)]> (g_timers st)) (clog_hash64_ label)
      = Z.of_nat i ∧
    (used old = true → key old = clog_hash64_ label).
Proof.
  intros [Hb Ht] (s & Hin & Hs).
  destruct (clog_timer_find_slot_cases (g_timers st) (clog_hash64_ label)) as [Hm|[i Hi]].
  - destruct (clog_timer_free_slot_present (g_timers st) Ht) as (i & old & Hi & Hold & Hu).
    { destruct (used s) eqn:Eu; [|by exists s].
      destruct Hs as [|Hk]; [done|].
      apply list_elem_of_lookup in Hin as [j Hj].
      pose proof (lookup_lt_Some _ _ _ Hj) as Hlt.
      pose proof (clog_timer_find_slot_miss _ _ Hm j ltac:(lia)) as Hmj.
      unfold slot_matches in Hmj. rewrite Hj, Eu, Hk, Z.eqb_refl in Hmj. done. }
    exists i, old. split; [done|]. split; [by apply clogp_timer_start_alloc|].
    split; [by apply clog_timer_find_slot_alloc|]. intros Hu'. congruence.
  - destruct (clog_timer_find_slot_hit _ _ _ Hi) as (_ & (old & Hold & Hu & Hk) & _).
    exists i, old. split; [done|]. split; [by apply clogp_timer_start_hit|].
    split; [by apply clog_timer_find_slot_insert|done].
Qed.

End TimerOps.

(** * The claims *)

Section Claims.
Local Open Scope nat_scope.

Lemma wf_initial_state : wf_state initial_state.
Proof. split; apply repeat_length. Qed.

Lemma new_events_add st st' es :
  trace st' = trace st ++ es → new_events st st' = es.
Proof. intros H. unfold new_events. rewrite H. apply drop_app_length. Qed.

Lemma new_events_same st : new_events st st = [].
Proof. unfold new_events. apply drop_all. Qed.

Lemma records_emission lvl fd rec : records (emission lvl fd rec) = [rec].
Proof. unfold emission. by destruct (clog_level_eqb lvl CLOG_FATAL). Qed.

(** C1. A log call at severity [s] under the threshold [t] writes a record
    if and only if [s >= t]; below the threshold the call returns the state
    it was given: the line buffer is untouched and the trace gains no event,
    neither a write nor a lock acquisition. *)
Theorem C1_level_gate (s t : clog_level) (file : string) (line : Z)
    (group : option string) (msg : formatted) (env : clog_env) (st : state) :
  wf_state st →
  ∃ st', clog_log_file_line_ s file line group msg env (clog_set_level t st) = Some st' ∧
    (emits_record (clog_set_level t st) st' ↔ (level_int t ≤ level_int s)%Z) ∧
    ((level_int s < level_int t)%Z →
       st' = clog_set_level t st ∧ g_buf st' = g_buf st ∧ trace st' = trace st ∧
       (EvLock ∉ new_events (clog_set_level t st) st') ∧
       (∀ fd rec, EvWriteAll fd rec ∉ new_events (clog_set_level t st) st')).
Proof.
  intros [Hb Ht]. unfold clog_log_file_line_, clog_vlog_file_line_.
  set (st0 := clog_set_level t st).
  assert (g_lvl st0 = level_int t) as Hl by done.
  assert (length (g_buf st0) = CLOG_LINE_MAX) as Hb0 by done.
  destruct (Z.lt_ge_cases (level_int s) (level_int t)) as [Hlt|Hge].
  - rewrite clog_emit_below by (rewrite Hl; lia).
    exists st0. split; [done|]. split.
    + split; [|lia]. intros [rec Hrec]. rewrite new_events_same in Hrec. done.
    + intros _. rewrite new_events_same. repeat split; try done.
      * apply not_elem_of_nil.
      * intros fd rec. apply not_elem_of_nil.
  - destruct (clog_emit_writes s file line group msg env st0 Hb0 ltac:(lia))
      as (buf' & -> & _).
    eexists. split; [done|]. split; [|lia].
    split; [lia|]. intros _. eexists.
    erewrite new_events_add by done. apply records_emission.
Qed.

Lemma C1_level_gate_witness :
  ∃ st', clog_log_file_line_ CLOG_INFO "main.c" 7 None (Text (str "hello")) env0
           (clog_set_level CLOG_ERROR initial_state) = Some st' ∧
    (emits_record (clog_set_level CLOG_ERROR initial_state) st'
       ↔ (level_int CLOG_ERROR ≤ level_int CLOG_INFO)%Z) ∧
    ((level_int CLOG_INFO < level_int CLOG_ERROR)%Z →
       st' = clog_set_level CLOG_ERROR initial_state ∧
       g_buf st' = g_buf initial_state ∧ trace st' = trace initial_state ∧
       (EvLock ∉ new_events (clog_set_level CLOG_ERROR initial_state) st') ∧
       (∀ fd rec, EvWriteAll fd rec ∉ new_events (clog_set_level CLOG_ERROR initial_state) st')).
Proof.
  apply (C1_level_gate CLOG_INFO CLOG_ERROR "main.c" 7 None (Text (str "hello")) env0
           initial_state).
  split; reflexivity.
Defined.

Lemma newlines_line_of cap content :
  2 ≤ cap → length content ≤ cap - 1 →
  newlines (line_of cap content)
    = newlines content + (if ends_with_newline content then 0 else 1).
Proof.
  intros Hcap Hlen. unfold line_of, newlines.
  destruct (ends_with_newline content) eqn:E; [lia|].
  destruct (Nat.ltb_spec (length content + 1) cap) as [Hroom|Hfull].
  - rewrite count_occ_app. simpl. destruct (ascii_dec NL NL); [lia|done].
  - unfold ends_with_newline in E.
    destruct (last content) as [c|] eqn:El.
    + apply last_Some in El as [l' ->]. rewrite length_app in *. simpl in *.
      rewrite take_app_length' by lia. rewrite !count_occ_app. simpl.
      destruct (ascii_dec NL NL); [|done].
      destruct (ascii_dec c NL) as [->|_]; [|lia].
      by rewrite Ascii.eqb_refl in E.
    + apply last_None in El. subst. simpl in *. lia.
Qed.

Lemma trailing_newlines_snoc l c :
  trailing_newlines (l ++ [c]) = if Ascii.eqb c NL then S (trailing_newlines l) else 0.
Proof. unfold trailing_newlines. by rewrite rev_unit. Qed.

Lemma ends_with_newline_snoc l c : ends_with_newline (l ++ [c]) = Ascii.eqb c NL.
Proof. unfold ends_with_newline. by rewrite last_snoc. Qed.

Lemma trailing_newlines_0 l : ends_with_newline l = false → trailing_newlines l = 0.
Proof.
  destruct l as [|c l] using rev_ind; [done|].
  rewrite ends_with_newline_snoc, trailing_newlines_snoc. by intros ->.
Qed.

Lemma trailing_newlines_pos l : ends_with_newline l = true → 1 ≤ trailing_newlines l.
Proof.
  destruct l as [|c l] using rev_ind; [done|].
  rewrite ends_with_newline_snoc, trailing_newlines_snoc. intros ->. lia.
Qed.

Lemma trailing_newlines_line_of cap content :
  2 ≤ cap → length content ≤ cap - 1 →
  trailing_newlines (line_of cap content)
  = if ends_with_newline content then trailing_newlines content
    else if length content + 1 <? cap then 1
    else S (trailing_newlines (removelast content)).
Proof.
  intros Hcap Hlen. unfold line_of.
  destruct (ends_with_newline content) eqn:E; [done|].
  destruct (Nat.ltb_spec (length content + 1) cap) as [Hroom|Hfull].
  - by rewrite trailing_newlines_snoc, Ascii.eqb_refl, trailing_newlines_0.
  - rewrite trailing_newlines_snoc, Ascii.eqb_refl, removelast_firstn_len.
    do 3 f_equal. lia.
Qed.

(** C3. The composed content of a record is what the buffer holds below the
    cursor after the prefix, message and marker stages. Every record handed
    to the descriptor ends with a newline byte, and the newline stage adds
    exactly one newline when the content does not end in one and none when it
    does: the record is the content itself when that already ends in a
    newline, the content followed by a newline when there is room, and, when
    the buffer is exactly full, the content with its last byte replaced by
    the newline. Newlines at the end of the content are kept: the record
    ends with as many newlines as the content when that ends in one, with
    exactly one when a newline is appended, and with one more than the
    content without its last byte when that byte is overwritten. So with
    room in the buffer and a content that does not end in two newlines the
    record ends with exactly one newline. *)
Theorem C3_newline_normalisation (lvl : clog_level) (file : string) (line : Z)
    (group : option string) (msg : formatted) (env : clog_env) (st : state) :
  wf_state st → (g_lvl st ≤ level_int lvl)%Z →
  let content := content_of lvl file line group msg env in
  (∃ b1 o1 b2 o2 tr,
     clog_write_prefix_ (g_buf st) CLOG_LINE_MAX lvl file line group env = Some (b1, o1) ∧
     format_message b1 CLOG_LINE_MAX o1 msg = Some (b2, o2, tr) ∧
     append_marker b2 CLOG_LINE_MAX o2 tr = Some (b2, o2) ∧
     take o2 b2 = content) ∧
  ∃ st' rec, clog_emit_ lvl file line group msg env st = Some st' ∧
    records (new_events st st') = [rec] ∧
    last rec = Some NL ∧
    newlines rec = newlines content + (if ends_with_newline content then 0 else 1) ∧
    (ends_with_newline content = true → rec = content) ∧
    (ends_with_newline content = false → length content + 1 < CLOG_LINE_MAX →
       rec = content ++ [NL]) ∧
    (ends_with_newline content = false → length content + 1 = CLOG_LINE_MAX →
       rec = removelast content ++ [NL] ∧ length rec = length content) ∧
    trailing_newlines rec
    = (if ends_with_newline content then trailing_newlines content
       else if length content + 1 <? CLOG_LINE_MAX then 1
       else S (trailing_newlines (removelast content))) ∧
    (trailing_newlines content ≤ 1 → length content + 1 < CLOG_LINE_MAX →
       trailing_newlines rec = 1).
Proof.
  intros [Hb Ht] Hlvl content. split.
  { destruct (clog_emit_stages lvl file line group msg env (g_buf st) Hb)
      as (b1 & o1 & b2 & o2 & tr & H1 & H2 & H3 & _ & _ & _ & _ & H4).
    by exists b1, o1, b2, o2, tr. }
  destruct (clog_emit_writes lvl file line group msg env st Hb Hlvl)
    as (buf' & -> & _).
  fold content. eexists _, _. split; [done|].
  erewrite new_events_add by done. split; [apply records_emission|].
  split; [apply last_line_of|].
  pose proof (length_content_of lvl file line group msg env) as Hlen. fold content in Hlen.
  split; [apply newlines_line_of; [apply CLOG_LINE_MAX_ge|done]|].
  pose proof (trailing_newlines_line_of CLOG_LINE_MAX content CLOG_LINE_MAX_ge Hlen) as Htn.
  assert (trailing_newlines content ≤ 1 → length content + 1 < CLOG_LINE_MAX →
          trailing_newlines (line_of CLOG_LINE_MAX content) = 1) as Hone.
  { intros H1 Hroom. rewrite Htn. destruct (ends_with_newline content) eqn:E.
    - apply trailing_newlines_pos in E. lia.
    - by destruct (Nat.ltb_spec (length content + 1) CLOG_LINE_MAX); [|lia]. }
  split; [unfold line_of; by intros ->|]. split; [|split; [|by split]].
  - unfold line_of. intros -> Hroom.
    by destruct (Nat.ltb_spec (length content + 1) CLOG_LINE_MAX); [|lia].
  - unfold line_of. intros -> Hfull.
    destruct (Nat.ltb_spec (length content + 1) CLOG_LINE_MAX); [lia|].
    pose proof CLOG_LINE_MAX_ge.
    split; [|rewrite length_app, length_take; cbn [length]; lia].
    rewrite removelast_firstn_len. do 2 f_equal. lia.
Qed.

Lemma C3_newline_normalisation_witness :
  let content := content_of CLOG_WARN "main.c" 7 (Some "net"%string)
                   (Text (str "link down")) env0 in
  (∃ b1 o1 b2 o2 tr,
     clog_write_prefix_ (g_buf initial_state) CLOG_LINE_MAX CLOG_WARN "main.c" 7
       (Some "net"%string) env0 = Some (b1, o1) ∧
     format_message b1 CLOG_LINE_MAX o1 (Text (str "link down")) = Some (b2, o2, tr) ∧
     append_marker b2 CLOG_LINE_MAX o2 tr = Some (b2, o2) ∧
     take o2 b2 = content) ∧
  ∃ st' rec, clog_emit_ CLOG_WARN "main.c" 7 (Some "net"%string)
               (Text (str "link down")) env0 initial_state = Some st' ∧
    records (new_events initial_state st') = [rec] ∧
    last rec = Some NL ∧
    newlines rec = newlines content + (if ends_with_newline content then 0 else 1) ∧
    (ends_with_newline content = true → rec = content) ∧
    (ends_with_newline content = false → length content + 1 < CLOG_LINE_MAX →
       rec = content ++ [NL]) ∧
    (ends_with_newline content = false → length content + 1 = CLOG_LINE_MAX →
       rec = removelast content ++ [NL] ∧ length rec = length content) ∧
    trailing_newlines rec
    = (if ends_with_newline content then trailing_newlines content
       else if length content + 1 <? CLOG_LINE_MAX then 1
       else S (trailing_newlines (removelast content))) ∧
    (trailing_newlines content ≤ 1 → length content + 1 < CLOG_LINE_MAX →
       trailing_newlines rec = 1).
Proof.
  apply (C3_newline_normalisation CLOG_WARN "main.c" 7 (Some "net"%string)
           (Text (str "link down")) env0 initial_state).
  - split; reflexivity.
  - vm_compute. discriminate.
Defined.

(** The record does not always end with exactly one newline: a message that
    ends in two newlines is written with both, and at a full buffer the
    newline stage writes its newline over the byte that follows a newline
    of the message. *)
Lemma C3_more_than_one_newline :
  (∃ st' rec,
     clog_emit_ CLOG_ERROR "a.c" 3 None (Text (str "boom" ++ [NL; NL])) env0 initial_state
       = Some st' ∧
     records (new_events initial_state st') = [rec] ∧
     rec = str "2025-01-02 03:04:05.006 [ERROR]" ++ [TAB] ++ str "(tid:42) <a.c:3> boom"
             ++ [NL; NL] ∧
     trailing_newlines rec = 2) ∧
  (∃ st' rec,
     clog_emit_ CLOG_INFO "main.c" 7 None
       (Text (repeat "A"%char 970 ++ [NL; "A"%char])) env0 initial_state = Some st' ∧
     records (new_events initial_state st') = [rec] ∧
     length rec = CLOG_LINE_MAX - 1 ∧
     rec = str "2025-01-02 03:04:05.006 [INFO]" ++ [TAB] ++ str "(tid:42) <main.c:7> "
             ++ repeat "A"%char 970 ++ [NL; NL] ∧
     trailing_newlines rec = 2).
Proof.
  split.
  - eexists _, _. split; [vm_compute; reflexivity|].
    split; [vm_compute; reflexivity|]. split; vm_compute; reflexivity.
  - eexists _, _. split; [vm_compute; reflexivity|].
    split; [vm_compute; reflexivity|].
    split; [vm_compute; reflexivity|]. split; vm_compute; reflexivity.
Qed.

(** C4. Composition never leaves the buffer. Every append step of the prefix
    composer, whatever the cursor and the text, stores inside the buffer,
    keeps the cursor below the capacity and touches no byte outside the
    cursor range; the prefix composer returns a cursor of at most the
    capacity; and the whole call is defined (no store or load outside the
    buffer), hands at most [CLOG_LINE_MAX] bytes to the descriptor, these
    bytes are the start of the buffer, the byte right after them is the NUL
    terminator, and they are the record of this call alone: nothing of what
    the buffer held before is written. *)
Theorem C4_composition_in_bounds (lvl : clog_level) (file : string) (line : Z)
    (group : option string) (msg : formatted) (env : clog_env) (st : state) :
  wf_state st →
  (∀ t dst pos, length dst = CLOG_LINE_MAX →
     ∃ dst' pos', CLOG_APPEND CLOG_LINE_MAX t (dst, pos) = Some (dst', pos') ∧
       length dst' = CLOG_LINE_MAX ∧ pos ≤ pos' ∧
       (pos < CLOG_LINE_MAX → pos' < CLOG_LINE_MAX) ∧
       (∀ j, j < pos ∨ pos' < j → dst' !! j = dst !! j)) ∧
  (∃ dst' off, clog_write_prefix_ (g_buf st) CLOG_LINE_MAX lvl file line group env
                 = Some (dst', off) ∧
     length dst' = CLOG_LINE_MAX ∧ off ≤ CLOG_LINE_MAX) ∧
  (∃ st', clog_emit_ lvl file line group msg env st = Some st' ∧ wf_state st' ∧
     ∀ fd rec, EvWriteAll fd rec ∈ new_events st st' →
       length rec ≤ CLOG_LINE_MAX ∧ take (length rec) (g_buf st') = rec ∧
       g_buf st' !! length rec = Some NUL ∧
       rec = record_of lvl file line group msg env).
Proof.
  intros [Hb Ht]. pose proof CLOG_LINE_MAX_ge as Hcap. split; [|split].
  - intros t dst pos Hlen. by apply CLOG_APPEND_safe.
  - destruct (clog_write_prefix_holds (g_buf st) CLOG_LINE_MAX lvl file line group env)
      as ([d o] & -> & Hh); [lia|done|].
    pose proof (holds_lt CLOG_LINE_MAX _ _ ltac:(lia) Hh) as Hlt. destruct Hh as (Hl & _).
    cbn [fst snd] in Hlt, Hl. eexists _, _. split; [done|]. split; [done|lia].
  - destruct (Z.lt_ge_cases (level_int lvl) (g_lvl st)) as [Hlt|Hge].
    + rewrite clog_emit_below by done. eexists. split; [done|]. split; [done|].
      intros fd rec Hin. rewrite new_events_same in Hin. by apply elem_of_nil in Hin.
    + destruct (clog_emit_writes lvl file line group msg env st Hb ltac:(lia))
        as (buf' & -> & Hl & Htk & Hnul).
      eexists. split; [done|]. split; [done|].
      intros fd rec Hin. erewrite new_events_add in Hin by done.
      assert (rec = line_of CLOG_LINE_MAX (content_of lvl file line group msg env)) as ->.
      { unfold emission in Hin. apply elem_of_app in Hin as [Hin|Hin].
        - repeat (apply elem_of_cons in Hin as [Hin|Hin]; [by inversion Hin|]).
          by apply elem_of_nil in Hin.
        - destruct (clog_level_eqb lvl CLOG_FATAL).
          + apply elem_of_cons in Hin as [Hin|Hin]; [by inversion Hin|].
            by apply elem_of_nil in Hin.
          + by apply elem_of_nil in Hin. }
      pose proof (length_line_of CLOG_LINE_MAX _ Hcap
                    (length_content_of lvl file line group msg env)).
      cbn [g_buf set_buf add_events]. split; [lia|]. split; [done|]. split; done.
Qed.

Lemma C4_composition_in_bounds_witness :
  (∀ t dst pos, length dst = CLOG_LINE_MAX →
     ∃ dst' pos', CLOG_APPEND CLOG_LINE_MAX t (dst, pos) = Some (dst', pos') ∧
       length dst' = CLOG_LINE_MAX ∧ pos ≤ pos' ∧
       (pos < CLOG_LINE_MAX → pos' < CLOG_LINE_MAX) ∧
       (∀ j, j < pos ∨ pos' < j → dst' !! j = dst !! j)) ∧
  (∃ dst' off, clog_write_prefix_ (g_buf initial_state) CLOG_LINE_MAX CLOG_INFO
                 "src/main.c" 7 (Some "net"%string) env0 = Some (dst', off) ∧
     length dst' = CLOG_LINE_MAX ∧ off ≤ CLOG_LINE_MAX) ∧
  (∃ st', clog_emit_ CLOG_INFO "src/main.c" 7 (Some "net"%string)
            (Text (repeat "A"%char 2000)) env0 initial_state = Some st' ∧ wf_state st' ∧
     ∀ fd rec, EvWriteAll fd rec ∈ new_events initial_state st' →
       length rec ≤ CLOG_LINE_MAX ∧ take (length rec) (g_buf st') = rec ∧
       g_buf st' !! length rec = Some NUL ∧
       rec = record_of CLOG_INFO "src/main.c" 7 (Some "net"%string)
               (Text (repeat "A"%char 2000)) env0).
Proof.
  apply (C4_composition_in_bounds CLOG_INFO "src/main.c" 7 (Some "net"%string)
           (Text (repeat "A"%char 2000)) env0 initial_state).
  split; reflexivity.
Defined.

(** The record of a truncated message: the composed text cut after
    [CLOG_LINE_MAX - 2] bytes and a newline. Nothing else is stored: the
    marker branch is dead ([append_marker_skips]). *)
Lemma clog_emit_truncated lvl file line group s env st :
  length (g_buf st) = CLOG_LINE_MAX → (g_lvl st ≤ level_int lvl)%Z →
  CLOG_LINE_MAX - length (kept CLOG_LINE_MAX (prefix_text lvl file line group env))
    ≤ length s →
  ∃ st', clog_emit_ lvl file line group (Text s) env st = Some st' ∧
    records (new_events st st')
      = [take (CLOG_LINE_MAX - 2) (prefix_text lvl file line group env ++ s) ++ [NL]].
Proof.
  intros Hb Hlvl Hover. pose proof CLOG_LINE_MAX_ge as Hcap.
  destruct (clog_emit_writes lvl file line group (Text s) env st Hb Hlvl)
    as (buf' & -> & _).
  eexists. split; [done|]. erewrite new_events_add by done.
  rewrite records_emission. f_equal.
  unfold content_of. cbn [msg_text].
  set (txt := prefix_text lvl file line group env ++ s).
  assert (CLOG_LINE_MAX ≤ length txt) as Hlong.
  { unfold txt. rewrite length_app. rewrite length_kept in Hover. lia. }
  assert (length (kept CLOG_LINE_MAX txt) = CLOG_LINE_MAX - 1) as Hfull.
  { rewrite length_kept. lia. }
  assert (take (CLOG_LINE_MAX - 2) (kept CLOG_LINE_MAX txt) = take (CLOG_LINE_MAX - 2) txt)
    as Htk.
  { unfold kept. rewrite take_take. f_equal; lia. }
  unfold line_of. destruct (ends_with_newline (kept CLOG_LINE_MAX txt)) eqn:E.
  - unfold ends_with_newline in E.
    destruct (last (kept CLOG_LINE_MAX txt)) as [c|] eqn:El; [|done].
    apply Ascii.eqb_eq in E. subst c. apply last_Some in El as [l' El].
    rewrite <-Htk, El. rewrite El, length_app in Hfull. cbn [length] in Hfull.
    by rewrite take_app_length' by lia.
  - destruct (Nat.ltb_spec (length (kept CLOG_LINE_MAX txt) + 1) CLOG_LINE_MAX); [lia|].
    by rewrite Htk.
Qed.

(** C2 (the code departs from the claim). A message of 2000 bytes after a
    51-byte prefix is truncated: the message stage sets [truncated] and puts
    the cursor at [CLOG_LINE_MAX - 1], where the marker stage, guarded by
    [off + 3 < cap], stores nothing. The record has [CLOG_LINE_MAX - 1] bytes
    and ends in one newline, but it is the prefix, 971 bytes of the message
    and the newline; the three-byte marker occurs nowhere in it. *)
Theorem C2_truncated_record_has_no_marker :
  (∃ b1 b2,
     clog_write_prefix_ (g_buf initial_state) CLOG_LINE_MAX CLOG_INFO "main.c" 7 None env0
       = Some (b1, 51) ∧
     format_message b1 CLOG_LINE_MAX 51 (Text (repeat "A"%char 2000))
       = Some (b2, CLOG_LINE_MAX - 1, true) ∧
     append_marker b2 CLOG_LINE_MAX (CLOG_LINE_MAX - 1) true
       = Some (b2, CLOG_LINE_MAX - 1)) ∧
  ∃ st' rec,
    clog_emit_ CLOG_INFO "main.c" 7 None (Text (repeat "A"%char 2000)) env0 initial_state
      = Some st' ∧
    records (new_events initial_state st') = [rec] ∧
    length rec = CLOG_LINE_MAX - 1 ∧
    last rec = Some NL ∧
    rec = prefix_text CLOG_INFO "main.c" 7 None env0 ++ repeat "A"%char 971 ++ [NL] ∧
    contains truncation_mark rec = false.
Proof.
  split.
  { destruct (clog_emit_stages CLOG_INFO "main.c" 7 None (Text (repeat "A"%char 2000)) env0
                (g_buf initial_state) eq_refl)
      as (b1 & o1 & b2 & o2 & tr & H1 & H2 & H3 & Ho1 & Htr & Hfull & _).
    assert (o1 = 51) as -> by (rewrite Ho1; vm_compute; reflexivity).
    assert (tr = true) as -> by (rewrite Htr; vm_compute; reflexivity).
    rewrite (Hfull eq_refl) in H2, H3. by exists b1, b2. }
  destruct (clog_emit_truncated CLOG_INFO "main.c" 7 None (repeat "A"%char 2000) env0
              initial_state) as (st' & Hst & Hrec).
  - reflexivity.
  - vm_compute. discriminate.
  - vm_compute. lia.
  - exists st'. eexists. split; [exact Hst|]. split; [exact Hrec|].
    repeat split; vm_compute; reflexivity.
Qed.

(** C5. When a used slot already holds the key of the label, a start
    overwrites the start time of that slot in place: the slot found is the
    result, every other slot and the [used] and [key] columns are as before,
    the number of occupied slots is unchanged, nothing is reported (the trace
    and the line buffer are untouched), and a start followed by a start
    leaves the state a single, later start leaves. *)
Theorem C5_restart_in_place (file : string) (line : Z) (label : string)
    (env : clog_env) (st : state) :
  wf_state st →
  (∃ s, s ∈ g_timers st ∧ used s = true ∧ key s = clog_hash64_ label) →
  ∃ idx old st',
    g_timers st !! idx = Some old ∧ used old = true ∧ key old = clog_hash64_ label ∧
    clogp_timer_start_ file line label env st = Some st' ∧
    g_timers st' = <[idx := started (clog_hash64_ label) (now_ns env)]> (g_timers st) ∧
    g_timers st' !! idx = Some (started (clog_hash64_ label) (now_ns env)) ∧
    (∀ j, j ≠ idx → g_timers st' !! j = g_timers st !! j) ∧
    used <$> g_timers st' = used <$> g_timers st ∧
    key <$> g_timers st' = key <$> g_timers st ∧
    occupied (g_timers st') = occupied (g_timers st) ∧
    trace st' = trace st ∧ g_buf st' = g_buf st ∧
    (∀ file1 line1 env1 st1,
       clogp_timer_start_ file1 line1 label env1 st = Some st1 →
       clogp_timer_start_ file line label env st1 = Some st').
Proof.
  intros [Hb Ht] Hpresent.
  destruct (clog_timer_find_slot_present _ _ Ht Hpresent) as (i & s & Hi & Hs & Hu & Hk).
  pose proof (lookup_lt_Some _ _ _ Hs) as Hlt.
  exists i, s. eexists. split; [done|]. split; [done|]. split; [done|].
  split; [by apply clogp_timer_start_hit|]. cbn [g_timers set_timers trace g_buf].
  split; [done|]. split; [by apply list_lookup_insert_eq|].
  split; [by intros j Hj; apply list_lookup_insert_ne|].
  split; [rewrite list_fmap_insert; apply list_insert_id; rewrite list_lookup_fmap, Hs; cbn; by rewrite Hu|].
  split; [rewrite list_fmap_insert; apply list_insert_id; rewrite list_lookup_fmap, Hs; cbn; by rewrite Hk|].
  split.
  { pose proof (occupied_insert (g_timers st) i s
                  (started (clog_hash64_ label) (now_ns env)) Hs) as Ho.
    rewrite Hu in Ho. cbn [used started] in Ho. lia. }
  split; [done|]. split; [done|].
  intros file1 line1 env1 st1 H1.
  rewrite (clogp_timer_start_hit _ _ _ _ _ i Hi) in H1. injection H1 as <-.
  rewrite (clogp_timer_start_hit _ _ _ _ _ i).
  - cbn [g_timers set_timers]. unfold set_timers. cbn. by rewrite list_insert_insert_eq.
  - cbn [g_timers set_timers]. by apply clog_timer_find_slot_insert.
Qed.

Lemma C5_restart_in_place_witness :
  ∃ idx old st',
    g_timers timing_io !! idx = Some old ∧ used old = true ∧ key old = clog_hash64_ "io" ∧
    clogp_timer_start_ "main.c" 9 "io" env0 timing_io = Some st' ∧
    g_timers st' = <[idx := started (clog_hash64_ "io") (now_ns env0)]> (g_timers timing_io) ∧
    g_timers st' !! idx = Some (started (clog_hash64_ "io") (now_ns env0)) ∧
    (∀ j, j ≠ idx → g_timers st' !! j = g_timers timing_io !! j) ∧
    used <$> g_timers st' = used <$> g_timers timing_io ∧
    key <$> g_timers st' = key <$> g_timers timing_io ∧
    occupied (g_timers st') = occupied (g_timers timing_io) ∧
    trace st' = trace timing_io ∧ g_buf st' = g_buf timing_io ∧
    (∀ file1 line1 env1 st1,
       clogp_timer_start_ file1 line1 "io" env1 timing_io = Some st1 →
       clogp_timer_start_ "main.c" 9 "io" env0 st1 = Some st').
Proof.
  apply (C5_restart_in_place "main.c" 9 "io" env0 timing_io).
  - split; reflexivity.
  - exists (started (clog_hash64_ "io") 1000). split; [left|split; reflexivity].
Defined.

(** What a call of the logging front end does to a well-formed state. *)
Lemma clog_log_outcome lvl file line group msg env st :
  wf_state st →
  ∃ st', clog_log_file_line_ lvl file line group msg env st = Some st' ∧
    wf_state st' ∧ g_timers st' = g_timers st ∧
    ((g_lvl st ≤ level_int lvl)%Z →
       trace st' = trace st ++ emission lvl (g_fd st) (record_of lvl file line group msg env) ∧
       records (new_events st st') = [record_of lvl file line group msg env]) ∧
    ((level_int lvl < g_lvl st)%Z → st' = st).
Proof.
  intros Hwf. pose proof Hwf as [Hb Ht].
  unfold clog_log_file_line_, clog_vlog_file_line_.
  destruct (Z.lt_ge_cases (level_int lvl) (g_lvl st)) as [Hlt|Hge].
  - rewrite clog_emit_below by done. exists st. repeat split; try done; lia.
  - destruct (clog_emit_writes lvl file line group msg env st Hb ltac:(lia))
      as (buf' & -> & Hl & _).
    eexists. split; [done|]. split; [done|]. split; [done|]. split; [|lia].
    intros _. split; [done|]. erewrite new_events_add by done. apply records_emission.
Qed.

(** C6. The timer table keeps its [CLOG_TIMERS_MAX] slots, so at most that
    many are occupied, and a start, an end and a log call all preserve this.
    When every slot is in use and none has the key of the label, a start is
    exactly a Warn-level log call with group "timer" and the slot-exhaustion
    message, and the table is left as it was: through the gate, the record
    written is that of this call. *)
Theorem C6_table_bound (file : string) (line : Z) (label : string)
    (env : clog_env) (st : state) :
  wf_state st →
  occupied (g_timers st) ≤ CLOG_TIMERS_MAX ∧
  (∃ st', clogp_timer_start_ file line label env st = Some st' ∧ wf_state st' ∧
          occupied (g_timers st') ≤ CLOG_TIMERS_MAX) ∧
  (∃ st', clogp_timer_end_ file line label env st = Some st' ∧ wf_state st' ∧
          occupied (g_timers st') ≤ CLOG_TIMERS_MAX) ∧
  (∀ lvl group msg,
     ∃ st', clog_log_file_line_ lvl file line group msg env st = Some st' ∧ wf_state st' ∧
            occupied (g_timers st') ≤ CLOG_TIMERS_MAX) ∧
  ((∀ s, s ∈ g_timers st → used s = true ∧ key s ≠ clog_hash64_ label) →
     ∃ st', clogp_timer_start_ file line label env st = Some st' ∧
       clog_log_file_line_ CLOG_WARN file line (Some "timer"%string)
         (Text (str "no free timer slots (CLOG_TIMERS_MAX=16)")) env st = Some st' ∧
       g_timers st' = g_timers st ∧
       ((g_lvl st ≤ level_int CLOG_WARN)%Z →
          records (new_events st st')
            = [record_of CLOG_WARN file line (Some "timer"%string)
                 (Text (str "no free timer slots (CLOG_TIMERS_MAX=16)")) env]) ∧
       ((level_int CLOG_WARN < g_lvl st)%Z → st' = st)).
Proof.
  intros Hwf. pose proof Hwf as [Hb Ht].
  assert (∀ st', wf_state st' → occupied (g_timers st') ≤ CLOG_TIMERS_MAX) as Hocc.
  { intros st' [_ Ht']. rewrite <-Ht'. apply occupied_le. }
  split; [by apply Hocc|]. split; [|split; [|split]].
  - destruct (clogp_timer_start_wf file line label env st Hwf) as (st' & H & Hwf').
    exists st'. split; [done|]. split; [done|]. by apply Hocc.
  - destruct (clogp_timer_end_wf file line label env st Hwf) as (st' & H & Hwf').
    exists st'. split; [done|]. split; [done|]. by apply Hocc.
  - intros lvl group msg.
    destruct (clog_log_outcome lvl file line group msg env st Hwf) as (st' & H & Hwf' & _).
    exists st'. split; [done|]. split; [done|]. by apply Hocc.
  - intros Hfull.
    assert (clog_timer_find_slot_ (g_timers st) (clog_hash64_ label) = (-1)%Z) as Hmiss.
    { apply clog_timer_find_slot_absent. intros s Hs _. by apply Hfull. }
    assert (clog_timer_free_slot_ (g_timers st) = (-1)%Z) as Hnofree.
    { destruct (clog_timer_free_slot_cases (g_timers st)) as [|[i Hi]]; [done|].
      destruct (clog_timer_free_slot_hit _ _ Hi) as (_ & (s & Hs & Hu) & _).
      destruct (Hfull s) as [Hu' _]; [apply list_elem_of_lookup; by exists i|].
      congruence. }
    rewrite clogp_timer_start_full by done.
    change no_free_slots_text with (str "no free timer slots (CLOG_TIMERS_MAX=16)").
    destruct (clog_log_outcome CLOG_WARN file line (Some "timer"%string)
                (Text (str "no free timer slots (CLOG_TIMERS_MAX=16)")) env st Hwf)
      as (st' & H & _ & Htim & Hpass & Hdrop).
    exists st'. split; [done|]. split; [done|]. split; [done|].
    split; [by intros Hl; apply Hpass|done].
Qed.

Lemma C6_table_bound_witness :
  occupied (g_timers full_table) ≤ CLOG_TIMERS_MAX ∧
  ∃ st', clogp_timer_start_ "main.c" 9 "io" env0 full_table = Some st' ∧
    g_timers st' = g_timers full_table ∧
    records (new_events full_table st')
      = [record_of CLOG_WARN "main.c" 9 (Some "timer"%string)
           (Text (str "no free timer slots (CLOG_TIMERS_MAX=16)")) env0].
Proof.
  destruct (C6_table_bound "main.c" 9 "io" env0 full_table) as (Hocc & _ & _ & _ & Hfull).
  - split; reflexivity.
  - split; [exact Hocc|].
    destruct Hfull as (st' & Hs & _ & Ht & Hrec & _).
    + apply (proj1 (Forall_forall (λ s, used s = true ∧ key s ≠ clog_hash64_ "io") _)).
      vm_compute. repeat constructor; discriminate.
    + exists st'. split; [exact Hs|]. split; [exact Ht|]. apply Hrec. vm_compute. discriminate.
Defined.

(** C7. When no used slot holds the key of the label, an end is exactly a
    Warn-level log call with group "timer" and the unknown-label message: it
    returns normally, leaves every slot as it was, and through the gate the
    record written is that of this call. *)
Theorem C7_end_unknown_label (file : string) (line : Z) (label : string)
    (env : clog_env) (st : state) :
  wf_state st →
  (∀ s, s ∈ g_timers st → used s = true → key s ≠ clog_hash64_ label) →
  ∃ st', clogp_timer_end_ file line label env st = Some st' ∧
    clog_log_file_line_ CLOG_WARN file line (Some "timer"%string)
      (Text (str "end_time for unknown label: " ++ c_str label)) env st = Some st' ∧
    g_timers st' = g_timers st ∧ wf_state st' ∧
    ((g_lvl st ≤ level_int CLOG_WARN)%Z →
       records (new_events st st')
         = [record_of CLOG_WARN file line (Some "timer"%string)
              (Text (str "end_time for unknown label: " ++ c_str label)) env]) ∧
    ((level_int CLOG_WARN < g_lvl st)%Z → st' = st).
Proof.
  intros Hwf Habs.
  rewrite clogp_timer_end_miss by (by apply clog_timer_find_slot_absent).
  unfold unknown_label_text.
  destruct (clog_log_outcome CLOG_WARN file line (Some "timer"%string)
              (Text (str "end_time for unknown label: " ++ c_str label)) env st Hwf)
    as (st' & H & Hwf' & Htim & Hpass & Hdrop).
  exists st'. split; [done|]. split; [done|]. split; [done|]. split; [done|].
  split; [by intros Hl; apply Hpass|done].
Qed.

Lemma C7_end_unknown_label_witness :
  ∃ st', clogp_timer_end_ "main.c" 9 "never started" env0 timing_io = Some st' ∧
    clog_log_file_line_ CLOG_WARN "main.c" 9 (Some "timer"%string)
      (Text (str "end_time for unknown label: " ++ c_str "never started")) env0 timing_io
      = Some st' ∧
    g_timers st' = g_timers timing_io ∧ wf_state st' ∧
    ((g_lvl timing_io ≤ level_int CLOG_WARN)%Z →
       records (new_events timing_io st')
         = [record_of CLOG_WARN "main.c" 9 (Some "timer"%string)
              (Text (str "end_time for unknown label: " ++ c_str "never started")) env0]) ∧
    ((level_int CLOG_WARN < g_lvl timing_io)%Z → st' = timing_io).
Proof.
  apply (C7_end_unknown_label "main.c" 9 "never started" env0 timing_io).
  - split; reflexivity.
  - apply (proj1 (Forall_forall
                    (λ s, used s = true → key s ≠ clog_hash64_ "never started") _)).
    vm_compute.
    repeat (constructor;
            [first [intros H; discriminate H | intros _ H; discriminate H]|]).
    constructor.
Defined.

(** C8. When a used slot holds the key of the label, an end is a Debug-level
    log call with group "timer" whose message is [[NUMBER UNIT]: label], on
    the state in which the slot is already released. The elapsed time
    [dt = now - t0] (modulo [2^64]) selects the tier: below 1000 the number
    is [dt] printed as an integer with unit [ns]; below 1000000 it is
    [dt / 1e3] printed with [%.3f] and the micro-second unit; below
    1000000000 it is [dt / 1e6] printed with [%.3f] and unit [ms]; otherwise
    it is [dt / 1e9] printed with [%.6f] and unit [s]. Through the gate the
    record written is that of this call. *)
Theorem C8_timer_report_tiers (file : string) (line : Z) (label : string)
    (env : clog_env) (st : state) :
  wf_state st →
  (∃ s, s ∈ g_timers st ∧ used s = true ∧ key s = clog_hash64_ label) →
  ∃ idx old number unit_name st',
    g_timers st !! idx = Some old ∧ used old = true ∧ key old = clog_hash64_ label ∧
    let dt := ((now_ns env - t0 old) mod 2 ^ 64)%Z in
    let report :=
      Text (str "[" ++ number ++ str " " ++ unit_name ++ str "]: " ++ c_str label) in
    clogp_timer_end_ file line label env st = Some st' ∧
    clog_log_file_line_ CLOG_DEBUG file line (Some "timer"%string) report env
      (set_timers st (<[idx := released old]> (g_timers st))) = Some st' ∧
    ((g_lvl st ≤ level_int CLOG_DEBUG)%Z →
       records (new_events st st')
         = [record_of CLOG_DEBUG file line (Some "timer"%string) report env]) ∧
    ((dt < 1000)%Z →
       number = fmt_u dt ∧ whole_number number ∧ unit_name = str "ns") ∧
    ((1000 ≤ dt < 1000000)%Z →
       let us := double_div (double_of_u64 dt) (double_of_u64 1000) in
       number = fmt_f 3 us ∧ decimal_with 3 number ∧
       unit_name = c_str CLOG_TIMER_UNIT_US) ∧
    ((1000000 ≤ dt < 1000000000)%Z →
       let ms := double_div (double_of_u64 dt) (double_of_u64 1000000) in
       number = fmt_f 3 ms ∧ decimal_with 3 number ∧
       unit_name = str "ms") ∧
    ((1000000000 ≤ dt)%Z →
       let sec := double_div (double_of_u64 dt) (double_of_u64 1000000000) in
       number = fmt_f 6 sec ∧ decimal_with 6 number ∧
       unit_name = str "s").
Proof.
  intros Hwf Hpresent. pose proof Hwf as [Hb Ht].
  destruct (clog_timer_find_slot_present _ _ Ht Hpresent) as (i & s & Hi & Hs & Hu & Hk).
  set (dt := ((now_ns env - t0 s) mod 2 ^ 64)%Z).
  set (st1 := set_timers st (<[i := released s]> (g_timers st))).
  assert (wf_state st1) as Hwf1.
  { split; [done|]. cbn [g_timers set_timers st1]. by rewrite length_insert. }
  assert (∃ number unit_name,
    timer_report_text dt label
      = str "[" ++ number ++ str " " ++ unit_name ++ str "]: " ++ c_str label ∧
    ((dt < 1000)%Z →
       number = fmt_u dt ∧ whole_number number ∧ unit_name = str "ns") ∧
    ((1000 ≤ dt < 1000000)%Z →
       let us := double_div (double_of_u64 dt) (double_of_u64 1000) in
       number = fmt_f 3 us ∧ decimal_with 3 number ∧
       unit_name = c_str CLOG_TIMER_UNIT_US) ∧
    ((1000000 ≤ dt < 1000000000)%Z →
       let ms := double_div (double_of_u64 dt) (double_of_u64 1000000) in
       number = fmt_f 3 ms ∧ decimal_with 3 number ∧
       unit_name = str "ms") ∧
    ((1000000000 ≤ dt)%Z →
       let sec := double_div (double_of_u64 dt) (double_of_u64 1000000000) in
       number = fmt_f 6 sec ∧ decimal_with 6 number ∧
       unit_name = str "s")) as (number & unit_name & Htext & Htiers).
  { assert (0 ≤ dt < 2 ^ 64)%Z as Hdt by (apply Z.mod_pos_bound; lia).
    unfold timer_report_text, elapsed_text.
    destruct (Z.ltb_spec dt 1000);
      [|destruct (Z.ltb_spec dt 1000000); [|destruct (Z.ltb_spec dt 1000000000)]].
    - exists (fmt_u dt), (str "ns"). split; [rewrite <-!app_assoc; reflexivity|].
      split; [intros _; split; [done|split; [apply fmt_u_whole|done]]|].
      repeat split; intros; lia.
    - exists (fmt_f 3 (double_div (double_of_u64 dt) (double_of_u64 1000))),
        (c_str CLOG_TIMER_UNIT_US).
      split; [rewrite <-!app_assoc; reflexivity|].
      split; [intros; lia|]. split; [|split; intros; lia].
      intros _. split; [reflexivity|]. split; [|reflexivity].
      apply fmt_f_decimal; [lia|]. apply timer_double_fin; [exact Hdt|]. tauto.
    - exists (fmt_f 3 (double_div (double_of_u64 dt) (double_of_u64 1000000))), (str "ms").
      split; [rewrite <-!app_assoc; reflexivity|].
      split; [intros; lia|]. split; [intros; lia|]. split; [|intros; lia].
      intros _. split; [reflexivity|]. split; [|reflexivity].
      apply fmt_f_decimal; [lia|]. apply timer_double_fin; [exact Hdt|]. tauto.
    - exists (fmt_f 6 (double_div (double_of_u64 dt) (double_of_u64 1000000000))), (str "s").
      split; [rewrite <-!app_assoc; reflexivity|].
      split; [intros; lia|]. split; [intros; lia|]. split; [intros; lia|].
      intros _. split; [reflexivity|]. split; [|reflexivity].
      apply fmt_f_decimal; [lia|]. apply timer_double_fin; [exact Hdt|]. tauto. }
  destruct (clog_log_outcome CLOG_DEBUG file line (Some "timer"%string)
              (Text (timer_report_text dt label)) env st1 Hwf1)
    as (st' & Hlog & _ & _ & Hpass & _).
  exists i, s, number, unit_name, st'.
  split; [done|]. split; [done|]. split; [done|]. cbv zeta. fold dt. rewrite <-Htext.
  split; [by rewrite (clogp_timer_end_hit _ _ _ _ _ i s)|].
  split; [done|]. split; [|done].
  intros Hl. by apply Hpass.
Qed.

Lemma C8_timer_report_tiers_witness :
  ∃ idx old number unit_name st',
    g_timers (clog_set_level CLOG_DEBUG timing_io) !! idx = Some old ∧ used old = true ∧ key old = clog_hash64_ "io"%string ∧
    let dt := ((now_ns env_later - t0 old) mod 2 ^ 64)%Z in
    let report :=
      Text (str "[" ++ number ++ str " " ++ unit_name ++ str "]: " ++ c_str "io"%string) in
    clogp_timer_end_ "main.c"%string 9%Z "io"%string env_later (clog_set_level CLOG_DEBUG timing_io) = Some st' ∧
    clog_log_file_line_ CLOG_DEBUG "main.c"%string 9%Z (Some "timer"%string) report env_later
      (set_timers (clog_set_level CLOG_DEBUG timing_io) (<[idx := released old]> (g_timers (clog_set_level CLOG_DEBUG timing_io)))) = Some st' ∧
    ((g_lvl (clog_set_level CLOG_DEBUG timing_io) ≤ level_int CLOG_DEBUG)%Z →
       records (new_events (clog_set_level CLOG_DEBUG timing_io) st')
         = [record_of CLOG_DEBUG "main.c"%string 9%Z (Some "timer"%string) report env_later]) ∧
    ((dt < 1000)%Z →
       number = fmt_u dt ∧ whole_number number ∧ unit_name = str "ns") ∧
    ((1000 ≤ dt < 1000000)%Z →
       let us := double_div (double_of_u64 dt) (double_of_u64 1000) in
       number = fmt_f 3 us ∧ decimal_with 3 number ∧
       unit_name = c_str CLOG_TIMER_UNIT_US) ∧
    ((1000000 ≤ dt < 1000000000)%Z →
       let ms := double_div (double_of_u64 dt) (double_of_u64 1000000) in
       number = fmt_f 3 ms ∧ decimal_with 3 number ∧
       unit_name = str "ms") ∧
    ((1000000000 ≤ dt)%Z →
       let sec := double_div (double_of_u64 dt) (double_of_u64 1000000000) in
       number = fmt_f 6 sec ∧ decimal_with 6 number ∧
       unit_name = str "s").
Proof.
  apply (C8_timer_report_tiers "main.c" 9 "io" env_later (clog_set_level CLOG_DEBUG timing_io)).
  - split; reflexivity.
  - exists (started (clog_hash64_ "io") 1000). split; [left|split; reflexivity].
Defined.


(** C9. The key of a slot is the 64-bit FNV-1a fold of the bytes of the
    label (xor, then multiplication by the FNV prime modulo [2^64], from the
    offset basis written in the header), and slots are matched by this key
    alone. For two labels with the same key, whatever their text: after a
    start with the first, an end with the second finds the slot of the first,
    releases it and reports the time elapsed since the start of the first;
    and a start with the second would take over that same slot instead of a
    new one, so occupied slots count distinct keys. *)
Theorem C9_slots_matched_by_hash (file : string) (line : Z) (l1 l2 : string)
    (env1 env2 : clog_env) (st : state) :
  wf_state st →
  clog_hash64_ l1 = clog_hash64_ l2 →
  (∃ s, s ∈ g_timers st ∧ (used s = false ∨ key s = clog_hash64_ l1)) →
  clog_hash64_ l1 = fold_left fnv1a_step (c_str l1) 1469598103934665603%Z ∧
  ∃ idx st1 st2,
    clogp_timer_start_ file line l1 env1 st = Some st1 ∧
    g_timers st1 !! idx = Some (started (clog_hash64_ l1) (now_ns env1)) ∧
    clog_timer_find_slot_ (g_timers st1) (clog_hash64_ l2) = Z.of_nat idx ∧
    clogp_timer_end_ file line l2 env2 st1 = Some st2 ∧
    g_timers st2
      = <[idx := released (started (clog_hash64_ l1) (now_ns env1))]> (g_timers st1) ∧
    occupied (g_timers st2) + 1 = occupied (g_timers st1) ∧
    clog_log_file_line_ CLOG_DEBUG file line (Some "timer"%string)
      (Text (timer_report_text ((now_ns env2 - now_ns env1) mod 2 ^ 64) l2)) env2
      (set_timers st1 (g_timers st2)) = Some st2 ∧
    ∃ st2', clogp_timer_start_ file line l2 env2 st1 = Some st2' ∧
      g_timers st2' = <[idx := started (clog_hash64_ l1) (now_ns env2)]> (g_timers st1) ∧
      occupied (g_timers st2') = occupied (g_timers st1).
Proof.
  intros Hwf Heq Hroom. pose proof Hwf as [Hb Ht].
  split; [apply clog_hash64_loop_fold|].
  destruct (clogp_timer_start_records file line l1 env1 st Hwf Hroom)
    as (i & old & Hold & Hstart & Hfind & _).
  pose proof (lookup_lt_Some _ _ _ Hold) as Hlt.
  set (slot1 := started (clog_hash64_ l1) (now_ns env1)) in *.
  set (st1 := set_timers st (<[i := slot1]> (g_timers st))) in *.
  assert (g_timers st1 !! i = Some slot1) as Hslot
    by (by apply list_lookup_insert_eq).
  assert (clog_timer_find_slot_ (g_timers st1) (clog_hash64_ l2) = Z.of_nat i) as Hfind2
    by (by rewrite <-Heq).
  set (st1' := set_timers st1 (<[i := released slot1]> (g_timers st1))).
  assert (wf_state st1') as Hwf1'.
  { split; [done|]. cbn [g_timers set_timers st1' st1]. by rewrite !length_insert. }
  destruct (clog_log_outcome CLOG_DEBUG file line (Some "timer"%string)
              (Text (timer_report_text ((now_ns env2 - now_ns env1) mod 2 ^ 64) l2))
              env2 st1' Hwf1') as (st2 & Hlog & _ & Htim & _).
  exists i, st1, st2. split; [done|]. split; [done|]. split; [done|].
  split; [by rewrite (clogp_timer_end_hit _ _ _ _ _ i slot1)|].
  split; [done|]. split.
  { rewrite Htim.
    pose proof (occupied_insert (g_timers st1) i slot1 (released slot1) Hslot) as Ho.
    cbn [used slot1 started released] in Ho. cbn [g_timers set_timers st1']. lia. }
  split; [by rewrite Htim|].
  eexists. split; [by apply clogp_timer_start_hit|]. cbn [g_timers set_timers].
  split; [by rewrite <-Heq|].
  pose proof (occupied_insert (g_timers st1) i slot1
                (started (clog_hash64_ l2) (now_ns env2)) Hslot) as Ho.
  cbn [used slot1 started] in Ho. lia.
Qed.

(** Two labels of thirteen characters with the same key. *)
Lemma C9_slots_matched_by_hash_witness :
  "eas4xot3i1unf"%string ≠ "0dc1knlicdmog"%string ∧
  clog_hash64_ "eas4xot3i1unf" = 11756758826962121163%Z ∧
  clog_hash64_ "eas4xot3i1unf" = fold_left fnv1a_step (c_str "eas4xot3i1unf") 1469598103934665603%Z ∧
  ∃ idx st1 st2,
    clogp_timer_start_ "main.c" 9 "eas4xot3i1unf" env0 initial_state = Some st1 ∧
    g_timers st1 !! idx = Some (started (clog_hash64_ "eas4xot3i1unf") (now_ns env0)) ∧
    clog_timer_find_slot_ (g_timers st1) (clog_hash64_ "0dc1knlicdmog") = Z.of_nat idx ∧
    clogp_timer_end_ "main.c" 9 "0dc1knlicdmog" env_later st1 = Some st2 ∧
    g_timers st2
      = <[idx := released (started (clog_hash64_ "eas4xot3i1unf") (now_ns env0))]>
          (g_timers st1) ∧
    occupied (g_timers st2) + 1 = occupied (g_timers st1) ∧
    clog_log_file_line_ CLOG_DEBUG "main.c" 9 (Some "timer"%string)
      (Text (timer_report_text ((now_ns env_later - now_ns env0) mod 2 ^ 64) "0dc1knlicdmog"))
      env_later (set_timers st1 (g_timers st2)) = Some st2 ∧
    ∃ st2', clogp_timer_start_ "main.c" 9 "0dc1knlicdmog" env_later st1 = Some st2' ∧
      g_timers st2'
        = <[idx := started (clog_hash64_ "eas4xot3i1unf") (now_ns env_later)]> (g_timers st1) ∧
      occupied (g_timers st2') = occupied (g_timers st1).
Proof.
  split; [discriminate|]. split; [vm_compute; reflexivity|].
  apply (C9_slots_matched_by_hash "main.c" 9 "eas4xot3i1unf" "0dc1knlicdmog"
           env0 env_later initial_state).
  - split; reflexivity.
  - vm_compute. reflexivity.
  - exists zero_slot. split; [left|left; reflexivity].
Defined.

(** C10. When a used slot holds the key of the label, an end releases that
    slot and only then runs the Debug-level log call, on the state with the
    slot already released. The table afterwards does not depend on the
    threshold: above Debug nothing is written (the trace and the buffer are
    as before) and the slot is released all the same; the next start for any
    label then finds a slot without reporting exhaustion. *)
Theorem C10_end_releases_slot (file : string) (line : Z) (label : string)
    (env : clog_env) (st : state) :
  wf_state st →
  (∃ s, s ∈ g_timers st ∧ used s = true ∧ key s = clog_hash64_ label) →
  ∃ idx old st',
    g_timers st !! idx = Some old ∧ used old = true ∧ key old = clog_hash64_ label ∧
    clogp_timer_end_ file line label env st = Some st' ∧
    clog_log_file_line_ CLOG_DEBUG file line (Some "timer"%string)
      (Text (timer_report_text ((now_ns env - t0 old) mod 2 ^ 64) label)) env
      (set_timers st (<[idx := released old]> (g_timers st))) = Some st' ∧
    g_timers st' = <[idx := released old]> (g_timers st) ∧
    g_timers st' !! idx = Some (released old) ∧
    occupied (g_timers st') + 1 = occupied (g_timers st) ∧
    ((level_int CLOG_DEBUG < g_lvl st)%Z →
       st' = set_timers st (<[idx := released old]> (g_timers st)) ∧
       trace st' = trace st ∧ g_buf st' = g_buf st) ∧
    (∀ lvl, ∃ st'', clogp_timer_end_ file line label env (clog_set_level lvl st) = Some st'' ∧
                    g_timers st'' = g_timers st') ∧
    (∀ file2 line2 label2 env2,
       ∃ j st'', clogp_timer_start_ file2 line2 label2 env2 st' = Some st'' ∧
         g_timers st''
           = <[j := started (clog_hash64_ label2) (now_ns env2)]> (g_timers st') ∧
         trace st'' = trace st').
Proof.
  intros Hwf Hpresent. pose proof Hwf as [Hb Ht].
  destruct (clog_timer_find_slot_present _ _ Ht Hpresent) as (i & s & Hi & Hs & Hu & Hk).
  pose proof (lookup_lt_Some _ _ _ Hs) as Hlt.
  set (tbl' := <[i := released s]> (g_timers st)).
  assert (∀ st0, g_timers st0 = g_timers st → wf_state st0 →
            ∃ st', clogp_timer_end_ file line label env st0 = Some st' ∧
              clog_log_file_line_ CLOG_DEBUG file line (Some "timer"%string)
                (Text (timer_report_text ((now_ns env - t0 s) mod 2 ^ 64) label)) env
                (set_timers st0 tbl') = Some st' ∧
              wf_state st' ∧ g_timers st' = tbl' ∧
              ((level_int CLOG_DEBUG < g_lvl st0)%Z → st' = set_timers st0 tbl')) as Hend.
  { intros st0 Htbl Hwf0.
    assert (wf_state (set_timers st0 tbl')) as Hwf0'.
    { destruct Hwf0 as [Hb0 _]. split; [done|].
      cbn [g_timers set_timers]. unfold tbl'. by rewrite length_insert. }
    destruct (clog_log_outcome CLOG_DEBUG file line (Some "timer"%string)
                (Text (timer_report_text ((now_ns env - t0 s) mod 2 ^ 64) label)) env
                (set_timers st0 tbl') Hwf0') as (st' & Hlog & Hwf' & Htim & _ & Hdrop).
    exists st'. split; [|done].
    rewrite (clogp_timer_end_hit _ _ _ _ _ i s) by (by rewrite Htbl).
    by rewrite Htbl. }
  destruct (Hend st eq_refl Hwf) as (st' & Hst' & Hlog & Hwf' & Htim & Hdrop).
  exists i, s, st'. split; [done|]. split; [done|]. split; [done|]. split; [done|].
  split; [done|]. split; [done|].
  split; [rewrite Htim; by apply list_lookup_insert_eq|]. split.
  { rewrite Htim. pose proof (occupied_insert (g_timers st) i s (released s) Hs) as Ho.
    rewrite Hu in Ho. cbn [used released] in Ho. unfold tbl'. lia. }
  split; [intros Hl; by rewrite (Hdrop Hl)|]. split.
  - intros lvl. destruct (Hend (clog_set_level lvl st) eq_refl) as (st'' & H'' & _ & _ & Ht'' & _).
    { by split. }
    exists st''. split; [done|]. by rewrite Ht'', Htim.
  - intros file2 line2 label2 env2.
    destruct (clogp_timer_start_records file2 line2 label2 env2 st' Hwf')
      as (j & old & _ & Hstart & _).
    { exists (released s). split; [|by left].
      rewrite Htim. apply list_elem_of_lookup. exists i. by apply list_lookup_insert_eq. }
    eexists j, _. split; [done|]. done.
Qed.

Lemma C10_end_releases_slot_witness :
  ∃ idx old st',
    g_timers timing_io !! idx = Some old ∧ used old = true ∧ key old = clog_hash64_ "io"%string ∧
    clogp_timer_end_ "main.c"%string 9%Z "io"%string env_later timing_io = Some st' ∧
    clog_log_file_line_ CLOG_DEBUG "main.c"%string 9%Z (Some "timer"%string)
      (Text (timer_report_text ((now_ns env_later - t0 old) mod 2 ^ 64) "io"%string)) env_later
      (set_timers timing_io (<[idx := released old]> (g_timers timing_io))) = Some st' ∧
    g_timers st' = <[idx := released old]> (g_timers timing_io) ∧
    g_timers st' !! idx = Some (released old) ∧
    occupied (g_timers st') + 1 = occupied (g_timers timing_io) ∧
    ((level_int CLOG_DEBUG < g_lvl timing_io)%Z →
       st' = set_timers timing_io (<[idx := released old]> (g_timers timing_io)) ∧
       trace st' = trace timing_io ∧ g_buf st' = g_buf timing_io) ∧
    (∀ lvl, ∃ st'', clogp_timer_end_ "main.c"%string 9%Z "io"%string env_later (clog_set_level lvl timing_io) = Some st'' ∧
                    g_timers st'' = g_timers st') ∧
    (∀ file2 line2 label2 env2,
       ∃ j st'', clogp_timer_start_ file2 line2 label2 env2 st' = Some st'' ∧
         g_timers st''
           = <[j := started (clog_hash64_ label2) (now_ns env2)]> (g_timers st') ∧
         trace st'' = trace st').
Proof.
  apply (C10_end_releases_slot "main.c" 9 "io" env_later timing_io).
  - split; reflexivity.
  - exists (started (clog_hash64_ "io") 1000). split; [left|split; reflexivity].
Defined.

End Claims.

(** * Further properties of the code *)

(** ** Records *)

Section MoreRecords.
Local Open Scope nat_scope.

Lemma last_str_space (l : list ascii) (c : ascii) :
  last (l ++ [c; " "%char]) = Some " "%char.
Proof. by rewrite last_app. Qed.

Lemma prefix_text_unfold lvl file line group env :
  prefix_text lvl file line group env
  = timestamp_text env ++ level_text env lvl ++ tid_text env
      ++ site_text (clog_basename_ file) line ++ group_field group.
Proof. reflexivity. Qed.

(** Every prefix ends in a space: after the call site or after the group. *)
Lemma prefix_text_last lvl file line group env :
  last (prefix_text lvl file line group env) = Some " "%char.
Proof.
  rewrite prefix_text_unfold.
  assert (last (site_text (clog_basename_ file) line) = Some " "%char) as Hsite.
  { unfold site_text. destruct CLOG_WITH_LINE.
    - rewrite !app_assoc. apply last_str_space.
    - rewrite !app_assoc. apply last_str_space. }
  assert (last (site_text (clog_basename_ file) line ++ group_field group)
          = Some " "%char) as Hsg.
  { unfold group_field. destruct group as [g|]; [destruct (deref_nonzero g)|].
    - rewrite !app_assoc. apply last_str_space.
    - by rewrite app_nil_r.
    - by rewrite app_nil_r. }
  rewrite !app_assoc, <-(app_assoc _ (site_text _ _)), last_app, Hsg. done.
Qed.

Lemma ends_with_newline_app (l m : list ascii) :
  ends_with_newline (l ++ m)
  = match m with [] => ends_with_newline l | _ => ends_with_newline m end.
Proof.
  unfold ends_with_newline. rewrite last_app. destruct m as [|c m]; [done|].
  destruct (last (c :: m)) eqn:E; [done|]. by apply last_None in E.
Qed.

(** The record of a call whose text fits in the buffer. *)
Lemma record_of_fits lvl file line group msg env :
  length (prefix_text lvl file line group env) + length (msg_text msg) + 1 < CLOG_LINE_MAX →
  record_of lvl file line group msg env
  = prefix_text lvl file line group env ++ msg_text msg
      ++ (if ends_with_newline (msg_text msg) then [] else [NL]).
Proof.
  intros Hfit. unfold record_of, content_of, kept.
  rewrite take_ge by (rewrite length_app; lia).
  unfold line_of. rewrite ends_with_newline_app.
  assert (ends_with_newline (prefix_text lvl file line group env) = false) as Hp.
  { unfold ends_with_newline. by rewrite prefix_text_last. }
  destruct (msg_text msg) as [|c m] eqn:Em.
  - rewrite Hp, app_nil_r. cbn [length] in Hfit.
    destruct (Nat.ltb_spec (length (prefix_text lvl file line group env) + 1)
                CLOG_LINE_MAX); [done|lia].
  - destruct (ends_with_newline (c :: m)); [by rewrite app_nil_r|].
    rewrite length_app.
    destruct (Nat.ltb_spec (length (prefix_text lvl file line group env)
                            + length (c :: m) + 1) CLOG_LINE_MAX); [|lia].
    by rewrite <-app_assoc.
Qed.

(** X1. The output format. A call that passes the threshold and whose text
    fits in the line buffer writes one record: the timestamp, the level tag,
    the thread id, the call site with the base name of the file, the group
    in brackets when the group pointer is not NULL and the group is not
    empty, the message, and a newline unless the message already ends in
    one. An empty message, or one whose expansion failed, gives the prefix
    and the newline. *)
Theorem X1_record_format (lvl : clog_level) (file : string) (line : Z)
    (group : option string) (msg : formatted) (env : clog_env) (st : state) :
  wf_state st → (g_lvl st ≤ level_int lvl)%Z →
  length (timestamp_text env ++ level_text env lvl ++ tid_text env
            ++ site_text (clog_basename_ file) line ++ group_field group)
    + length (msg_text msg) + 1 < CLOG_LINE_MAX →
  ∃ st', clog_log_file_line_ lvl file line group msg env st = Some st' ∧
    records (new_events st st')
    = [timestamp_text env ++ level_text env lvl ++ tid_text env
         ++ site_text (clog_basename_ file) line ++ group_field group
         ++ msg_text msg ++ (if ends_with_newline (msg_text msg) then [] else [NL])].
Proof.
  intros Hwf Hlvl Hfit. rewrite <-prefix_text_unfold in Hfit.
  destruct (clog_log_outcome lvl file line group msg env st Hwf)
    as (st' & Hst & _ & _ & Hpass & _).
  exists st'. split; [done|]. destruct (Hpass Hlvl) as [_ ->].
  rewrite record_of_fits by done. rewrite prefix_text_unfold.
  by rewrite <-!app_assoc.
Qed.

Lemma X1_record_format_witness :
  ∃ st', clog_log_file_line_ CLOG_WARN "src/net/link.c" 42 (Some "net"%string)
           (Text (str "link down")) env0 initial_state = Some st' ∧
    records (new_events initial_state st')
    = [str "2025-01-02 03:04:05.006 [WARN]" ++ [TAB]
         ++ str "(tid:42) <link.c:42> [net] link down" ++ [NL]].
Proof.
  destruct (X1_record_format CLOG_WARN "src/net/link.c" 42 (Some "net"%string)
              (Text (str "link down")) env0 initial_state) as (st' & Hst & Hrec).
  - split; reflexivity.
  - vm_compute. discriminate.
  - vm_compute. lia.
  - exists st'. split; [exact Hst|]. rewrite Hrec. vm_compute. reflexivity.
Defined.

(** One call of the front end, with everything it leaves unchanged. *)
Lemma clog_log_step lvl file line group msg env st :
  wf_state st →
  ∃ st', clog_log_file_line_ lvl file line group msg env st = Some st' ∧
    wf_state st' ∧ g_timers st' = g_timers st ∧ g_lvl st' = g_lvl st ∧
    g_fd st' = g_fd st ∧
    trace st' = trace st ++
      (if (g_lvl st <=? level_int lvl)%Z
       then emission lvl (g_fd st) (record_of lvl file line group msg env) else []).
Proof.
  intros Hwf. pose proof Hwf as [Hb Ht].
  unfold clog_log_file_line_, clog_vlog_file_line_.
  destruct (Z.leb_spec (g_lvl st) (level_int lvl)) as [Hge|Hlt].
  - destruct (clog_emit_writes lvl file line group msg env st Hb Hge)
      as (buf' & -> & Hl & _).
    eexists. split; [done|]. done.
  - rewrite clog_emit_below by done. exists st. rewrite app_nil_r. done.
Qed.

Lemma run_calls_step cs : ∀ st,
  wf_state st →
  ∃ st', run_calls cs st = Some st' ∧ wf_state st' ∧ g_timers st' = g_timers st ∧
    g_lvl st' = g_lvl st ∧ g_fd st' = g_fd st ∧
    ∃ es, trace st' = trace st ++ es ∧
      records es = record_of_call <$> List.filter (passes (g_lvl st)) cs.
Proof.
  induction cs as [|c cs IH]; intros st Hwf.
  - exists st. split; [done|]. split; [done|]. split; [done|]. split; [done|].
    split; [done|]. exists []. by rewrite app_nil_r.
  - cbn [run_calls].
    destruct (clog_log_step (c_lvl c) (c_file c) (c_line c) (c_group c) (c_msg c)
                (c_env c) st Hwf) as (st1 & -> & Hwf1 & Ht1 & Hl1 & Hf1 & Htr1).
    cbn [mbind option_bind].
    destruct (IH st1 Hwf1) as (st' & Hrun & Hwf' & Ht' & Hl' & Hf' & es & Htr' & Hrec).
    exists st'. split; [done|]. split; [done|].
    split; [congruence|]. split; [congruence|]. split; [congruence|].
    eexists. split; [rewrite Htr', Htr1, <-app_assoc; reflexivity|].
    unfold records in *. rewrite omap_app, Hrec, Hl1.
    cbn [List.filter]. unfold passes at 2.
    destruct (g_lvl st <=? level_int (c_lvl c))%Z; [|done].
    pose proof (records_emission (c_lvl c) (g_fd st) (record_of_call c)) as He.
    unfold records in He. unfold record_of_call at 1 in He. by rewrite He.
Qed.

(** X2. A thread's calls one after the other write, in order, exactly the
    records of the calls that pass the threshold, each the record the call
    would write on its own: the line buffer is reused but nothing of an
    earlier record reaches a later one, and a filtered call leaves nothing.
    Every record ends in a newline and has at most [CLOG_LINE_MAX - 1]
    bytes; threshold, descriptor and timers are as before. *)
Theorem X2_calls_in_sequence (cs : list log_call) (st : state) :
  wf_state st →
  ∃ st', run_calls cs st = Some st' ∧ wf_state st' ∧
    records (new_events st st') = record_of_call <$> List.filter (passes (g_lvl st)) cs ∧
    Forall (λ r, last r = Some NL ∧ length r ≤ CLOG_LINE_MAX - 1)
      (records (new_events st st')) ∧
    g_lvl st' = g_lvl st ∧ g_fd st' = g_fd st ∧ g_timers st' = g_timers st.
Proof.
  intros Hwf.
  destruct (run_calls_step cs st Hwf) as (st' & Hrun & Hwf' & Ht & Hl & Hf & es & Htr & Hrec).
  exists st'. split; [done|]. split; [done|].
  rewrite (new_events_add _ _ _ Htr), Hrec. split; [done|]. split; [|done].
  apply Forall_fmap, Forall_forall. intros c _. cbn.
  split; [apply last_line_of|].
  apply length_line_of; [apply CLOG_LINE_MAX_ge|apply length_content_of].
Qed.

Lemma X2_calls_in_sequence_witness :
  ∃ st',
    run_calls
      [ {| c_lvl := CLOG_INFO; c_file := "a.c"; c_line := 1; c_group := None;
           c_msg := Text (str "line1"); c_env := env0 |};
        {| c_lvl := CLOG_DEBUG; c_file := "a.c"; c_line := 2; c_group := None;
           c_msg := Text (str "hidden"); c_env := env0 |};
        {| c_lvl := CLOG_ERROR; c_file := "a.c"; c_line := 3; c_group := None;
           c_msg := Text (str "boom"); c_env := env_later |} ] initial_state = Some st' ∧
    records (new_events initial_state st')
    = [ str "2025-01-02 03:04:05.006 [INFO]" ++ [TAB] ++ str "(tid:42) <a.c:1> line1" ++ [NL];
        str "2025-01-02 03:04:05.011 [ERROR]" ++ [TAB] ++ str "(tid:42) <a.c:3> boom" ++ [NL] ].
Proof.
  destruct (X2_calls_in_sequence
      [ {| c_lvl := CLOG_INFO; c_file := "a.c"; c_line := 1; c_group := None;
           c_msg := Text (str "line1"); c_env := env0 |};
        {| c_lvl := CLOG_DEBUG; c_file := "a.c"; c_line := 2; c_group := None;
           c_msg := Text (str "hidden"); c_env := env0 |};
        {| c_lvl := CLOG_ERROR; c_file := "a.c"; c_line := 3; c_group := None;
           c_msg := Text (str "boom"); c_env := env_later |} ] initial_state)
    as (st' & Hrun & _ & Hrec & _).
  - split; reflexivity.
  - exists st'. split; [exact Hrun|]. rewrite Hrec. vm_compute. reflexivity.
Defined.

(** X3. The write discipline. A call that passes the threshold acquires the
    lock, hands the record to the descriptor that [clog_set_fd] installed,
    and releases the lock; a Fatal call then flushes that same descriptor,
    after the lock is released, and no other level flushes. Installing a
    descriptor changes nothing else. *)
Theorem X3_write_discipline (lvl : clog_level) (file : string) (line : Z)
    (group : option string) (msg : formatted) (env : clog_env) (fd : Z) (st : state) :
  wf_state st → (g_lvl st ≤ level_int lvl)%Z →
  ∃ st' rec,
    clog_log_file_line_ lvl file line group msg env (clog_set_fd fd st) = Some st' ∧
    new_events st st'
    = [EvLock; EvWriteAll fd rec; EvUnlock]
        ++ match lvl with CLOG_FATAL => [EvFsync fd] | _ => [] end ∧
    clog_get_fd st' = fd ∧ clog_get_level st' = clog_get_level st ∧
    g_timers st' = g_timers st.
Proof.
  intros Hwf Hlvl.
  assert (wf_state (clog_set_fd fd st)) as Hwf' by (destruct Hwf; by split).
  destruct (clog_log_step lvl file line group msg env (clog_set_fd fd st) Hwf')
    as (st' & Hst & _ & Ht & Hl & Hf & Htr).
  exists st', (record_of lvl file line group msg env). split; [done|].
  cbn [clog_set_fd g_lvl g_fd trace g_timers] in *.
  destruct (Z.leb_spec (g_lvl st) (level_int lvl)); [|lia].
  split; [|done].
  rewrite (new_events_add _ _ _ Htr). unfold emission. by destruct lvl.
Qed.

Lemma X3_write_discipline_witness :
  ∃ st' rec,
    clog_log_file_line_ CLOG_FATAL "main.c" 7 None (Text (str "giving up")) env0
      (clog_set_fd 5 initial_state) = Some st' ∧
    new_events initial_state st' = [EvLock; EvWriteAll 5 rec; EvUnlock; EvFsync 5] ∧
    clog_get_fd st' = 5%Z ∧ clog_get_level st' = clog_get_level initial_state ∧
    g_timers st' = g_timers initial_state.
Proof.
  apply (X3_write_discipline CLOG_FATAL "main.c" 7 None (Text (str "giving up")) env0 5
           initial_state).
  - split; reflexivity.
  - vm_compute. discriminate.
Defined.

(** X4. When prefix and message leave no room for the newline, that is when
    they have [CLOG_LINE_MAX - 1] bytes or more, the record is exactly
    [CLOG_LINE_MAX - 1] bytes: the first [CLOG_LINE_MAX - 2] bytes of prefix
    and message, then the newline. Whatever followed is dropped, and nothing
    marks the cut. *)
Theorem X4_record_at_capacity (lvl : clog_level) (file : string) (line : Z)
    (group : option string) (msg : formatted) (env : clog_env) (st : state) :
  wf_state st → (g_lvl st ≤ level_int lvl)%Z →
  CLOG_LINE_MAX - 1
    ≤ length (timestamp_text env ++ level_text env lvl ++ tid_text env
                ++ site_text (clog_basename_ file) line ++ group_field group)
      + length (msg_text msg) →
  ∃ st' rec, clog_log_file_line_ lvl file line group msg env st = Some st' ∧
    records (new_events st st') = [rec] ∧
    length rec = CLOG_LINE_MAX - 1 ∧
    rec = take (CLOG_LINE_MAX - 2)
            (timestamp_text env ++ level_text env lvl ++ tid_text env
               ++ site_text (clog_basename_ file) line ++ group_field group
               ++ msg_text msg) ++ [NL].
Proof.
  intros Hwf Hlvl Hlong. rewrite <-prefix_text_unfold in Hlong.
  pose proof CLOG_LINE_MAX_ge as Hcap.
  destruct (clog_log_outcome lvl file line group msg env st Hwf)
    as (st' & Hst & _ & _ & Hpass & _).
  exists st', (record_of lvl file line group msg env). split; [done|].
  destruct (Hpass Hlvl) as [_ ->]. split; [done|].
  set (txt := prefix_text lvl file line group env ++ msg_text msg).
  assert (CLOG_LINE_MAX - 1 ≤ length txt) as Hlen by (unfold txt; rewrite length_app; lia).
  assert (record_of lvl file line group msg env = take (CLOG_LINE_MAX - 2) txt ++ [NL])
    as ->.
  { unfold record_of, content_of. fold txt.
    assert (length (kept CLOG_LINE_MAX txt) = CLOG_LINE_MAX - 1) as Hfull
      by (rewrite length_kept; lia).
    assert (take (CLOG_LINE_MAX - 2) (kept CLOG_LINE_MAX txt)
            = take (CLOG_LINE_MAX - 2) txt) as Htk
      by (unfold kept; rewrite take_take; f_equal; lia).
    unfold line_of. destruct (ends_with_newline (kept CLOG_LINE_MAX txt)) eqn:E.
    - unfold ends_with_newline in E.
      destruct (last (kept CLOG_LINE_MAX txt)) as [c|] eqn:El; [|done].
      apply Ascii.eqb_eq in E. subst c. apply last_Some in El as [l' El].
      rewrite <-Htk, El. rewrite El, length_app in Hfull. cbn [length] in Hfull.
      by rewrite take_app_length' by lia.
    - destruct (Nat.ltb_spec (length (kept CLOG_LINE_MAX txt) + 1) CLOG_LINE_MAX); [lia|].
      by rewrite Htk. }
  split.
  - rewrite length_app, length_take. cbn [length]. lia.
  - unfold txt. rewrite prefix_text_unfold. by rewrite <-!app_assoc.
Qed.

Lemma X4_record_at_capacity_witness :
  ∃ st' rec,
    clog_log_file_line_ CLOG_INFO "main.c" 7 None (Text (repeat "A"%char 972)) env0
      initial_state = Some st' ∧
    records (new_events initial_state st') = [rec] ∧
    length rec = CLOG_LINE_MAX - 1 ∧
    rec = take (CLOG_LINE_MAX - 2)
            (timestamp_text env0 ++ level_text env0 CLOG_INFO ++ tid_text env0
               ++ site_text (clog_basename_ "main.c") 7 ++ group_field None
               ++ msg_text (Text (repeat "A"%char 972))) ++ [NL].
Proof.
  apply (X4_record_at_capacity CLOG_INFO "main.c" 7 None (Text (repeat "A"%char 972)) env0
           initial_state).
  - split; reflexivity.
  - vm_compute. discriminate.
  - vm_compute. lia.
Defined.

End MoreRecords.

(** ** Paths and keys *)

Section PathsAndKeys.
Local Open Scope nat_scope.

Lemma clog_basename_loop_spec s : ∀ b mid,
  c_str b = mid ++ c_str s → Forall (λ c, is_sep c = false) mid →
  ∃ dir, c_str b = dir ++ c_str (clog_basename_loop s b) ∧
    Forall (λ c, is_sep c = false) (c_str (clog_basename_loop s b)) ∧
    (dir = [] ∨ ∃ d c, dir = d ++ [c] ∧ is_sep c = true).
Proof.
  induction s as [|c s IH]; intros b mid Hb Hmid; cbn [clog_basename_loop].
  - exists []. cbn [c_str] in Hb. rewrite app_nil_r in Hb. rewrite Hb.
    split; [done|]. split; [done|]. by left.
  - cbn [c_str] in Hb. destruct (Ascii.eqb c NUL) eqn:En.
    + exists []. rewrite app_nil_r in Hb. rewrite Hb.
      split; [done|]. split; [done|]. by left.
    + fold (is_sep c). destruct (is_sep c) eqn:Es.
      * destruct (IH s [] eq_refl ltac:(constructor)) as (dir & Hd & Hns & Hdir).
        exists (mid ++ c :: dir). split; [by rewrite Hb, Hd, <-app_assoc|].
        split; [done|]. right. destruct Hdir as [->|(d & c' & -> & Hc')].
        -- by exists mid, c.
        -- exists (mid ++ c :: d), c'. split; [by rewrite <-app_assoc|done].
      * apply (IH b (mid ++ [c])).
        -- by rewrite Hb, <-app_assoc.
        -- apply Forall_app. split; [done|]. by constructor.
Qed.

Lemma clog_basename_loop_nosep s : ∀ b,
  Forall (λ c, is_sep c = false) (c_str s) → clog_basename_loop s b = b.
Proof.
  induction s as [|c s IH]; intros b H; cbn [clog_basename_loop]; [done|].
  cbn [c_str] in H. destruct (Ascii.eqb c NUL); [done|].
  fold (is_sep c). apply Forall_cons in H as [-> H]. by apply IH.
Qed.

(** X5. The base name is the part of the path after its last separator,
    ['/'] or a backslash: the path is a directory part followed by the base
    name, the base name contains no separator, and the directory part is
    empty or ends in a separator. A path without separator is its own base
    name, so taking the base name twice changes nothing. *)
Theorem X5_basename_after_last_separator (p : string) :
  (∃ dir, c_str p = dir ++ c_str (clog_basename_ p) ∧
     (dir = [] ∨ ∃ d c, dir = d ++ [c] ∧ is_sep c = true)) ∧
  Forall (λ c, is_sep c = false) (c_str (clog_basename_ p)) ∧
  (Forall (λ c, is_sep c = false) (c_str p) → clog_basename_ p = p) ∧
  clog_basename_ (clog_basename_ p) = clog_basename_ p.
Proof.
  destruct (clog_basename_loop_spec p p [] eq_refl ltac:(constructor))
    as (dir & Hd & Hns & Hdir).
  fold (clog_basename_ p) in Hd, Hns.
  split; [by exists dir|]. split; [done|].
  split; [intros H; by apply clog_basename_loop_nosep|].
  by apply clog_basename_loop_nosep.
Qed.

Lemma fold_fnv1a_range l : ∀ h, (0 ≤ h < 2 ^ 64)%Z →
  (0 ≤ fold_left fnv1a_step l h < 2 ^ 64)%Z.
Proof.
  induction l as [|c l IH]; intros h Hh; [done|].
  cbn [fold_left]. apply IH. unfold fnv1a_step. apply Z.mod_pos_bound. lia.
Qed.

(** X6. The key of a label is a 64-bit value and is read from the bytes
    before the first NUL only: labels that agree up to there have the same
    key, so whatever follows a label's terminator in memory plays no part.
    The empty label has the offset basis as its key. *)
Theorem X6_key_of_label (label : string) :
  (0 ≤ clog_hash64_ label < 2 ^ 64)%Z ∧
  (∀ label', c_str label = c_str label' → clog_hash64_ label = clog_hash64_ label') ∧
  (∀ rest, c_str label = str label →
     clog_hash64_ (label ++ String NUL rest) = clog_hash64_ label) ∧
  (c_str label = [] → clog_hash64_ label = 1469598103934665603%Z).
Proof.
  unfold clog_hash64_. rewrite clog_hash64_loop_fold.
  split; [apply fold_fnv1a_range; lia|]. split; [|split].
  - intros l' H. by rewrite clog_hash64_loop_fold, H.
  - intros rest Heq. rewrite clog_hash64_loop_fold. f_equal.
    induction label as [|a l IH]; [done|].
    cbn [c_str str list_ascii_of_string String.append] in *.
    destruct (Ascii.eqb a NUL); [done|]. f_equal. apply IH. by injection Heq.
  - by intros ->.
Qed.

End PathsAndKeys.

(** ** The retry loop *)

Section WriteAll.
Local Open Scope nat_scope.

Lemma clog_write_all_loop_0 os p : clog_write_all_loop os p 0 = Some (0%Z, []).
Proof. by destruct os. Qed.

(** X7. Whenever the retry loop returns, it returns [0] and the system has
    accepted exactly the [n] bytes, in order and once each, whatever the
    sizes of the partial writes; or it returns [-1] and the system has
    accepted a proper part from the start of the bytes. No byte is written
    twice or out of order. *)
Theorem X7_write_all_outcome (os : list write_ret) (p : list ascii) (n : nat)
    (rc : Z) (chunks : list (list ascii)) :
  n ≤ length p → clog_write_all_loop os p n = Some (rc, chunks) →
  (rc = 0%Z ∧ concat chunks = take n p) ∨
  (rc = (-1)%Z ∧ ∃ k, k < n ∧ concat chunks = take k p).
Proof.
  revert p n rc chunks.
  induction os as [|a os IH]; intros p n rc chunks Hn; cbn [clog_write_all_loop].
  - destruct (Nat.eqb_spec n 0) as [->|]; [|done].
    intros [= <- <-]. left. by rewrite take_0.
  - destruct (Nat.eqb_spec n 0) as [->|Hn0].
    { intros [= <- <-]. left. by rewrite take_0. }
    destruct (Z.ltb_spec 0 (wr_r a)) as [Hpos|Hnp].
    + set (r := Z.to_nat (wr_r a)). assert (0 < r) by (unfold r; lia).
      destruct (Nat.leb_spec r n) as [Hr|]; [|done].
      destruct (clog_write_all_loop os (drop r p) (n - r)) as [[rc' chunks']|] eqn:E;
        [|done].
      cbn [mbind option_bind]. intros [= <- <-].
      destruct (IH (drop r p) (n - r) rc' chunks') as [[-> Hc]|(-> & k & Hk & Hc)];
        [rewrite length_drop; lia|done| |].
      * left. split; [done|]. cbn [concat]. rewrite Hc, take_take_drop. f_equal. lia.
      * right. split; [done|]. exists (r + k). split; [lia|].
        cbn [concat]. by rewrite Hc, take_take_drop.
    + destruct ((wr_r a <? 0)%Z && wr_eintr a); [by apply IH|].
      intros [= <- <-]. right. split; [done|]. exists 0. split; [lia|]. by rewrite take_0.
Qed.

Lemma X7_write_all_outcome_witness :
  clog_write_all_loop
    [ {| wr_r := 3; wr_eintr := false |}; {| wr_r := -1; wr_eintr := true |};
      {| wr_r := 2; wr_eintr := false |} ] (str "hello") 5
  = Some (0%Z, [str "hel"; str "lo"]) ∧
  ((0%Z = 0%Z ∧ concat [str "hel"; str "lo"] = take 5 (str "hello")) ∨
   (0%Z = (-1)%Z ∧ ∃ k, k < 5 ∧ concat [str "hel"; str "lo"] = take k (str "hello"))).
Proof.
  split; [reflexivity|].
  apply (X7_write_all_outcome
           [ {| wr_r := 3; wr_eintr := false |}; {| wr_r := -1; wr_eintr := true |};
             {| wr_r := 2; wr_eintr := false |} ] (str "hello") 5).
  - vm_compute. lia.
  - reflexivity.
Defined.

(** X8. Interrupted calls are retried with the same bytes and leave no
    mark: the loop run against the answers of the system is the loop run
    against those answers with every [EINTR] failure removed. Any other
    failure, and a return value of zero, ends the loop with [-1]. *)
Theorem X8_write_all_retries_eintr (os : list write_ret) (p : list ascii) (n : nat) :
  clog_write_all_loop os p n
  = clog_write_all_loop (List.filter (λ a, negb (is_eintr a)) os) p n ∧
  (∀ a os', 0 < n → (wr_r a ≤ 0)%Z → is_eintr a = false →
     clog_write_all_loop (a :: os') p n = Some ((-1)%Z, [])).
Proof.
  split.
  - revert p n. induction os as [|a os IH]; intros p n; [done|].
    cbn [clog_write_all_loop List.filter]. unfold is_eintr at 1.
    destruct (Nat.eqb_spec n 0) as [->|Hn0].
    { by rewrite clog_write_all_loop_0. }
    destruct (Z.ltb_spec 0 (wr_r a)) as [Hpos|Hnp].
    + destruct (Z.ltb_spec (wr_r a) 0); [lia|]. cbn [andb negb clog_write_all_loop].
      destruct (Nat.eqb_spec n 0); [done|].
      destruct (Z.ltb_spec 0 (wr_r a)); [|lia].
      destruct (Z.to_nat (wr_r a) <=? n); [|done]. by rewrite IH.
    + destruct ((wr_r a <? 0)%Z && wr_eintr a) eqn:Ee; cbn [negb]; [apply IH|].
      cbn [clog_write_all_loop]. destruct (Nat.eqb_spec n 0); [done|].
      destruct (Z.ltb_spec 0 (wr_r a)); [lia|]. by rewrite Ee.
  - intros a os' Hn Hr He. cbn [clog_write_all_loop].
    destruct (Nat.eqb_spec n 0); [lia|].
    destruct (Z.ltb_spec 0 (wr_r a)); [lia|].
    unfold is_eintr in He. by rewrite He.
Qed.

End WriteAll.

(** ** The timer table over sequences of calls *)

Section MoreTimers.
Local Open Scope nat_scope.

Lemma find_seq_ext (p q : nat → bool) a n :
  (∀ j, a ≤ j < a + n → p j = q j) → find p (seq a n) = find q (seq a n).
Proof.
  revert a. induction n as [|n IH]; intros a H; [done|].
  cbn [seq find]. rewrite (H a) by lia. destruct (q a); [done|].
  apply IH. intros j Hj. apply H. lia.
Qed.

(** Replacing a slot that does not match [k] by another one that does not
    match [k] is invisible to the scan for [k]. *)
Lemma clog_timer_find_slot_other tbl i s s' k :
  tbl !! i = Some s →
  used s && (key s =? k)%Z = false → used s' && (key s' =? k)%Z = false →
  clog_timer_find_slot_ (<[i := s']> tbl) k = clog_timer_find_slot_ tbl k.
Proof.
  intros Hi Hs Hs'. unfold clog_timer_find_slot_.
  rewrite (find_seq_ext (slot_matches (<[i := s']> tbl) k) (slot_matches tbl k)); [done|].
  intros j _. unfold slot_matches. destruct (decide (j = i)) as [->|Hne].
  - rewrite list_lookup_insert_eq by (by eapply lookup_lt_Some). by rewrite Hi, Hs, Hs'.
  - by rewrite list_lookup_insert_ne.
Qed.

Lemma keys_distinct_release tbl i s :
  tbl !! i = Some s → keys_distinct tbl → keys_distinct (<[i := released s]> tbl).
Proof.
  intros Hi Hd a b sa sb Ha Hb Hua Hub Hk.
  pose proof (lookup_lt_Some _ _ _ Hi) as Hlt.
  destruct (decide (a = i)) as [->|Hna].
  { rewrite list_lookup_insert_eq in Ha by done. by injection Ha as <-. }
  destruct (decide (b = i)) as [->|Hnb].
  { rewrite list_lookup_insert_eq in Hb by done. by injection Hb as <-. }
  rewrite list_lookup_insert_ne in Ha, Hb by done. by eapply Hd.
Qed.

Lemma keys_distinct_start tbl i k now :
  i < length tbl →
  (∀ j s, j ≠ i → tbl !! j = Some s → used s = true → key s ≠ k) →
  keys_distinct tbl → keys_distinct (<[i := started k now]> tbl).
Proof.
  intros Hlt Hothers Hd a b sa sb Ha Hb Hua Hub Hk.
  destruct (decide (a = i)) as [->|Hna]; destruct (decide (b = i)) as [->|Hnb]; [done| | |].
  - rewrite list_lookup_insert_eq in Ha by done. injection Ha as <-.
    rewrite list_lookup_insert_ne in Hb by done.
    by destruct (Hothers b sb Hnb Hb Hub).
  - rewrite list_lookup_insert_eq in Hb by done. injection Hb as <-.
    rewrite list_lookup_insert_ne in Ha by done.
    by destruct (Hothers a sa Hna Ha Hua).
  - rewrite list_lookup_insert_ne in Ha, Hb by done. by eapply Hd.
Qed.

Lemma slot_matches_false tbl k j s :
  slot_matches tbl k j = false → tbl !! j = Some s → used s = true → key s ≠ k.
Proof.
  unfold slot_matches. intros Hm Hj Hu Hk. rewrite Hj, Hu in Hm.
  cbn [andb] in Hm. apply Z.eqb_neq in Hm. done.
Qed.

Lemma keys_distinct_initial : keys_distinct (g_timers initial_state).
Proof.
  assert (∀ n i s, repeat zero_slot n !! i = Some s → s = zero_slot) as Hz.
  { induction n as [|n IH]; intros [|i] s; cbn [repeat]; [done..| |].
    - by intros [= <-].
    - apply IH. }
  intros a b sa sb Ha _ Hua _ _. cbn [g_timers initial_state] in Ha.
  apply Hz in Ha as ->. done.
Qed.

Lemma clogp_timer_start_distinct file line label env st :
  wf_state st → keys_distinct (g_timers st) →
  ∃ st', clogp_timer_start_ file line label env st = Some st' ∧ wf_state st' ∧
         keys_distinct (g_timers st').
Proof.
  intros Hwf Hd. pose proof Hwf as [Hb Ht].
  set (k := clog_hash64_ label).
  destruct (clog_timer_find_slot_cases (g_timers st) k) as [Hmiss|[i Hhit]].
  - destruct (clog_timer_free_slot_cases (g_timers st)) as [Hfull|[i Hfree]].
    + rewrite clogp_timer_start_full by done.
      destruct (clog_log_step CLOG_WARN file line (Some "timer"%string)
                  (Text no_free_slots_text) env st Hwf) as (st' & -> & Hwf' & Htim & _).
      exists st'. by rewrite Htim.
    + rewrite (clogp_timer_start_alloc _ _ _ _ _ i) by done.
      apply clog_timer_free_slot_hit in Hfree as (Hi & _ & _).
      eexists. split; [done|]. split.
      { split; [done|]. cbn [g_timers set_timers]. by rewrite length_insert. }
      cbn [g_timers set_timers]. apply keys_distinct_start; [lia| |done].
      intros j s _ Hj Hu. pose proof (lookup_lt_Some _ _ _ Hj).
      eapply slot_matches_false; [|done..].
      apply clog_timer_find_slot_miss; [done|lia].
  - rewrite (clogp_timer_start_hit _ _ _ _ _ i) by done.
    apply clog_timer_find_slot_hit in Hhit as (Hi & (s & Hs & Hu & Hk) & _).
    eexists. split; [done|]. split.
    { split; [done|]. cbn [g_timers set_timers]. by rewrite length_insert. }
    cbn [g_timers set_timers]. apply keys_distinct_start; [lia| |done].
    intros j s' Hne Hj Hu' Hk'. apply Hne.
    eapply (Hd j i s' s); try done. by rewrite Hk.
Qed.

Lemma clogp_timer_end_distinct file line label env st :
  wf_state st → keys_distinct (g_timers st) →
  ∃ st', clogp_timer_end_ file line label env st = Some st' ∧ wf_state st' ∧
         keys_distinct (g_timers st').
Proof.
  intros Hwf Hd. pose proof Hwf as [Hb Ht].
  set (k := clog_hash64_ label).
  destruct (clog_timer_find_slot_cases (g_timers st) k) as [Hmiss|[i Hhit]].
  - rewrite clogp_timer_end_miss by done.
    destruct (clog_log_step CLOG_WARN file line (Some "timer"%string)
                (Text (unknown_label_text label)) env st Hwf) as (st' & -> & Hwf' & Htim & _).
    exists st'. by rewrite Htim.
  - pose proof Hhit as Hhit'.
    apply clog_timer_find_slot_hit in Hhit' as (Hi & (s & Hs & Hu & Hk) & _).
    rewrite (clogp_timer_end_hit _ _ _ _ _ i s) by done.
    set (st1 := set_timers st (<[i := released s]> (g_timers st))).
    assert (wf_state st1) as Hwf1.
    { split; [done|]. cbn [g_timers set_timers st1]. by rewrite length_insert. }
    destruct (clog_log_step CLOG_DEBUG file line (Some "timer"%string)
                (Text (timer_report_text ((now_ns env - t0 s) mod U64) label)) env st1 Hwf1)
      as (st' & -> & Hwf' & Htim & _).
    exists st'. split; [done|]. split; [done|]. rewrite Htim.
    cbn [g_timers set_timers st1]. by apply keys_distinct_release.
Qed.

Lemma run_api_invariant cs : ∀ st,
  wf_state st → keys_distinct (g_timers st) →
  ∃ st', run_api cs st = Some st' ∧ wf_state st' ∧ keys_distinct (g_timers st').
Proof.
  induction cs as [|c cs IH]; intros st Hwf Hd; [by exists st|].
  cbn [run_api].
  assert (∃ st1, run_api_call c st = Some st1 ∧ wf_state st1 ∧ keys_distinct (g_timers st1))
    as (st1 & -> & Hwf1 & Hd1).
  { destruct c as [c|file line label env|file line label env|lvl|fd|env]; cbn [run_api_call].
    - destruct (clog_log_step (c_lvl c) (c_file c) (c_line c) (c_group c) (c_msg c)
                  (c_env c) st Hwf) as (st1 & -> & Hwf1 & Htim & _).
      exists st1. by rewrite Htim.
    - by apply clogp_timer_start_distinct.
    - by apply clogp_timer_end_distinct.
    - by eexists.
    - by eexists.
    - unfold clog_banner.
      destruct (clog_log_step CLOG_INFO "c-log.h" 665%Z (Some "clog"%string)
                  (Text (str "logger ready")) env st Hwf) as (st1 & -> & Hwf1 & Htim & _).
      exists st1. by rewrite Htim. }
  cbn [mbind option_bind]. by apply IH.
Qed.

Lemma run_api_app cs cs' st :
  run_api (cs ++ cs') st = st1 ← run_api cs st; run_api cs' st1.
Proof.
  revert st. induction cs as [|c cs IH]; intros st; [done|].
  cbn [run_api app]. destruct (run_api_call c st) as [st1|]; [|done].
  cbn [mbind option_bind]. apply IH.
Qed.

(** X9. Whatever sequence of log calls, timer starts and ends, threshold
    and descriptor changes and banners a thread makes from the initial
    state, every call completes, which it does only when all its stores to
    and loads from the line buffer are in bounds, and the state reached is
    the state in which every further call starts. In that state the buffer
    and the timer table have their declared sizes, every slot the scans
    read, [g_timers[0]] to [g_timers[CLOG_TIMERS_MAX - 1]], is a slot of
    the table, and each scan returns [-1] or the index of a slot of the
    table, so that the slot a start or an end writes lies in the table. No
    two used slots share a key, and at most [CLOG_TIMERS_MAX] are used. *)
Theorem X9_calls_stay_in_bounds (cs : list api_call) :
  ∃ st, run_api cs initial_state = Some st ∧
        (∀ cs', run_api (cs ++ cs') initial_state = run_api cs' st) ∧
        length (g_buf st) = CLOG_LINE_MAX ∧ length (g_timers st) = CLOG_TIMERS_MAX ∧
        (∀ i, i < CLOG_TIMERS_MAX → is_Some (g_timers st !! i)) ∧
        (∀ k, clog_timer_find_slot_ (g_timers st) k = (-1)%Z ∨
              ∃ i, clog_timer_find_slot_ (g_timers st) k = Z.of_nat i ∧
                   i < length (g_timers st)) ∧
        (clog_timer_free_slot_ (g_timers st) = (-1)%Z ∨
         ∃ i, clog_timer_free_slot_ (g_timers st) = Z.of_nat i ∧
              i < length (g_timers st)) ∧
        keys_distinct (g_timers st) ∧ occupied (g_timers st) ≤ CLOG_TIMERS_MAX.
Proof.
  destruct (run_api_invariant cs initial_state wf_initial_state keys_distinct_initial)
    as (st & Hrun & [Hb Ht] & Hd).
  exists st. split; [done|]. split.
  { intros cs'. by rewrite run_api_app, Hrun. }
  split; [done|]. split; [done|]. split.
  { intros i Hi. apply lookup_lt_is_Some. lia. }
  split.
  { intros k. destruct (clog_timer_find_slot_cases (g_timers st) k) as [Hm|[i Hi]];
      [by left|right].
    exists i. split; [done|]. apply clog_timer_find_slot_hit in Hi as [Hi _]. lia. }
  split.
  { destruct (clog_timer_free_slot_cases (g_timers st)) as [Hm|[i Hi]]; [by left|right].
    exists i. split; [done|]. apply clog_timer_free_slot_hit in Hi as [Hi _]. lia. }
  split; [done|]. rewrite <-Ht. apply occupied_le.
Qed.

Lemma key_absent_lookup tbl k :
  key_absent tbl k ↔ ∀ i s, tbl !! i = Some s → used s = true → key s ≠ k.
Proof.
  split.
  - intros H i s Hi. apply H. by eapply list_elem_of_lookup_2.
  - intros H s Hs. apply list_elem_of_lookup_1 in Hs as [i Hi]. by eapply H.
Qed.

Lemma key_absent_insert tbl i s' k :
  key_absent tbl k → (used s' = true → key s' ≠ k) → key_absent (<[i := s']> tbl) k.
Proof.
  rewrite !key_absent_lookup. intros H Hs' j s Hj.
  destruct (decide (j = i)) as [->|Hne].
  - destruct (decide (i < length tbl)).
    + rewrite list_lookup_insert_eq in Hj by done. by injection Hj as <-.
    + rewrite list_insert_ge in Hj by lia. by eapply H.
  - rewrite list_lookup_insert_ne in Hj by done. by eapply H.
Qed.

(** X10. A block timed by [CLOG_SCOPE_TIME] whose label is not running,
    with a free slot in the table, and whose body only logs (it completes
    and leaves the timer table alone): the start is silent; the end makes one
    Debug call of group [timer] whose message reports the difference of the
    two clock readings, modulo 2^64, and the label; afterwards the table
    has the same slots in use as before the block and the label is not
    running. *)
Theorem X10_scope_time_round_trip (file : string) (line : Z) (label : string)
    (env1 env2 : clog_env) (body : state → option state) (st : state) :
  wf_state st →
  key_absent (g_timers st) (clog_hash64_ label) →
  (∃ s, s ∈ g_timers st ∧ used s = false) →
  (∀ st1, wf_state st1 →
     ∃ st2, body st1 = Some st2 ∧ wf_state st2 ∧ g_timers st2 = g_timers st1) →
  ∃ st1 st2 st3 tbl,
    clogp_timer_start_ file line label env1 st = Some st1 ∧ trace st1 = trace st ∧
    body st1 = Some st2 ∧
    CLOG_SCOPE_TIME file line label env1 env2 body st = Some st3 ∧
    clog_log_file_line_ CLOG_DEBUG file line (Some "timer"%string)
      (Text (timer_report_text ((now_ns env2 - now_ns env1) mod 2 ^ 64) label)) env2
      (set_timers st2 tbl) = Some st3 ∧
    g_timers st3 = tbl ∧
    used <$> tbl = used <$> g_timers st ∧
    key_absent tbl (clog_hash64_ label).
Proof.
  intros Hwf Habs Hfree Hbody. pose proof Hwf as [Hb Ht].
  set (k := clog_hash64_ label).
  pose proof (clog_timer_find_slot_absent _ _ Habs) as Hmiss.
  destruct (clog_timer_free_slot_present _ Ht Hfree) as (i & s & Hfi & Hs & Hu).
  pose proof (lookup_lt_Some _ _ _ Hs) as Hlt.
  set (st1 := set_timers st (<[i := started k (now_ns env1)]> (g_timers st))).
  assert (clogp_timer_start_ file line label env1 st = Some st1) as Hstart
    by (by apply clogp_timer_start_alloc).
  assert (wf_state st1) as Hwf1.
  { split; [done|]. cbn [g_timers set_timers st1]. by rewrite length_insert. }
  destruct (Hbody st1 Hwf1) as (st2 & Hb2 & Hwf2 & Htim2).
  set (tbl := <[i := released (started k (now_ns env1))]> (g_timers st)).
  assert (clogp_timer_end_ file line label env2 st2
          = clog_log_file_line_ CLOG_DEBUG file line (Some "timer"%string)
              (Text (timer_report_text ((now_ns env2 - now_ns env1) mod 2 ^ 64) label)) env2
              (set_timers st2 tbl)) as Hend.
  { rewrite (clogp_timer_end_hit _ _ _ _ _ i (started k (now_ns env1))).
    - rewrite Htim2. cbn [g_timers set_timers st1]. by rewrite list_insert_insert_eq.
    - rewrite Htim2. cbn [g_timers set_timers st1]. by apply clog_timer_find_slot_alloc.
    - rewrite Htim2. cbn [g_timers set_timers st1]. by apply list_lookup_insert_eq. }
  assert (wf_state (set_timers st2 tbl)) as Hwf2'.
  { destruct Hwf2 as [Hb2' _]. split; [done|].
    cbn [g_timers set_timers]. unfold tbl. by rewrite length_insert. }
  destruct (clog_log_step CLOG_DEBUG file line (Some "timer"%string)
              (Text (timer_report_text ((now_ns env2 - now_ns env1) mod 2 ^ 64) label)) env2
              (set_timers st2 tbl) Hwf2') as (st3 & Hlog & _ & Htim3 & _).
  exists st1, st2, st3, tbl.
  split; [done|]. split; [done|]. split; [done|]. split.
  { unfold CLOG_SCOPE_TIME. rewrite Hstart. cbn [mbind option_bind].
    rewrite Hb2. cbn [mbind option_bind]. by rewrite Hend. }
  split; [done|]. split; [done|]. split.
  - unfold tbl. rewrite list_fmap_insert. apply list_insert_id.
    rewrite list_lookup_fmap, Hs. cbn. by rewrite Hu.
  - unfold tbl. by apply key_absent_insert.
Qed.

Lemma X10_scope_time_round_trip_witness :
  ∃ st1 st2 st3 tbl,
    clogp_timer_start_ "main.c" 7 "work" env0 initial_state = Some st1 ∧
    trace st1 = trace initial_state ∧
    run_calls [ {| c_lvl := CLOG_INFO; c_file := "main.c"; c_line := 8; c_group := None;
                   c_msg := Text (str "working"); c_env := env0 |} ] st1 = Some st2 ∧
    CLOG_SCOPE_TIME "main.c" 7 "work" env0 env_later
      (run_calls [ {| c_lvl := CLOG_INFO; c_file := "main.c"; c_line := 8; c_group := None;
                      c_msg := Text (str "working"); c_env := env0 |} ]) initial_state
      = Some st3 ∧
    clog_log_file_line_ CLOG_DEBUG "main.c" 7 (Some "timer"%string)
      (Text (timer_report_text ((now_ns env_later - now_ns env0) mod 2 ^ 64) "work")) env_later
      (set_timers st2 tbl) = Some st3 ∧
    g_timers st3 = tbl ∧
    used <$> tbl = used <$> g_timers initial_state ∧
    key_absent tbl (clog_hash64_ "work").
Proof.
  apply (X10_scope_time_round_trip "main.c" 7 "work" env0 env_later
           (run_calls [ {| c_lvl := CLOG_INFO; c_file := "main.c"; c_line := 8;
                           c_group := None; c_msg := Text (str "working");
                           c_env := env0 |} ]) initial_state).
  - apply wf_initial_state.
  - intros s Hs. apply list_elem_of_In, repeat_spec in Hs as ->. done.
  - exists zero_slot. split; [|done]. apply list_elem_of_In. cbn. by left.
  - intros st1 Hwf1.
    destruct (run_calls_step
                [ {| c_lvl := CLOG_INFO; c_file := "main.c"; c_line := 8; c_group := None;
                     c_msg := Text (str "working"); c_env := env0 |} ] st1 Hwf1)
      as (st2 & Hrun & Hwf2 & Htim & _).
    by exists st2.
Defined.

(** X11. When no two running timers share a key, ending a running label
    stops it: afterwards no used slot carries its key, and a second end of
    the same label, from any call site, is exactly the warning about an
    unknown label. *)
Theorem X11_end_twice (file : string) (line : Z) (label : string) (env : clog_env)
    (st : state) :
  wf_state st → keys_distinct (g_timers st) →
  (∃ s, s ∈ g_timers st ∧ used s = true ∧ key s = clog_hash64_ label) →
  ∃ st1, clogp_timer_end_ file line label env st = Some st1 ∧
    key_absent (g_timers st1) (clog_hash64_ label) ∧
    occupied (g_timers st1) + 1 = occupied (g_timers st) ∧
    ∀ file' line' env',
      clogp_timer_end_ file' line' label env' st1
      = clog_log_file_line_ CLOG_WARN file' line' (Some "timer"%string)
          (Text (unknown_label_text label)) env' st1.
Proof.
  intros Hwf Hd Hrun. pose proof Hwf as [Hb Ht].
  set (k := clog_hash64_ label).
  destruct (clog_timer_find_slot_present _ _ Ht Hrun) as (i & s & Hhit & Hs & Hu & Hk).
  pose proof (lookup_lt_Some _ _ _ Hs) as Hlt.
  set (st0 := set_timers st (<[i := released s]> (g_timers st))).
  assert (wf_state st0) as Hwf0.
  { split; [done|]. cbn [g_timers set_timers st0]. by rewrite length_insert. }
  destruct (clog_log_step CLOG_DEBUG file line (Some "timer"%string)
              (Text (timer_report_text ((now_ns env - t0 s) mod U64) label)) env st0 Hwf0)
    as (st1 & Hlog & Hwf1 & Htim & _).
  exists st1. split.
  { by rewrite (clogp_timer_end_hit _ _ _ _ _ i s). }
  assert (key_absent (g_timers st1) k) as Habs.
  { rewrite Htim. cbn [g_timers set_timers st0]. apply key_absent_lookup.
    intros j s' Hj Hu' Hk'. destruct (decide (j = i)) as [->|Hne].
    - rewrite list_lookup_insert_eq in Hj by done. by injection Hj as <-.
    - rewrite list_lookup_insert_ne in Hj by done.
      apply Hne. eapply (Hd j i s' s); try done. by rewrite Hk. }
  split; [done|]. split.
  { rewrite Htim. cbn [g_timers set_timers st0].
    pose proof (occupied_insert (g_timers st) i s (released s) Hs) as Ho.
    rewrite Hu in Ho. cbn in Ho. lia. }
  intros file' line' env'. apply clogp_timer_end_miss.
  by apply clog_timer_find_slot_absent.
Qed.

Lemma X11_end_twice_witness :
  ∃ st1, clogp_timer_end_ "main.c" 9 "work" env_later
           (set_timers initial_state
              (<[0 := started (clog_hash64_ "work") 1000]> (g_timers initial_state)))
         = Some st1 ∧
    key_absent (g_timers st1) (clog_hash64_ "work") ∧
    occupied (g_timers st1) + 1
      = occupied (<[0 := started (clog_hash64_ "work") 1000]> (g_timers initial_state)) ∧
    ∀ file' line' env',
      clogp_timer_end_ file' line' "work" env' st1
      = clog_log_file_line_ CLOG_WARN file' line' (Some "timer"%string)
          (Text (unknown_label_text "work")) env' st1.
Proof.
  apply (X11_end_twice "main.c" 9 "work" env_later
           (set_timers initial_state
              (<[0 := started (clog_hash64_ "work") 1000]> (g_timers initial_state)))).
  - split; [apply wf_initial_state|]. cbn [g_timers set_timers].
    rewrite length_insert. apply wf_initial_state.
  - cbn [g_timers set_timers]. apply keys_distinct_start.
    + vm_compute. lia.
    + intros j s _ Hj Hu. apply list_elem_of_lookup_2, list_elem_of_In, repeat_spec in Hj.
      by subst s.
    + apply keys_distinct_initial.
  - exists (started (clog_hash64_ "work") 1000). split; [|done].
    cbn [g_timers set_timers]. apply list_elem_of_insert. vm_compute. lia.
Defined.

(** X12. Timers with different keys do not disturb each other: a start or
    an end of one label leaves the slot of every running timer with another
    key as it was, start time included, and the scan for that other key
    gives the same answer as before. *)
Theorem X12_other_timers_untouched (file : string) (line : Z) (a b : string)
    (env : clog_env) (st st' : state) :
  wf_state st → clog_hash64_ a ≠ clog_hash64_ b →
  clogp_timer_start_ file line a env st = Some st' ∨
  clogp_timer_end_ file line a env st = Some st' →
  clog_timer_find_slot_ (g_timers st') (clog_hash64_ b)
    = clog_timer_find_slot_ (g_timers st) (clog_hash64_ b) ∧
  ∀ i s, g_timers st !! i = Some s → used s = true → key s = clog_hash64_ b →
         g_timers st' !! i = Some s.
Proof.
  intros Hwf Hab Hop. pose proof Hwf as [Hb Ht].
  set (ka := clog_hash64_ a) in *. set (kb := clog_hash64_ b) in *.
  assert (∀ i s s', g_timers st !! i = Some s →
            used s && (key s =? kb)%Z = false → used s' && (key s' =? kb)%Z = false →
            g_timers st' = <[i := s']> (g_timers st) →
            clog_timer_find_slot_ (g_timers st') kb = clog_timer_find_slot_ (g_timers st) kb ∧
            ∀ j s0, g_timers st !! j = Some s0 → used s0 = true → key s0 = kb →
                    g_timers st' !! j = Some s0) as Hupd.
  { intros i s s' Hs Hn Hn' ->. split; [by eapply clog_timer_find_slot_other|].
    intros j s0 Hj Hu0 Hk0. destruct (decide (j = i)) as [->|Hne].
    - rewrite Hs in Hj. injection Hj as ->. rewrite Hu0, Hk0, Z.eqb_refl in Hn. done.
    - by rewrite list_lookup_insert_ne. }
  assert (∀ k now, k ≠ kb → used (started k now) && (key (started k now) =? kb)%Z = false)
    as Hst.
  { intros k now Hk. cbn. by apply Z.eqb_neq. }
  destruct Hop as [Hop|Hop].
  - destruct (clog_timer_find_slot_cases (g_timers st) ka) as [Hmiss|[i Hhit]].
    + destruct (clog_timer_free_slot_cases (g_timers st)) as [Hfull|[i Hfree]].
      * rewrite clogp_timer_start_full in Hop by done.
        destruct (clog_log_step CLOG_WARN file line (Some "timer"%string)
                    (Text no_free_slots_text) env st Hwf) as (st1 & Hlog & _ & Htim & _).
        rewrite Hlog in Hop. injection Hop as <-. by rewrite Htim.
      * rewrite (clogp_timer_start_alloc _ _ _ _ _ i) in Hop by done.
        injection Hop as <-. cbn [g_timers set_timers].
        apply clog_timer_free_slot_hit in Hfree as (_ & (s & Hs & Hu) & _).
        apply (Hupd i s (started ka (now_ns env))); [done| |by apply Hst|done].
        by rewrite Hu.
    + rewrite (clogp_timer_start_hit _ _ _ _ _ i) in Hop by done.
      injection Hop as <-. cbn [g_timers set_timers].
      apply clog_timer_find_slot_hit in Hhit as (_ & (s & Hs & Hu & Hk) & _).
      apply (Hupd i s (started ka (now_ns env))); [done| |by apply Hst|done].
      rewrite Hu, Hk. cbn. by apply Z.eqb_neq.
  - destruct (clog_timer_find_slot_cases (g_timers st) ka) as [Hmiss|[i Hhit]].
    + rewrite clogp_timer_end_miss in Hop by done.
      destruct (clog_log_step CLOG_WARN file line (Some "timer"%string)
                  (Text (unknown_label_text a)) env st Hwf) as (st1 & Hlog & _ & Htim & _).
      rewrite Hlog in Hop. injection Hop as <-. by rewrite Htim.
    + pose proof Hhit as Hhit'.
      apply clog_timer_find_slot_hit in Hhit' as (_ & (s & Hs & Hu & Hk) & _).
      pose proof (lookup_lt_Some _ _ _ Hs) as Hlt.
      rewrite (clogp_timer_end_hit _ _ _ _ _ i s) in Hop by done.
      set (st0 := set_timers st (<[i := released s]> (g_timers st))) in Hop.
      assert (wf_state st0) as Hwf0.
      { split; [done|]. cbn [g_timers set_timers st0]. by rewrite length_insert. }
      destruct (clog_log_step CLOG_DEBUG file line (Some "timer"%string)
                  (Text (timer_report_text ((now_ns env - t0 s) mod U64) a)) env st0 Hwf0)
        as (st1 & Hlog & _ & Htim & _).
      rewrite Hlog in Hop. injection Hop as <-.
      apply (Hupd i s (released s)); [done| |done|by rewrite Htim].
      rewrite Hu, Hk. cbn. by apply Z.eqb_neq.
Qed.

Lemma X12_other_timers_untouched_witness :
  clog_timer_find_slot_
    (g_timers (set_timers render_running
                 (<[1 := started (clog_hash64_ "load") (now_ns env_later)]>
                    (g_timers render_running))))
    (clog_hash64_ "render")
  = clog_timer_find_slot_ (g_timers render_running) (clog_hash64_ "render") ∧
  ∀ i s, g_timers render_running !! i = Some s → used s = true →
         key s = clog_hash64_ "render" →
         g_timers (set_timers render_running
                     (<[1 := started (clog_hash64_ "load") (now_ns env_later)]>
                        (g_timers render_running))) !! i = Some s.
Proof.
  apply (X12_other_timers_untouched "main.c" 12 "load" "render" env_later render_running
           (set_timers render_running
              (<[1 := started (clog_hash64_ "load") (now_ns env_later)]>
                 (g_timers render_running)))).
  - split; [apply wf_initial_state|]. reflexivity.
  - vm_compute. discriminate.
  - left. reflexivity.
Defined.

Lemma occupied_lt_free tbl :
  occupied tbl < length tbl → ∃ s, s ∈ tbl ∧ used s = false.
Proof.
  unfold occupied. induction tbl as [|x tbl IH]; cbn [length]; [lia|].
  rewrite filter_cons. destruct (used x) eqn:Ex.
  - case_decide; [|done]. cbn [length]. intros Hlt.
    destruct IH as (s & Hs & Hu); [lia|]. exists s. split; [by apply elem_of_cons; right|done].
  - intros _. exists x. split; [by apply elem_of_cons; left|done].
Qed.

(** X13. Labels with pairwise different keys, none of them running, are
    all recorded as long as the table has room: the starts are silent, each
    label gets a slot of its own with the clock reading of its start, the
    number of used slots grows by the number of labels, and the timers that
    were running keep their slots. *)
Theorem X13_start_many (file : string) (line : Z) (labels : list string) (env : clog_env)
    (st : state) :
  wf_state st → NoDup (clog_hash64_ <$> labels) →
  (∀ l, l ∈ labels → key_absent (g_timers st) (clog_hash64_ l)) →
  occupied (g_timers st) + length labels ≤ CLOG_TIMERS_MAX →
  ∃ st', start_all file line labels env st = Some st' ∧ trace st' = trace st ∧
    occupied (g_timers st') = occupied (g_timers st) + length labels ∧
    (∀ l, l ∈ labels →
       ∃ s, s ∈ g_timers st' ∧ used s = true ∧ key s = clog_hash64_ l ∧ t0 s = now_ns env) ∧
    (∀ i s, g_timers st !! i = Some s → used s = true → g_timers st' !! i = Some s).
Proof.
  revert st.
  induction labels as [|l ls IH]; intros st Hwf Hnd Habs Hocc.
  { exists st. split; [done|]. split; [done|]. split; [cbn [length]; lia|].
    split; [|done]. intros l Hl. by apply elem_of_nil in Hl. }
  pose proof Hwf as [Hb Ht]. cbn [length] in Hocc.
  rewrite fmap_cons in Hnd. apply NoDup_cons in Hnd as [Hl Hnd].
  set (k := clog_hash64_ l) in *.
  assert (key_absent (g_timers st) k) as Hk by (apply Habs, elem_of_cons; by left).
  pose proof (clog_timer_find_slot_absent _ _ Hk) as Hmiss.
  destruct (occupied_lt_free (g_timers st)) as (s0 & Hs0 & Hu0); [lia|].
  destruct (clog_timer_free_slot_present _ Ht (ex_intro _ s0 (conj Hs0 Hu0)))
    as (i & s & Hfree & Hs & Hu).
  pose proof (lookup_lt_Some _ _ _ Hs) as Hlt.
  set (st1 := set_timers st (<[i := started k (now_ns env)]> (g_timers st))).
  assert (wf_state st1) as Hwf1.
  { split; [done|]. cbn [g_timers set_timers st1]. by rewrite length_insert. }
  assert (occupied (g_timers st1) = occupied (g_timers st) + 1) as Ho1.
  { cbn [g_timers set_timers st1].
    pose proof (occupied_insert (g_timers st) i s (started k (now_ns env)) Hs) as Ho.
    rewrite Hu in Ho. cbn in Ho. lia. }
  destruct (IH st1 Hwf1 Hnd) as (st' & Hrun & Htr & Ho & Hin & Hkeep).
  { intros l' Hl'. cbn [g_timers set_timers st1]. apply key_absent_insert.
    - apply Habs, elem_of_cons. by right.
    - intros _ Heq. apply Hl. cbn [key started] in Heq. rewrite Heq.
      by apply list_elem_of_fmap_2. }
  { lia. }
  exists st'. cbn [start_all].
  rewrite (clogp_timer_start_alloc _ _ _ _ _ i) by done. fold st1.
  cbn [mbind option_bind]. split; [done|]. split; [done|]. split; [cbn [length]; lia|].
  split.
  - intros l' Hl'. apply elem_of_cons in Hl' as [->|Hl']; [|by apply Hin].
    exists (started k (now_ns env)). split; [|done].
    eapply list_elem_of_lookup_2, (Hkeep i); [|done].
    cbn [g_timers set_timers st1]. by apply list_lookup_insert_eq.
  - intros j s' Hj Hu'. apply Hkeep; [|done].
    cbn [g_timers set_timers st1]. rewrite list_lookup_insert_ne; [done|].
    intros <-. rewrite Hs in Hj. injection Hj as ->. by rewrite Hu in Hu'.
Qed.

Lemma X13_start_many_witness :
  ∃ st', start_all "main.c" 20 ["load"; "parse"; "draw"]%string env_later render_running
         = Some st' ∧
    trace st' = trace render_running ∧
    occupied (g_timers st') = occupied (g_timers render_running) + 3 ∧
    (∀ l, l ∈ ["load"; "parse"; "draw"]%string →
       ∃ s, s ∈ g_timers st' ∧ used s = true ∧ key s = clog_hash64_ l ∧
            t0 s = now_ns env_later) ∧
    (∀ i s, g_timers render_running !! i = Some s → used s = true →
            g_timers st' !! i = Some s).
Proof.
  apply (X13_start_many "main.c" 20 ["load"; "parse"; "draw"]%string env_later
           render_running).
  - split; [apply wf_initial_state|]. reflexivity.
  - apply (bool_decide_unpack _). vm_compute. exact I.
  - intros l Hl s Hs Hu.
    assert (s = started (clog_hash64_ "render") 1000) as ->.
    { apply list_elem_of_In in Hs. vm_compute in Hs.
      repeat (destruct Hs as [Hs|Hs]; [subst s; try discriminate Hu; try reflexivity|]).
      destruct Hs. }
    apply list_elem_of_In in Hl. cbn [In] in Hl.
    destruct Hl as [<-|[<-|[<-|[]]]]; vm_compute; discriminate.
  - vm_compute. lia.
Defined.

End MoreTimers.

(** ** Wall clock and monotonic clock *)

Section Clocks.
Local Open Scope Z_scope.

(** X14. For a broken-down time in the calendar ranges of [struct tm]
    (years 0 to 9999) and a nanosecond part below one second, the
    timestamp of the prefix is exactly 24 bytes:
    [YYYY-MM-DD HH:MM:SS.mmm] and a space, every field zero-padded to its
    width, the year [tm_year + 1900], the month [tm_mon + 1] and the
    milliseconds [tv_nsec / 1000000]. *)
Theorem X14_timestamp_layout (tmv : tm) (tv_nsec : Z) (env : clog_env) :
  -1900 ≤ tm_year tmv ≤ 8099 → 0 ≤ tm_mon tmv ≤ 11 → 1 ≤ tm_mday tmv ≤ 31 →
  0 ≤ tm_hour tmv ≤ 23 → 0 ≤ tm_min tmv ≤ 59 → 0 ≤ tm_sec tmv ≤ 60 →
  0 ≤ tv_nsec < 1000000000 →
  timestamp_text (with_time (clog_localtime_parts_ tmv tv_nsec) env)
  = fixed_digits 4 (tm_year tmv + 1900) ++ str "-"
      ++ fixed_digits 2 (tm_mon tmv + 1) ++ str "-"
      ++ fixed_digits 2 (tm_mday tmv) ++ str " "
      ++ fixed_digits 2 (tm_hour tmv) ++ str ":"
      ++ fixed_digits 2 (tm_min tmv) ++ str ":"
      ++ fixed_digits 2 (tm_sec tmv) ++ str "."
      ++ fixed_digits 3 (tv_nsec / 1000000) ++ str " " ∧
  length (timestamp_text (with_time (clog_localtime_parts_ tmv tv_nsec) env)) = 24%nat.
Proof.
  intros HY Hm Hd HH HM HS Hns.
  assert (0 ≤ tv_nsec / 1000000 < 1000) as Hms.
  { split; [apply Z.div_pos; lia|apply Z.div_lt_upper_bound; lia]. }
  unfold timestamp_text, with_time, clog_localtime_parts_.
  cbn [tm_Y tm_m tm_d tm_H tm_M tm_S tm_ms].
  rewrite Z.quot_div_nonneg by lia.
  replace (int_of_long (tv_nsec / 1000000)) with (tv_nsec / 1000000)
    by (unfold int_of_long; rewrite Z.mod_small; lia).
  rewrite (fmt_0d_fixed 4) by (change (10 ^ Z.of_nat 4) with 10000; lia).
  rewrite !(fmt_0d_fixed 2) by (change (10 ^ Z.of_nat 2) with 100; lia).
  rewrite (fmt_0d_fixed 3) by (change (10 ^ Z.of_nat 3) with 1000; lia).
  split; [done|]. rewrite !length_app, !fixed_digits_length. reflexivity.
Qed.

Lemma X14_timestamp_layout_witness :
  timestamp_text
    (with_time
       (clog_localtime_parts_
          {| tm_year := 125; tm_mon := 0; tm_mday := 2; tm_hour := 3; tm_min := 4;
             tm_sec := 5 |} 6000000) env0)
  = fixed_digits 4 (125 + 1900) ++ str "-" ++ fixed_digits 2 (0 + 1) ++ str "-"
      ++ fixed_digits 2 2 ++ str " " ++ fixed_digits 2 3 ++ str ":"
      ++ fixed_digits 2 4 ++ str ":" ++ fixed_digits 2 5 ++ str "."
      ++ fixed_digits 3 (6000000 / 1000000) ++ str " " ∧
  length (timestamp_text
            (with_time
               (clog_localtime_parts_
                  {| tm_year := 125; tm_mon := 0; tm_mday := 2; tm_hour := 3; tm_min := 4;
                     tm_sec := 5 |} 6000000) env0)) = 24%nat.
Proof.
  apply (X14_timestamp_layout
           {| tm_year := 125; tm_mon := 0; tm_mday := 2; tm_hour := 3; tm_min := 4;
              tm_sec := 5 |} 6000000 env0); cbn; lia.
Defined.

Lemma clog_now_ns_mono_congr (s n : Z) :
  ∃ k, clog_now_ns_mono_ s n = s * 1000000000 + n + k * 2 ^ 64.
Proof.
  unfold clog_now_ns_mono_, U64. change (2 ^ 64) with 18446744073709551616.
  rewrite (Z.mod_eq s), (Z.mod_eq n) by lia.
  set (a := s / 18446744073709551616). set (b := n / 18446744073709551616).
  rewrite Z.mod_eq by lia.
  set (c := _ / 18446744073709551616).
  exists (-(a * 1000000000 + b + c)). lia.
Qed.

(** X15. The timer measures the true elapsed time: for two readings of
    the monotonic clock whose difference in nanoseconds is between 0 and
    2^64 - 1, the unsigned difference of the two values of
    [clog_now_ns_mono_] is that difference, also when the multiplication
    of the seconds by 10^9 wraps around. *)
Theorem X15_elapsed_exact (s1 n1 s2 n2 : Z) :
  0 ≤ (s2 - s1) * 1000000000 + (n2 - n1) < 2 ^ 64 →
  (clog_now_ns_mono_ s2 n2 - clog_now_ns_mono_ s1 n1) mod 2 ^ 64
  = (s2 - s1) * 1000000000 + (n2 - n1).
Proof.
  intros Hd.
  destruct (clog_now_ns_mono_congr s1 n1) as [k1 ->].
  destruct (clog_now_ns_mono_congr s2 n2) as [k2 ->].
  replace (s2 * 1000000000 + n2 + k2 * 2 ^ 64 - (s1 * 1000000000 + n1 + k1 * 2 ^ 64))
    with ((s2 - s1) * 1000000000 + (n2 - n1) + (k2 - k1) * 2 ^ 64) by lia.
  rewrite Z.mod_add by lia. by apply Z.mod_small.
Qed.

Lemma X15_elapsed_exact_witness :
  (clog_now_ns_mono_ 18446744074 0 - clog_now_ns_mono_ 18446744073 999999000) mod 2 ^ 64
  = (18446744074 - 18446744073) * 1000000000 + (0 - 999999000).
Proof. apply (X15_elapsed_exact 18446744073 999999000 18446744074 0). lia. Defined.

End Clocks.

(** ** Thresholds, the line buffer and compile-time elision *)

Section Gates.
Local Open Scope nat_scope.

Lemma sublist_filter_passes (f : log_call → list ascii) (t t' : Z) (cs : list log_call) :
  (t ≤ t')%Z →
  sublist (f <$> List.filter (passes t') cs) (f <$> List.filter (passes t) cs).
Proof.
  intros Ht. induction cs as [|c cs IH]; [done|].
  cbn [List.filter].
  destruct (passes t' c) eqn:E', (passes t c) eqn:E; unfold passes in E, E'.
  - rewrite !fmap_cons. by apply sublist_skip.
  - apply Z.leb_le in E'. apply Z.leb_gt in E. lia.
  - rewrite fmap_cons. by apply sublist_cons.
  - done.
Qed.

(** X16. Raising the threshold only removes records: the same calls made
    under a higher threshold write a subsequence, in the same order and
    with the same bytes, of what they write under the lower one. *)
Theorem X16_threshold_only_removes (cs : list log_call) (st st' : state) :
  wf_state st → wf_state st' → (g_lvl st ≤ g_lvl st')%Z →
  ∃ s s', run_calls cs st = Some s ∧ run_calls cs st' = Some s' ∧
          sublist (records (new_events st' s')) (records (new_events st s)).
Proof.
  intros Hwf Hwf' Hle.
  destruct (run_calls_step cs st Hwf) as (s & Hs & _ & _ & _ & _ & es & Htr & Hrec).
  destruct (run_calls_step cs st' Hwf') as (s' & Hs' & _ & _ & _ & _ & es' & Htr' & Hrec').
  exists s, s'. split; [done|]. split; [done|].
  rewrite (new_events_add _ _ _ Htr), (new_events_add _ _ _ Htr'), Hrec, Hrec'.
  by apply sublist_filter_passes.
Qed.

Lemma X16_threshold_only_removes_witness :
  ∃ s s',
    run_calls [ {| c_lvl := CLOG_DEBUG; c_file := "main.c"; c_line := 3; c_group := None;
                   c_msg := Text (str "probe"); c_env := env0 |};
                {| c_lvl := CLOG_ERROR; c_file := "main.c"; c_line := 4; c_group := None;
                   c_msg := Text (str "failed"); c_env := env0 |} ]
      (clog_set_level CLOG_TRACE initial_state) = Some s ∧
    run_calls [ {| c_lvl := CLOG_DEBUG; c_file := "main.c"; c_line := 3; c_group := None;
                   c_msg := Text (str "probe"); c_env := env0 |};
                {| c_lvl := CLOG_ERROR; c_file := "main.c"; c_line := 4; c_group := None;
                   c_msg := Text (str "failed"); c_env := env0 |} ]
      (clog_set_level CLOG_WARN initial_state) = Some s' ∧
    sublist (records (new_events (clog_set_level CLOG_WARN initial_state) s'))
            (records (new_events (clog_set_level CLOG_TRACE initial_state) s)).
Proof.
  apply (X16_threshold_only_removes
           [ {| c_lvl := CLOG_DEBUG; c_file := "main.c"; c_line := 3; c_group := None;
                c_msg := Text (str "probe"); c_env := env0 |};
             {| c_lvl := CLOG_ERROR; c_file := "main.c"; c_line := 4; c_group := None;
                c_msg := Text (str "failed"); c_env := env0 |} ]
           (clog_set_level CLOG_TRACE initial_state)
           (clog_set_level CLOG_WARN initial_state)).
  - apply wf_initial_state.
  - apply wf_initial_state.
  - vm_compute. discriminate.
Defined.

(** X17. What the line buffer holds from earlier records does not reach
    the output: a call made with any other contents of the buffer writes
    the same events, byte for byte. *)
Theorem X17_no_stale_bytes (lvl : clog_level) (file : string) (line : Z)
    (group : option string) (msg : formatted) (env : clog_env) (st : state)
    (buf : list ascii) :
  wf_state st → length buf = CLOG_LINE_MAX →
  ∃ s s', clog_log_file_line_ lvl file line group msg env st = Some s ∧
          clog_log_file_line_ lvl file line group msg env (set_buf st buf) = Some s' ∧
          trace s' = trace s ∧ g_timers s' = g_timers s.
Proof.
  intros Hwf Hbuf.
  assert (wf_state (set_buf st buf)) as Hwf' by (destruct Hwf; by split).
  destruct (clog_log_step lvl file line group msg env st Hwf)
    as (s & Hs & _ & Htim & _ & _ & Htr).
  destruct (clog_log_step lvl file line group msg env (set_buf st buf) Hwf')
    as (s' & Hs' & _ & Htim' & _ & _ & Htr').
  exists s, s'. split; [done|]. split; [done|]. split.
  - by rewrite Htr, Htr'.
  - by rewrite Htim, Htim'.
Qed.

Lemma X17_no_stale_bytes_witness :
  ∃ s s', clog_log_file_line_ CLOG_INFO "main.c" 7 None (Text (str "short")) env0
            initial_state = Some s ∧
          clog_log_file_line_ CLOG_INFO "main.c" 7 None (Text (str "short")) env0
            (set_buf initial_state (repeat "Z"%char CLOG_LINE_MAX)) = Some s' ∧
          trace s' = trace s ∧ g_timers s' = g_timers s.
Proof.
  apply (X17_no_stale_bytes CLOG_INFO "main.c" 7 None (Text (str "short")) env0
           initial_state (repeat "Z"%char CLOG_LINE_MAX)).
  - apply wf_initial_state.
  - apply repeat_length.
Defined.

(** X18. Compile-time elision is all or nothing. The conditions compare
    the expansion of [CLOG_COMPILETIME_MIN_LEVEL] with the name of an
    enumeration constant, which the preprocessor reads as 0: with the
    default, with any identifier and with any integer up to 0 every level
    macro is the call of the front end; with any integer above 0 every
    level macro, [log_fatal] included, is a no-op. *)
Theorem X18_elision_all_or_nothing (min_level : pp_operand) :
  (∀ lvl file line group msg env st,
     log_macro CLOG_COMPILETIME_MIN_LEVEL lvl file line group msg env st
     = clog_log_file_line_ lvl file line group msg env st) ∧
  ((pp_value min_level ≤ 0)%Z →
     ∀ lvl file line group msg env st,
       log_macro min_level lvl file line group msg env st
       = clog_log_file_line_ lvl file line group msg env st) ∧
  ((0 < pp_value min_level)%Z →
     ∀ lvl file line group msg env st,
       log_macro min_level lvl file line group msg env st = Some st).
Proof.
  split; [done|]. split.
  - intros Hle lvl file line group msg env st. unfold log_macro. cbn [pp_value].
    destruct (Z.leb_spec (pp_value min_level) 0); [done|lia].
  - intros Hlt lvl file line group msg env st. unfold log_macro. cbn [pp_value].
    destruct (Z.leb_spec (pp_value min_level) 0); [lia|done].
Qed.

End Gates.

(** ** Threads and the lock *)

Section Locking.
Local Open Scope nat_scope.

Lemma well_locked_app held a b :
  well_locked held a = true → well_locked false b = true → well_locked held (a ++ b) = true.
Proof.
  revert held. induction a as [|e a IH]; intros held Ha Hb.
  - destruct held; [done|]. done.
  - destruct e, held; cbn [well_locked app negb andb] in *; try done; by apply IH.
Qed.

Lemma well_locked_emission lvl fd rec : well_locked false (emission lvl fd rec) = true.
Proof. unfold emission. by destruct (clog_level_eqb lvl CLOG_FATAL). Qed.

(** A record as it reaches the descriptor. *)
Lemma record_of_shape lvl file line group msg env :
  last (record_of lvl file line group msg env) = Some NL ∧
  1 ≤ length (record_of lvl file line group msg env) ≤ CLOG_LINE_MAX - 1.
Proof.
  split; [apply last_line_of|].
  apply length_line_of; [apply CLOG_LINE_MAX_ge|apply length_content_of].
Qed.

Lemma records_emission_one lvl fd rec : records (emission lvl fd rec) = [rec].
Proof. unfold emission, records. by destruct (clog_level_eqb lvl CLOG_FATAL). Qed.

Lemma clog_log_events lvl file line group msg env st :
  wf_state st →
  ∃ st' es, clog_log_file_line_ lvl file line group msg env st = Some st' ∧
    wf_state st' ∧ trace st' = trace st ++ es ∧ well_locked false es = true ∧
    Forall (λ r, last r = Some NL ∧ 1 ≤ length r ≤ CLOG_LINE_MAX - 1) (records es).
Proof.
  intros Hwf.
  destruct (clog_log_step lvl file line group msg env st Hwf)
    as (st' & Hs & Hwf' & _ & _ & _ & Htr).
  eexists st', _. split; [done|]. split; [done|]. split; [done|].
  destruct (_ <=? _)%Z.
  - split; [apply well_locked_emission|]. rewrite records_emission_one.
    constructor; [apply record_of_shape|constructor].
  - split; [done|constructor].
Qed.

Lemma run_api_call_events c st :
  wf_state st →
  ∃ st' es, run_api_call c st = Some st' ∧
    wf_state st' ∧ trace st' = trace st ++ es ∧ well_locked false es = true ∧
    Forall (λ r, last r = Some NL ∧ 1 ≤ length r ≤ CLOG_LINE_MAX - 1) (records es).
Proof.
  intros Hwf. pose proof Hwf as [Hb Ht].
  assert (∀ st1, wf_state st1 → trace st1 = trace st →
            ∃ st' es, Some st1 = Some st' ∧ wf_state st' ∧ trace st' = trace st ++ es ∧
              well_locked false es = true ∧
              Forall (λ r, last r = Some NL ∧ 1 ≤ length r ≤ CLOG_LINE_MAX - 1) (records es))
    as Hsilent.
  { intros st1 Hwf1 Htr. exists st1, []. rewrite app_nil_r.
    split; [done|]. split; [done|]. split; [done|]. split; [done|constructor]. }
  destruct c as [c|file line label env|file line label env|lvl|fd|env]; cbn [run_api_call].
  - by apply clog_log_events.
  - set (k := clog_hash64_ label).
    destruct (clog_timer_find_slot_cases (g_timers st) k) as [Hmiss|[i Hhit]].
    + destruct (clog_timer_free_slot_cases (g_timers st)) as [Hfull|[i Hfree]].
      * rewrite clogp_timer_start_full by done. by apply clog_log_events.
      * rewrite (clogp_timer_start_alloc _ _ _ _ _ i) by done.
        apply Hsilent; [|done]. split; [done|].
        cbn [g_timers set_timers]. by rewrite length_insert.
    + rewrite (clogp_timer_start_hit _ _ _ _ _ i) by done.
      apply Hsilent; [|done]. split; [done|].
      cbn [g_timers set_timers]. by rewrite length_insert.
  - set (k := clog_hash64_ label).
    destruct (clog_timer_find_slot_cases (g_timers st) k) as [Hmiss|[i Hhit]].
    + rewrite clogp_timer_end_miss by done. by apply clog_log_events.
    + pose proof Hhit as Hhit'.
      apply clog_timer_find_slot_hit in Hhit' as (_ & (s & Hs & _ & _) & _).
      rewrite (clogp_timer_end_hit _ _ _ _ _ i s) by done.
      apply (clog_log_events _ _ _ _ _ _
               (set_timers st (<[i := released s]> (g_timers st)))).
      split; [done|]. cbn [g_timers set_timers]. by rewrite length_insert.
  - by apply Hsilent.
  - by apply Hsilent.
  - by apply clog_log_events.
Qed.

Lemma records_app es1 es2 : records (es1 ++ es2) = records es1 ++ records es2.
Proof. unfold records. apply omap_app. Qed.

Lemma run_api_events cs : ∀ st,
  wf_state st →
  ∃ st' es, run_api cs st = Some st' ∧ trace st' = trace st ++ es ∧
    well_locked false es = true ∧
    Forall (λ r, last r = Some NL ∧ 1 ≤ length r ≤ CLOG_LINE_MAX - 1) (records es).
Proof.
  induction cs as [|c cs IH]; intros st Hwf.
  { exists st, []. rewrite app_nil_r. split; [done|]. split; [done|].
    split; [done|constructor]. }
  cbn [run_api].
  destruct (run_api_call_events c st Hwf) as (st1 & es1 & -> & Hwf1 & Htr1 & Hl1 & Hr1).
  cbn [mbind option_bind].
  destruct (IH st1 Hwf1) as (st' & es & Hrun & Htr & Hl & Hr).
  exists st', (es1 ++ es). split; [done|]. split; [by rewrite Htr, Htr1, app_assoc|].
  split; [by apply well_locked_app|].
  rewrite records_app. by apply Forall_app.
Qed.

(** X19. In everything a thread does from its first call on, whatever
    the calls, each write to the descriptor is made between taking the lock
    and releasing it, the lock is never taken twice nor left held, [fsync]
    is called only after the lock is released, and every write hands over
    one whole record: between 1 and [CLOG_LINE_MAX - 1] bytes, the last of
    them a newline. *)
Theorem X19_writes_under_lock (cs : list api_call) :
  (∃ st, run_api cs initial_state = Some st ∧ thread_trace cs = trace st) ∧
  well_locked false (thread_trace cs) = true ∧
  Forall (λ r, last r = Some NL ∧ 1 ≤ length r ≤ CLOG_LINE_MAX - 1)
    (records (thread_trace cs)).
Proof.
  destruct (run_api_events cs initial_state wf_initial_state)
    as (st & es & Hrun & Htr & Hl & Hr).
  unfold thread_trace. rewrite Hrun. split; [by exists st|].
  rewrite Htr. cbn [trace initial_state app]. done.
Qed.

Lemma interleaving_exclusive holder ts out :
  interleaving holder ts out →
  (∀ j t, ts !! j = Some t → well_locked (bool_decide (holder = Some j)) t = true) →
  writes_exclusive holder out = true.
Proof.
  induction 1 as [|holder holder' ts i e rest out Hi Hstep _ IH]; intros Hinv; [done|].
  cbn [writes_exclusive]. rewrite Hstep.
  pose proof (Hinv i _ Hi) as Hthis.
  pose proof (lookup_lt_Some _ _ _ Hi) as Hlt.
  apply andb_true_iff. split.
  - destruct e; try done. cbn [well_locked] in Hthis.
    by apply andb_true_iff in Hthis as [-> _].
  - apply IH. intros j t Hj. destruct (decide (j = i)) as [->|Hne].
    + rewrite list_lookup_insert_eq in Hj by done. injection Hj as <-.
      destruct e; cbn [lock_step well_locked] in Hstep, Hthis;
        apply andb_true_iff in Hthis as [Hh Hrest].
      * destruct holder; [done|]. injection Hstep as <-.
        by rewrite bool_decide_eq_true_2.
      * injection Hstep as <-. by rewrite Hh in Hrest |- *.
      * destruct holder as [j|]; [|done].
        destruct (Nat.eqb_spec i j); [|done]. by injection Hstep as <-.
      * injection Hstep as <-. apply negb_true_iff in Hh. by rewrite Hh in Hrest |- *.
    + rewrite list_lookup_insert_ne in Hj by done.
      pose proof (Hinv j t Hj) as Hother.
      destruct e; cbn [lock_step well_locked] in Hstep, Hthis;
        apply andb_true_iff in Hthis as [Hh Hrest].
      * destruct holder; [done|]. injection Hstep as <-.
        rewrite bool_decide_eq_false_2 by congruence.
        by rewrite bool_decide_eq_false_2 in Hother by done.
      * by injection Hstep as <-.
      * destruct holder as [j'|]; [|done].
        destruct (Nat.eqb_spec i j') as [<-|]; [|done]. injection Hstep as <-.
        rewrite bool_decide_eq_false_2 in Hother by congruence.
        by rewrite bool_decide_eq_false_2 by done.
      * by injection Hstep as <-.
Qed.

(** X20. Threads write one at a time. Let any number of threads make any
    calls, and let their events happen in any order that the mutex allows:
    then every write to the descriptor is made by the thread that holds
    the lock at that moment, so no write of another thread falls between
    the lock and the unlock around a record. *)
Theorem X20_threads_write_one_at_a_time (css : list (list api_call))
    (out : list (nat * event)) :
  interleaving None (thread_trace <$> css) out → writes_exclusive None out = true.
Proof.
  intros Hout. apply (interleaving_exclusive _ _ _ Hout).
  intros j t Hj. rewrite list_lookup_fmap in Hj.
  destruct (css !! j) as [cs|]; [|done]. injection Hj as <-.
  rewrite bool_decide_eq_false_2 by done.
  destruct (run_api_events cs initial_state wf_initial_state)
    as (st & es & Hrun & Htr & Hl & _).
  unfold thread_trace. rewrite Hrun, Htr. done.
Qed.

Lemma X20_threads_write_one_at_a_time_witness :
  writes_exclusive None
    [ (0, EvLock); (0, EvWriteAll 2 (record_of_call fatal_call)); (0, EvUnlock);
      (1, EvLock); (0, EvFsync 2); (1, EvWriteAll 2 (record_of_call info_call));
      (1, EvUnlock) ] = true.
Proof.
  apply (X20_threads_write_one_at_a_time [[CallLog fatal_call]; [CallLog info_call]]).
  cbn [fmap list_fmap].
  replace (thread_trace [CallLog fatal_call])
    with [EvLock; EvWriteAll 2 (record_of_call fatal_call); EvUnlock; EvFsync 2]
    by (vm_compute; reflexivity).
  replace (thread_trace [CallLog info_call])
    with [EvLock; EvWriteAll 2 (record_of_call info_call); EvUnlock]
    by (vm_compute; reflexivity).
  repeat (eapply interleaving_cons; [reflexivity|reflexivity|cbn [insert list_insert]]).
  apply interleaving_nil.
Defined.

End Locking.

(** ** The model on concrete inputs *)

Example fmt_0d_year : fmt_0d 4 2025 = str "2025". Proof. reflexivity. Qed.
Example fmt_0d_pad : fmt_0d 2 7 = str "07". Proof. reflexivity. Qed.
Example fmt_0d_neg : fmt_0d 4 (-5) = str "-005". Proof. reflexivity. Qed.
Example fmt_0x_pad : fmt_0x 6 43981 = str "00abcd". Proof. reflexivity. Qed.
Example fmt_f_ms :
  fmt_f 3 (double_div (double_of_u64 5123456) (double_of_u64 1000000)) = str "5.123".
Proof. vm_compute. reflexivity. Qed.
Example fmt_f_tie :
  fmt_f 3 (double_div (double_of_u64 1062500) (double_of_u64 1000000)) = str "1.062".
Proof. vm_compute. reflexivity. Qed.
Example clog_basename_unix : clog_basename_ "src/tests/test_c-log.c" = "test_c-log.c"%string.
Proof. reflexivity. Qed.
Example clog_hash64_empty : clog_hash64_ "" = 1469598103934665603.
Proof. reflexivity. Qed.
Example clog_hash64_a : clog_hash64_ "a" = 4953267810257967366.
Proof. vm_compute. reflexivity. Qed.


Example elapsed_text_999 : elapsed_text 999 = str "999 ns".
Proof. vm_compute. reflexivity. Qed.
Example elapsed_text_1000 : elapsed_text 1000 = str "1.000 " ++ micro ++ str "s".
Proof. vm_compute. reflexivity. Qed.
Example elapsed_text_999999 : elapsed_text 999999 = str "999.999 " ++ micro ++ str "s".
Proof. vm_compute. reflexivity. Qed.
Example elapsed_text_1000000 : elapsed_text 1000000 = str "1.000 ms".
Proof. vm_compute. reflexivity. Qed.
Example elapsed_text_999999999 : elapsed_text 999999999 = str "1000.000 ms".
Proof. vm_compute. reflexivity. Qed.
Example elapsed_text_1000000000 : elapsed_text 1000000000 = str "1.000000 s".
Proof. vm_compute. reflexivity. Qed.
Example elapsed_text_max : elapsed_text (2 ^ 64 - 1) = str "18446744073.709553 s".
Proof. vm_compute. reflexivity. Qed.

(** One record, byte for byte (the tab after the level tag is byte 9). *)
Example record_of_hello :
  record_of CLOG_INFO "src/main.c" 10 (Some "grp"%string) (Text (str "hello")) env0
  = str "2025-01-02 03:04:05.006 [INFO]" ++ [TAB]
      ++ str "(tid:42) <main.c:10> [grp] hello" ++ [NL].
Proof. vm_compute. reflexivity. Qed.

(** A message that ends in a newline gets no second one. *)
Example record_of_newline_kept :
  record_of CLOG_ERROR "main.c" 3 None (Text (str "boom" ++ [NL])) env0
  = str "2025-01-02 03:04:05.006 [ERROR]" ++ [TAB]
      ++ str "(tid:42) <main.c:3> boom" ++ [NL].
Proof. vm_compute. reflexivity. Qed.

(** A start then an end 5.124456 ms later, at threshold Debug. *)
Example timer_round_trip :
  (st1 ← clogp_timer_start_ "main.c" 8 "io" env0 (clog_set_level CLOG_DEBUG initial_state);
   st2 ← clogp_timer_end_ "main.c" 9 "io" env_later st1;
   Some (records (trace st2), used <$> take 2 (g_timers st2)))
  = Some ([str "2025-01-02 03:04:05.011 [DEBUG]" ++ [TAB]
             ++ str "(tid:42) <main.c:9> [timer] [5.124 ms]: io" ++ [NL]],
          [false; false]).
Proof. vm_compute. reflexivity. Qed.

(** At the default threshold (Info) the same end writes nothing and still
    releases the slot. *)
Example timer_round_trip_silent :
  (st1 ← clogp_timer_start_ "main.c" 8 "io" env0 initial_state;
   st2 ← clogp_timer_end_ "main.c" 9 "io" env_later st1;
   Some (trace st2, used <$> take 2 (g_timers st1), used <$> take 2 (g_timers st2)))
  = Some ([], [true; false], [false; false]).
Proof. vm_compute. reflexivity. Qed.
